(** * CNNvsTransformer: the metric engine and the training supervisor of [utils.py]

    A shallow embedding of the class [IoU] (confusion-matrix metric), of
    [evaluate_model] and of [train_validate_model], with the properties the
    specification states about them.

    Conventions of the embedding.
    - Python [int]s are [Z]; a raised exception is the [Raise] branch of
      [result].
    - A float is an extended rational: a finite value, an infinity or
      not-a-number.  Comparisons and the special values follow IEEE 754;
      rounding of finite results is not modelled.
    - The confusion matrix is a float64 array of integer-valued cells; a
      cell is modelled by the integer it holds.  The in-place addition of
      [update] rounds as float64 does (53 significant bits, ties to even);
      magnitudes of 2^1024 and more, where float64 has infinity, are
      outside the model.  The sums that [compute] takes of the cells are
      exact: float64 agrees with them as long as the total of the matrix
      is a count of at most 2^53.
    - A tensor of per-pixel scores is the list, in flattening order, of the
      score vectors along the class dimension; a label tensor is the list of
      its labels in the same order. *)

From Stdlib Require Import ZArith QArith List Bool Lia.
From Stdlib Require String Qround.
Import ListNotations.

Local Open Scope Z_scope.

(** ** Exceptions *)

Inductive exn : Type :=
| ValueError
| IndexError
| ZeroDivisionError
| KeyError
| AttributeError.

Inductive result (A : Type) : Type :=
| Ok (a : A)
| Raise (e : exn).

Arguments Ok {A} a.
Arguments Raise {A} e.

Definition bind {A B : Type} (r : result A) (k : A -> result B) : result B :=
  match r with
  | Ok a => k a
  | Raise e => Raise e
  end.

Notation "'let*' x ':=' r 'in' k" := (bind r (fun x => k))
  (at level 10, x pattern, r at level 100, k at level 200).

(** ** Floats *)

Inductive float : Type :=
| Fin (q : Q)
| PInf
| NInf
| NaN.

Definition of_Z (z : Z) : float := Fin (inject_Z z).

Definition isnan (x : float) : bool :=
  match x with NaN => true | _ => false end.

(** [x <= y] on floats: false as soon as one side is not-a-number. *)
Definition fle (x y : float) : bool :=
  match x, y with
  | NaN, _ | _, NaN => false
  | NInf, _ => true
  | _, PInf => true
  | Fin a, Fin b => Qle_bool a b
  | _, _ => false
  end.

(** [x < y] on floats. *)
Definition flt (x y : float) : bool :=
  match x, y with
  | NaN, _ | _, NaN => false
  | PInf, _ => false
  | _, NInf => false
  | Fin a, Fin b => negb (Qle_bool b a)
  | _, _ => true
  end.

(** [x == y] on floats. *)
Definition feq (x y : float) : bool :=
  match x, y with
  | Fin a, Fin b => Qeq_bool a b
  | PInf, PInf | NInf, NInf => true
  | _, _ => false
  end.

Definition fadd (x y : float) : float :=
  match x, y with
  | NaN, _ | _, NaN => NaN
  | PInf, NInf | NInf, PInf => NaN
  | PInf, _ | _, PInf => PInf
  | NInf, _ | _, NInf => NInf
  | Fin a, Fin b => Fin (Qred (a + b))
  end.

Definition Qsgn (q : Q) : Z := Z.sgn (Qnum q).

(** Division of numpy scalars and arrays: a zero divisor gives an infinity
    or, for a zero dividend, not-a-number (with a warning, no exception). *)
Definition np_div (x y : float) : float :=
  match x, y with
  | NaN, _ | _, NaN => NaN
  | Fin a, Fin b =>
      if Qeq_bool b 0 then
        match Qsgn a with
        | Z0 => NaN
        | Zpos _ => PInf
        | Zneg _ => NInf
        end
      else Fin (Qred (a / b))
  | Fin _, _ => Fin 0
  | PInf, Fin b => if Qle_bool 0 b then PInf else NInf
  | NInf, Fin b => if Qle_bool 0 b then NInf else PInf
  | _, _ => NaN
  end.

(** [x / n] for a Python float [x] and a Python int [n]. *)
Definition py_truediv (x : float) (n : Z) : result float :=
  if n =? 0 then Raise ZeroDivisionError else Ok (np_div x (of_Z n)).

Definition fsum (l : list float) : float := fold_left fadd l (Fin 0).

(** [np.nanmean]: the not-a-number entries are left out of the sum and of
    the count. *)
Definition nanmean (l : list float) : float :=
  let kept := filter (fun x => negb (isnan x)) l in
  np_div (fsum kept) (of_Z (Z.of_nat (length kept))).

(** ** Arrays *)

Fixpoint zipWith {A B C : Type} (f : A -> B -> C) (xs : list A) (ys : list B)
  : list C :=
  match xs, ys with
  | x :: xs', y :: ys' => f x y :: zipWith f xs' ys'
  | _, _ => []
  end.

Definition vector := list Z.
Definition matrix := list vector.

(** Exact sums, cell by cell. *)
Definition vec_add : vector -> vector -> vector := zipWith Z.add.
Definition mat_add : matrix -> matrix -> matrix := zipWith vec_add.

(** The float64 nearest to an integer: integers of magnitude up to 2^53
    are float64 values; beyond, 53 significant bits are kept, with ties
    going to the even significand. *)
Definition f64_round (z : Z) : Z :=
  let a := Z.abs z in
  if a <=? 2 ^ 53 then z
  else
    let ulp := 2 ^ (Z.log2 a - 52) in
    let q := a / ulp in
    let r := a mod ulp in
    let q' := if 2 * r <? ulp then q
              else if ulp <? 2 * r then q + 1
              else if Z.even q then q else q + 1 in
    Z.sgn z * (q' * ulp).

(** [a + b] on float64 values that hold integers. *)
Definition f64_add (a b : Z) : Z := f64_round (a + b).

(** [M += H] for a float64 matrix [M] and an int64 matrix [H]: each cell
    of [H] is converted to float64 and added to the cell of [M]. *)
Definition vec_iadd : vector -> vector -> vector :=
  zipWith (fun a b => f64_add a (f64_round b)).
Definition mat_iadd : matrix -> matrix -> matrix := zipWith vec_iadd.

Definition zsum (v : vector) : Z := fold_right Z.add 0 v.

(** [np.zeros((n, n))] *)
Definition zeros (n : nat) : matrix := repeat (repeat 0 n) n.

(** [M[i, j]] *)
Definition cell (M : matrix) (i j : nat) : Z := nth j (nth i M []) 0.

(** [np.diag(M)] *)
Definition diag (M : matrix) : vector :=
  map (fun i => cell M i i) (seq 0 (length M)).

(** [M.sum(axis=1)]: one sum per row. *)
Definition sum_axis1 (M : matrix) : vector := map zsum M.

(** [M.sum(axis=0)]: the rows added up, one sum per column. *)
Definition sum_axis0 (M : matrix) : vector :=
  match M with
  | [] => []
  | r :: rs => fold_left vec_add rs r
  end.

(** [M.sum()] *)
Definition sum_all (M : matrix) : Z := zsum (map zsum M).

(** [a[mask]] for a boolean mask: the shapes must agree. *)
Fixpoint bool_index {A : Type} (a : list A) (mask : list bool)
  : result (list A) :=
  match a, mask with
  | [], [] => Ok []
  | x :: a', m :: mask' =>
      let* r := bool_index a' mask' in
      Ok (if m then x :: r else r)
  | _, _ => Raise IndexError
  end.

Definition countZ (xs : list Z) (k : Z) : Z :=
  Z.of_nat (count_occ Z.eq_dec xs k).

Definition zmax_list (xs : list Z) : Z := fold_right Z.max 0 xs.

(** [np.bincount(xs, minlength=n)]: negative entries are refused;
    otherwise one bin per value up to the greatest entry.  The bins are
    taken to fit in memory: where they do not, numpy raises [MemoryError]
    in place of returning them. *)
Definition bincount (xs : list Z) (minlength : nat) : result vector :=
  if existsb (fun x => x <? 0) xs then Raise ValueError
  else
    let n := match xs with
             | [] => minlength
             | _ => Nat.max minlength (Z.to_nat (zmax_list xs + 1))
             end in
    Ok (map (fun k => countZ xs (Z.of_nat k)) (seq 0 n)).

Fixpoint chunks (rows cols : nat) (xs : vector) : matrix :=
  match rows with
  | O => []
  | S r => firstn cols xs :: chunks r cols (skipn cols xs)
  end.

(** [xs.reshape(rows, cols)] *)
Definition reshape (rows cols : nat) (xs : vector) : result matrix :=
  if (length xs =? rows * cols)%nat then Ok (chunks rows cols xs)
  else Raise ValueError.

(** ** The class [IoU] *)

Record IoU : Type := mkIoU {
  num_classes : Z;
  confusion_matrix : matrix
}.

(** [IoU(num_classes)] *)
Definition IoU_init (n : Z) : result IoU :=
  if n <? 0 then Raise ValueError
  else Ok (mkIoU n (zeros (Z.to_nat n))).

(** [mask = (label_true >= 0) & (label_true < self.num_classes)] *)
Definition valid_label (n : Z) (t : Z) : bool := (0 <=? t) && (t <? n).

Definition _fast_hist (self : IoU) (label_true label_pred : list Z)
  : result matrix :=
  let n := num_classes self in
  let mask := map (valid_label n) label_true in
  let* t := bool_index label_true mask in
  let* p := bool_index label_pred mask in
  let* counts := bincount (zipWith (fun t p => n * t + p) t p)
                          (Z.to_nat (n * n)) in
  reshape (Z.to_nat n) (Z.to_nat n) counts.

(** Index of the first greatest entry of a score vector. *)
Fixpoint argmax_from (best : Q) (besti next : nat) (v : list Q) : nat :=
  match v with
  | [] => besti
  | x :: v' =>
      if Qle_bool x best then argmax_from best besti (S next) v'
      else argmax_from x next (S next) v'
  end.

Definition argmax (v : list Q) : result Z :=
  match v with
  | [] => Raise IndexError
  | x :: v' => Ok (Z.of_nat (argmax_from x 0 1 v'))
  end.

Fixpoint mapM {A B : Type} (f : A -> result B) (l : list A) : result (list B) :=
  match l with
  | [] => Ok []
  | x :: l' =>
      let* y := f x in
      let* ys := mapM f l' in
      Ok (y :: ys)
  end.

(** [torch.argmax(y_preds, dim=1)], flattened. *)
Definition predicted_labels (y_preds : list (list Q)) : result (list Z) :=
  mapM argmax y_preds.

(** [update]: the batch matrix has the shape of the accumulated one (the
    class only ever assigns square matrices of side [num_classes]), so
    [+=] adds cell by cell, in float64. *)
Definition update (self : IoU) (y_preds : list (list Q)) (labels : list Z)
  : result IoU :=
  let* pl := predicted_labels y_preds in
  let* batch_confusion_matrix := _fast_hist self labels pl in
  Ok (mkIoU (num_classes self)
            (mat_iadd (confusion_matrix self) batch_confusion_matrix)).

Definition reset (self : IoU) : IoU :=
  mkIoU (num_classes self) (zeros (Z.to_nat (num_classes self))).

Record MetricSnapshot : Type := mkSnapshot {
  accuracy : float;
  miou : float;
  classwise_iou : list float;
  classwise_f1 : list float;
  f1_mean : float;
  snap_matrix : matrix
}.

(** The body of [compute] once [hist] is chosen. *)
Definition compute_from (hist : matrix) : MetricSnapshot :=
  let d := diag hist in
  let s := vec_add (sum_axis1 hist) (sum_axis0 hist) in
  let iu := zipWith (fun a b => np_div (of_Z a) (of_Z b))
                    d (zipWith Z.sub s d) in
  let f1 := zipWith (fun a b => np_div (of_Z a) (of_Z b))
                    (map (Z.mul 2) d) s in
  mkSnapshot (np_div (of_Z (zsum d)) (of_Z (sum_all hist)))
             (nanmean iu) iu f1 (nanmean f1) hist.

(** [bool(a)] for a numpy array [a], in the numpy versions that still
    have [np.Inf]: no element is false (with a deprecation warning), one
    element is its own truth value, more than one is an error. *)
Definition array_truth (a : matrix) : result bool :=
  match concat a with
  | [] => Ok false
  | [x] => Ok (negb (x =? 0))
  | _ => Raise ValueError
  end.

(** [compute(self, matrix=None)]: [if matrix: hist = matrix]. *)
Definition compute (self : IoU) (matrix_arg : option matrix)
  : result MetricSnapshot :=
  match matrix_arg with
  | None => Ok (compute_from (confusion_matrix self))
  | Some m =>
      let* given := array_truth m in
      Ok (compute_from (if given then m else confusion_matrix self))
  end.

(** ** Vocabulary of the statements about the metric engine *)

(** The invariant of an [IoU] object: a square matrix of side
    [num_classes]. *)
Definition square (n : nat) (M : matrix) : Prop :=
  length M = n /\ Forall (fun r => length r = n) M.

Definition wf_IoU (self : IoU) : Prop :=
  0 <= num_classes self /\
  square (Z.to_nat (num_classes self)) (confusion_matrix self).

(** Number of pixels of a batch with true class [i] and predicted class [j]. *)
Definition pair_count (label_true label_pred : list Z) (i j : Z) : Z :=
  Z.of_nat (length (filter (fun tp => (fst tp =? i) && (snd tp =? j))
                           (combine label_true label_pred))).

(** Predictions whose class dimension has [n] entries. *)
Definition class_dim (n : Z) (y_preds : list (list Q)) : Prop :=
  Forall (fun v => Z.of_nat (length v) = n) y_preds.

(** [M[c, :].sum()] and [M[:, c].sum()] *)
Definition row_sum (M : matrix) (c : nat) : Z := zsum (nth c M []).
Definition col_sum (M : matrix) (c : nat) : Z :=
  zsum (map (fun r => nth c r 0) M).






Definition nonneg (M : matrix) : Prop :=
  Forall (Forall (fun x => 0 <= x)) M.

(** A matrix of counts with room for [k] more pixels: every cell is a
    non-negative integer that stays within 2^53, the range in which
    float64 holds every integer, when [k] is added to it. *)
Definition exact_room (k : Z) (M : matrix) : Prop :=
  Forall (Forall (fun x => 0 <= x /\ x + k <= 2 ^ 53)) M.


(** A batch as [update] receives it: the scores and the labels. *)
Definition scored_batch : Type := (list (list Q) * list Z)%type.

Definition well_shaped (n : Z) (b : scored_batch) : Prop :=
  class_dim n (fst b) /\ length (snd b) = length (fst b).

(** One [update] per batch, in order. *)
Fixpoint update_all (m : IoU) (bs : list scored_batch) : result IoU :=
  match bs with
  | [] => Ok m
  | (y_preds, labels) :: rest =>
      let* m' := update m y_preds labels in
      update_all m' rest
  end.

(** ** Evaluation and training *)

(** [range(a, b)] *)
Definition range (a b : Z) : list Z :=
  map (fun i => a + Z.of_nat i) (seq 0 (Z.to_nat (b - a))).

Section Supervisor.

(** The collaborators the supervisor drives are opaque: a batch of input
    images, the model's parameters, the states of the optimizer and of the
    learning-rate scheduler, and the wall-clock durations. *)
Variables tensor params ostate sstate duration : Type.

(** [model(inputs)] in training ([true]) or inference ([false]) mode. *)
Variable forward : bool -> params -> tensor -> list (list Q).

(** [criterion(y_preds, labels).item()] *)
Variable criterion : list (list Q) -> list Z -> float.

(** [loss.backward(); optimizer.step(); optimizer.zero_grad()] *)
Variable optimizer_step : params -> ostate -> tensor -> list Z -> params * ostate.

(** [lr_scheduler.step()]: the scheduler writes the learning rate into the
    optimizer. *)
Variable scheduler_step : sstate -> ostate -> sstate * ostate.

(** [endtime_train - starttime] of an epoch, as the clock of one call
    measures it.  A call runs each epoch at most once, so its durations
    are a function of the epoch; two calls have two such functions. *)
Variable train_duration : Z -> duration.

(** One batch of a data loader: the inputs and the flattened labels.  A
    loader is the list of the batches it delivers, the same ones in the
    same order on every pass: a loader that shuffles is outside the
    model. *)
Definition batch : Type := (tensor * list Z)%type.

(** What the supervisor does to its collaborators and to the files, in
    the order it does it. *)
Inductive event : Type :=
| EvForward (training grad_enabled : bool) (inputs : tensor)
| EvOptimizerStep
| EvSchedulerStep
| EvLoad
| EvSaveLast (epoch : Z)
| EvSaveBest (epoch : Z).

Record EpochRecord : Type := mkRecord {
  epoch : Z;
  trainLoss : float;
  validationLoss : float;
  metrices : MetricSnapshot;
  duration_train : duration
}.

(** The dictionary handed to [torch.save]. *)
Record Checkpoint : Type := mkCheckpoint {
  ck_model : params;
  ck_model_state_dict : option params;
  ck_optimizer : ostate;
  ck_optimizer_state_dict : option ostate;
  ck_lr_scheduler : option sstate;
  ck_min_val_loss : float;
  ck_results : list EpochRecord;
  ck_epoch : Z
}.

(** The folder of the run: absent, or present with the files
    [<name>_last.pt] and [<name>_best.pt] it may hold. *)
Inductive run_dir : Type :=
| NoFolder
| Folder (last best : option Checkpoint).

(** The objects the supervisor mutates, the two checkpoint files (the
    folder exists once the start-up is over) and the trace of what was done. *)
Record world : Type := mkWorld {
  w_model : params;
  w_optimizer : ostate;
  w_lr_scheduler : option sstate;
  w_last : option Checkpoint;
  w_best : option Checkpoint;
  w_trace : list event
}.

(** *** [evaluate_model] *)

Fixpoint eval_loop (model : params) (dataloader : list batch)
  (total_loss : float) (metric_object : IoU) (tr : list event)
  : result (float * IoU * list event) :=
  match dataloader with
  | [] => Ok (total_loss, metric_object, tr)
  | (inputs, labels) :: rest =>
      let y_preds := forward false model inputs in
      let loss := criterion y_preds labels in
      let* metric_object' := update metric_object y_preds labels in
      eval_loop model rest (fadd total_loss loss) metric_object'
                (tr ++ [EvForward false false inputs])
  end.

(** The metric class handed to [evaluate_model] is [IoU]. *)
Definition evaluate_model (model : params) (dataloader : list batch)
  (num_classes : Z) : result (float * MetricSnapshot * list event) :=
  let* metric_object := IoU_init num_classes in
  let* r := eval_loop model dataloader (Fin 0) metric_object [] in
  let '(total_loss, metric_object', tr) := r in
  let* evaluation_loss := py_truediv total_loss (Z.of_nat (length dataloader)) in
  let* evaluation_metric := compute metric_object' None in
  Ok (evaluation_loss, evaluation_metric, tr).

(** The batches of a loader as the metric sees them under the parameters
    [model], and the loss of one batch. *)
Definition scored (model : params) (dataloader : list batch)
  : list scored_batch :=
  map (fun b => (forward false model (fst b), snd b)) dataloader.

Definition batch_loss (model : params) (b : batch) : float :=
  criterion (forward false model (fst b)) (snd b).

(** *** [train_validate_model] *)

(** [min(results, key=lambda x: x['validationLoss'])]: the first record no
    later one is strictly below. *)
Fixpoint py_min_from (best : EpochRecord) (rest : list EpochRecord)
  : EpochRecord :=
  match rest with
  | [] => best
  | r :: rest' =>
      if flt (validationLoss r) (validationLoss best)
      then py_min_from r rest'
      else py_min_from best rest'
  end.

(** The running values of the function body. *)
Record locals : Type := mkLocals {
  results : list EpochRecord;
  min_val_loss : float;
  best_epoch : Z
}.

(** Lines 269-279: create the folder, or load the "last" checkpoint. *)
Definition load_last (w : world) (dir : run_dir)
  : result (world * list EpochRecord) :=
  match dir with
  | NoFolder =>
      Ok (mkWorld (w_model w) (w_optimizer w) (w_lr_scheduler w)
                  None None (w_trace w), [])
  | Folder None best =>
      Ok (mkWorld (w_model w) (w_optimizer w) (w_lr_scheduler w)
                  None best (w_trace w), [])
  | Folder (Some checkpoint) best =>
      let* sched :=
        match w_lr_scheduler w with
        | None => Ok None
        | Some _ =>
            match ck_lr_scheduler checkpoint with
            | Some s => Ok (Some s)
            | None => Raise AttributeError
            end
        end in
      Ok (mkWorld (ck_model checkpoint) (ck_optimizer checkpoint) sched
                  (Some checkpoint) best (w_trace w ++ [EvLoad]),
          ck_results checkpoint)
  end.

(** Lines 282-293: the epoch to start at, the running values, and whether
    the function returns at once. *)
Definition resume_point (res : list EpochRecord) (num_epochs : Z)
  : Z * locals * bool :=
  match res with
  | [] => (0, mkLocals [] PInf (-1), false)
  | first :: rest =>
      let epochs_trained := epoch (last res first) + 1 in
      let m := py_min_from first rest in
      (epochs_trained, mkLocals res (validationLoss m) (epoch m),
       epochs_trained >=? num_epochs)
  end.

(** The training phase of one epoch. *)
Fixpoint train_batches (w : world) (dataloader_train : list batch)
  (train_loss : float) : world * float :=
  match dataloader_train with
  | [] => (w, train_loss)
  | (inputs, labels) :: rest =>
      let y_preds := forward true (w_model w) inputs in
      let loss := criterion y_preds labels in
      let '(model', opt') :=
        optimizer_step (w_model w) (w_optimizer w) inputs labels in
      let '(sched', opt'', evs) :=
        match w_lr_scheduler w with
        | Some s =>
            let '(s', o') := scheduler_step s opt' in
            (Some s', o', [EvSchedulerStep])
        | None => (None, opt', [])
        end in
      train_batches
        (mkWorld model' opt'' sched' (w_last w) (w_best w)
                 (w_trace w ++ EvForward true true inputs :: EvOptimizerStep :: evs))
        rest (fadd train_loss loss)
  end.

(** One turn of the epoch loop; the boolean tells whether [break] was hit. *)
Definition epoch_body (dataloader_train dataloader_valid : list batch)
  (num_classes early_stop_threshold : Z) (ep : Z) (w : world) (l : locals)
  : result (world * locals * bool) :=
  let '(w1, total) := train_batches w dataloader_train (Fin 0) in
  let* train_loss := py_truediv total (Z.of_nat (length dataloader_train)) in
  let* ev := evaluate_model (w_model w1) dataloader_valid num_classes in
  let '(validation_loss, validation_metric, tr) := ev in
  let results' :=
    results l ++ [mkRecord ep train_loss validation_loss validation_metric
                           (train_duration ep)] in
  let last :=
    mkCheckpoint (w_model w1) (Some (w_model w1))
                 (w_optimizer w1) (Some (w_optimizer w1))
                 (w_lr_scheduler w1) (min_val_loss l) results' ep in
  let trace2 := w_trace w1 ++ tr ++ [EvSaveLast ep] in
  if fle validation_loss (min_val_loss l) then
    let best :=
      mkCheckpoint (w_model w1) None (w_optimizer w1) None
                   (w_lr_scheduler w1) validation_loss results' ep in
    Ok (mkWorld (w_model w1) (w_optimizer w1) (w_lr_scheduler w1)
                (Some last) (Some best) (trace2 ++ [EvSaveBest ep]),
        mkLocals results' validation_loss ep, false)
  else
    Ok (mkWorld (w_model w1) (w_optimizer w1) (w_lr_scheduler w1)
                (Some last) (w_best w1) trace2,
        mkLocals results' (min_val_loss l) (best_epoch l),
        negb (early_stop_threshold =? -1)
        && (early_stop_threshold <? ep - best_epoch l)).

(** [for epoch in range(epochs_trained, num_epochs): ...] *)
Fixpoint epoch_loop (dataloader_train dataloader_valid : list batch)
  (num_classes early_stop_threshold : Z) (epochs : list Z)
  (w : world) (l : locals) : result (world * locals) :=
  match epochs with
  | [] => Ok (w, l)
  | ep :: rest =>
      let* r := epoch_body dataloader_train dataloader_valid
                           num_classes early_stop_threshold ep w l in
      let '(w', l', stop) := r in
      if stop then Ok (w', l')
      else epoch_loop dataloader_train dataloader_valid
                      num_classes early_stop_threshold rest w' l'
  end.

(** [plot_training_results(df, model_name)]: a frame built from no record
    has no column to plot. *)
Definition plot_training_results (df : list EpochRecord) : result unit :=
  match df with
  | [] => Raise KeyError
  | _ => Ok tt
  end.

(** The value returned is [None] or the data frame of the records. *)
Definition train_validate_model (w : world) (dir : run_dir)
  (num_epochs : Z) (dataloader_train dataloader_valid : list batch)
  (num_classes : Z) (early_stop : Z)
  : result (option (list EpochRecord) * world) :=
  let* r := load_last w dir in
  let '(w0, res) := r in
  let '(epochs_trained, l0, done) := resume_point res num_epochs in
  if done then Ok (None, w0)
  else
    let* r' := epoch_loop dataloader_train dataloader_valid
                          num_classes early_stop
                          (range epochs_trained num_epochs) w0 l0 in
    let '(w', l') := r' in
    let* _ := plot_training_results (results l') in
    Ok (Some (results l'), w').

(** *** Vocabulary of the statements about the supervisor *)

(** The forward passes of one evaluation: inference mode, no gradient. *)
Definition eval_trace (dataloader : list batch) : list event :=
  map (fun b => EvForward false false (fst b)) dataloader.

Definition record_of (ep : Z) (train_loss v : float) (metric : MetricSnapshot)
  : EpochRecord :=
  mkRecord ep train_loss v metric (train_duration ep).

Definition last_checkpoint (w1 : world) (l : locals)
  (r : EpochRecord) : Checkpoint :=
  mkCheckpoint (w_model w1) (Some (w_model w1))
               (w_optimizer w1) (Some (w_optimizer w1))
               (w_lr_scheduler w1) (min_val_loss l) (results l ++ [r])
               (epoch r).

Definition best_checkpoint (w1 : world) (l : locals)
  (r : EpochRecord) : Checkpoint :=
  mkCheckpoint (w_model w1) None (w_optimizer w1) None
               (w_lr_scheduler w1) (validationLoss r) (results l ++ [r])
               (epoch r).

(** The loaders for which no turn of the loop can raise. *)
Definition loaders_ok (dl dv : list batch) (nc : Z) : Prop :=
  dl <> [] /\ dv <> [] /\ 0 < nc /\
  forall model, Forall (well_shaped nc) (scored model dv).

End Supervisor.

Arguments EvForward {tensor} training grad_enabled inputs.
Arguments EvOptimizerStep {tensor}.
Arguments EvSchedulerStep {tensor}.
Arguments EvLoad {tensor}.
Arguments EvSaveLast {tensor} epoch.
Arguments EvSaveBest {tensor} epoch.
Arguments mkRecord {duration}.
Arguments epoch {duration}.
Arguments trainLoss {duration}.
Arguments validationLoss {duration}.
Arguments metrices {duration}.
Arguments duration_train {duration}.
Arguments mkCheckpoint {params ostate sstate duration}.
Arguments ck_model {params ostate sstate duration}.
Arguments ck_model_state_dict {params ostate sstate duration}.
Arguments ck_optimizer {params ostate sstate duration}.
Arguments ck_optimizer_state_dict {params ostate sstate duration}.
Arguments ck_lr_scheduler {params ostate sstate duration}.
Arguments ck_min_val_loss {params ostate sstate duration}.
Arguments ck_results {params ostate sstate duration}.
Arguments ck_epoch {params ostate sstate duration}.
Arguments NoFolder {params ostate sstate duration}.
Arguments Folder {params ostate sstate duration}.
Arguments mkWorld {tensor params ostate sstate duration}.
Arguments w_model {tensor params ostate sstate duration}.
Arguments w_optimizer {tensor params ostate sstate duration}.
Arguments w_lr_scheduler {tensor params ostate sstate duration}.
Arguments w_last {tensor params ostate sstate duration}.
Arguments w_best {tensor params ostate sstate duration}.
Arguments w_trace {tensor params ostate sstate duration}.
Arguments mkLocals {duration}.
Arguments results {duration}.
Arguments min_val_loss {duration}.
Arguments best_epoch {duration}.
Arguments py_min_from {duration}.
Arguments resume_point {duration}.
Arguments load_last {tensor params ostate sstate duration}.
Arguments plot_training_results {duration}.
Arguments eval_trace {tensor}.
Arguments record_of {duration}.
Arguments last_checkpoint {tensor params ostate sstate duration}.
Arguments best_checkpoint {tensor params ostate sstate duration}.

(** ** A small instance of the collaborators

    Batches of one pixel and a single class; the parameters of the model
    count the optimizer steps taken, and the loss of a batch is read off a
    table indexed by the parameters. *)

Definition toy_forward (table : nat -> Q) (training : bool) (p : nat)
  (inputs : unit) : list (list Q) := [[table p]].

Definition toy_criterion (y_preds : list (list Q)) (labels : list Z) : float :=
  match y_preds with
  | (q :: _) :: _ => Fin q
  | _ => NaN
  end.

Definition toy_optimizer_step (p : nat) (o : unit) (inputs : unit)
  (labels : list Z) : nat * unit := (S p, o).

Definition toy_scheduler_step (s o : unit) : unit * unit := (s, o).

Definition toy_duration (ep : Z) : unit := tt.

Definition toy_loader : list (unit * list Z) := [(tt, [0])].

Definition toy_world : world unit nat unit unit unit :=
  mkWorld 0%nat tt None None None [].

Definition toy_run (table : nat -> Q) (dir : run_dir nat unit unit unit)
  (num_epochs early_stop : Z) :=
  train_validate_model unit nat unit unit unit (toy_forward table)
    toy_criterion toy_optimizer_step toy_scheduler_step toy_duration
    toy_world dir num_epochs toy_loader toy_loader 1 early_stop.

(** Validation losses 0.5, 0.4, 0.45, 0.46, 0.47 for the epochs 0 to 4,
    and 0.1 from then on. *)
Definition table_patience (p : nat) : Q :=
  match p with
  | 1 => 1#2
  | 2 => 2#5
  | 3 => 9#20
  | 4 => 23#50
  | 5 => 47#100
  | _ => 1#10
  end%nat.

(** Validation losses 0.5, 0.6, 0.4 for the epochs 0 to 2, 0.3 from then on. *)
Definition table_sentinel (p : nat) : Q :=
  match p with
  | 1 => 1#2
  | 2 => 3#5
  | 3 => 2#5
  | _ => 3#10
  end%nat.

(** The same validation loss 0.5 at every epoch. *)
Definition table_tie (p : nat) : Q := 1#2.

Definition saves_last {tensor : Type} (tr : list (event tensor)) : list Z :=
  flat_map (fun e => match e with EvSaveLast ep => [ep] | _ => [] end) tr.

Definition saves_best {tensor : Type} (tr : list (event tensor)) : list Z :=
  flat_map (fun e => match e with EvSaveBest ep => [ep] | _ => [] end) tr.

Definition training_steps {tensor : Type} (tr : list (event tensor)) : nat :=
  length (filter (fun e => match e with
                           | EvOptimizerStep | EvForward true _ _ => true
                           | _ => false
                           end) tr).

(** The turn of the epoch loop of the instance. *)
Definition toy_epoch_body (table : nat -> Q) (early_stop ep : Z) :=
  epoch_body unit nat unit unit unit (toy_forward table) toy_criterion
    toy_optimizer_step toy_scheduler_step toy_duration
    toy_loader toy_loader 1 early_stop ep.

(** The record of epoch 0 when every loss is 0.5, and the "last" checkpoint
    written with it. *)
Definition toy_record0 : EpochRecord unit :=
  mkRecord 0 (Fin (1#2)) (Fin (1#2)) (compute_from [[1]]) tt.

Definition toy_checkpoint0 : Checkpoint nat unit unit unit :=
  mkCheckpoint 1%nat (Some 1%nat) tt (Some tt) None PInf [toy_record0] 0.

(** Early stopping as the specification words it: enabled by a
    non-negative patience. *)
Definition early_stopping_enabled_spec (patience : Z) : bool := 0 <=? patience.

(** A second instance, with batches of several pixels and two classes: the
    input is its number of pixels, every pixel is scored for class 0, and
    the loss of a batch is its number of pixels. *)
Definition px_forward (training : bool) (p : unit) (inputs : nat)
  : list (list Q) := repeat [1; 0]%Q inputs.

Definition px_criterion (y_preds : list (list Q)) (labels : list Z) : float :=
  of_Z (Z.of_nat (length y_preds)).

Definition px_loader : list (nat * list Z) := [(3%nat, [0; 1; 0]); (1%nat, [0])].

(** ** Vocabulary of the further statements *)

(** The flat indices [num_classes * t + p] that [_fast_hist] hands to
    [np.bincount]: one per pixel whose true label passes the mask. *)
Definition flat_indices (n : Z) (label_true label_pred : list Z) : list Z :=
  map (fun tp => n * fst tp + snd tp)
      (filter (fun tp => valid_label n (fst tp))
              (combine label_true label_pred)).

Definition in_matrix (n : Z) (x : Z) : bool := (0 <=? x) && (x <? n * n).

(** The matrix of the counts of flat indices. *)
Definition count_matrix (n : Z) (idx : list Z) : matrix :=
  chunks (Z.to_nat n) (Z.to_nat n)
         (map (fun k => countZ idx (Z.of_nat k))
              (seq 0 (Z.to_nat n * Z.to_nat n))).

(** Number of labels of a batch that pass the mask. *)
Definition valid_pixels (n : Z) (labels : list Z) : Z :=
  Z.of_nat (length (filter (valid_label n) labels)).

(** A float that is not-a-number or a finite value of the unit interval. *)
Definition unit_or_nan (x : float) : Prop :=
  match x with
  | NaN => True
  | Fin q => (0 <= q /\ q <= 1)%Q
  | _ => False
  end.

(** A matrix with counts on its diagonal only. *)
Definition diagonal (M : matrix) : Prop :=
  forall i j, i <> j -> cell M i j = 0.

(** Number of labels of a whole loader that pass the mask. *)
Definition loader_valid_pixels {A : Type} (n : Z) (dl : list (A * list Z)) : Z :=
  zsum (map (fun b => valid_pixels n (snd b)) dl).

(** What one training phase does, batch after batch: a forward pass in
    training mode, an optimizer step and, with a scheduler, a scheduler
    step. *)
Definition train_trace {tensor : Type} (with_scheduler : bool)
  (dl : list (tensor * list Z)) : list (event tensor) :=
  flat_map (fun b => EvForward true true (fst b) :: EvOptimizerStep ::
                     (if with_scheduler then [EvSchedulerStep] else []))
           dl.

Definition is_some {A : Type} (o : option A) : bool :=
  match o with Some _ => true | None => false end.


(** The "best" file against the records of a run: absent when every
    validation loss is not-a-number; otherwise written at the record [r]
    that has the least validation loss, the last one of those that have
    it. *)
Definition best_is_latest_minimum {params ostate sstate duration : Type}
  (best : option (Checkpoint params ostate sstate duration))
  (rs : list (EpochRecord duration)) : Prop :=
  match best with
  | None => Forall (fun r => isnan (validationLoss r) = true) rs
  | Some ck =>
      exists r pre post,
        rs = pre ++ r :: post /\
        ck_results ck = pre ++ [r] /\
        ck_epoch ck = epoch r /\
        ck_min_val_loss ck = validationLoss r /\
        isnan (validationLoss r) = false /\
        Forall (fun r' => isnan (validationLoss r') = false ->
                          fle (validationLoss r) (validationLoss r') = true)
               rs /\
        Forall (fun r' => fle (validationLoss r') (validationLoss r) = false)
               post
  end.

(** The invariant of the epoch loop behind it: the running minimum is the
    loss the "best" file holds, or [+inf] while there is none. *)
Definition best_inv {tensor params ostate sstate duration : Type}
  (w : world tensor params ostate sstate duration) (l : locals duration)
  : Prop :=
  best_is_latest_minimum (w_best w) (results l) /\
  match w_best w with
  | None => min_val_loss l = PInf
  | Some ck => min_val_loss l = ck_min_val_loss ck
  end.

(** The run of three epochs of the small instance with the losses of
    [table_patience] and no early stopping, from scratch, and the run of
    its first epoch alone. *)
Definition toy_run3 :=
  Eval vm_compute in toy_run table_patience NoFolder 3 (-1).

Definition toy_records3 : list (EpochRecord unit) :=
  match toy_run3 with Ok (Some rs, _) => rs | _ => [] end.

Definition toy_world3 : world unit nat unit unit unit :=
  match toy_run3 with Ok (_, w) => w | _ => toy_world end.

(** Two records with the same validation loss. *)
Definition toy_record1 : EpochRecord unit :=
  mkRecord 1 (Fin (1#2)) (Fin (1#2)) (compute_from [[1]]) tt.

(** ** The data utilities

    The normalisation constants, the decoding of colour masks into label
    images, the palettes of the plots, the lookup of images by name and
    the sizes of the random split.  An image is the list of its pixels in
    flattening order, a pixel the triple of its channel values. *)

Module DataUtils.

Import Stdlib.Strings.String.
Local Open Scope string_scope.
Local Open Scope Z_scope.

Definition rgb (A : Type) : Type := (A * A * A)%type.

Definition red {A : Type} (p : rgb A) : A := fst (fst p).
Definition green {A : Type} (p : rgb A) : A := snd (fst p).
Definition blue {A : Type} (p : rgb A) : A := snd p.

(** [norms]: mean and standard deviation per dataset name. *)
Definition norms : list (string * (rgb Q * rgb Q)) :=
  [("imagenet", ((0.485, 0.456, 0.406), (0.229, 0.224, 0.225)));
   ("potsdam", ((0.349, 0.371, 0.347), (0.1196, 0.1164, 0.1197)));
   ("potsdam_irrg", ((0.3823, 0.3625, 0.3364), (0.1172, 0.1167, 0.1203)));
   ("floodnet", ((0.4159, 0.4499, 0.3466), (0.1297, 0.1197, 0.1304)));
   ("vaihingen", ((0.4731, 0.3206, 0.3182), (0.1970, 0.1306, 0.1276)))]%Q.

(** [d[key]] when [key in d.keys()]. *)
Fixpoint lookup {V : Type} (d : list (string * V)) (key : string) : option V :=
  match d with
  | [] => None
  | (k, v) :: d' => if String.eqb k key then Some v else lookup d' key
  end.

(** [transforms.Normalize(mean, std)] applied to the channel values of one
    pixel: [(x - mean) / std] per channel. *)
Definition Normalize (mean std : rgb Q) (x : rgb Q) : rgb Q :=
  ((red x - red mean) / red std,
   (green x - green mean) / green std,
   (blue x - blue mean) / blue std)%Q.

(** The entry of [norms] for a dataset argument; the argument may be
    [None] (the default of [Dataset]) or a name that is no key. *)
Definition norms_entry (dataset : option string) : option (rgb Q * rgb Q) :=
  match dataset with
  | Some name => lookup norms name
  | None => None
  end.

Definition normalize_images (dataset : option string) : rgb Q -> rgb Q :=
  match norms_entry dataset with
  | Some (mean, std) => Normalize mean std
  | None => Normalize (0.485, 0.56, 0.406)%Q (0.229, 0.224, 0.225)%Q
  end.

Definition inverse_transform (dataset : option string) : rgb Q -> rgb Q :=
  match norms_entry dataset with
  | Some (mean, std) =>
      Normalize (- red mean / red std, - green mean / green std,
                 - blue mean / blue std)%Q
                (1 / red std, 1 / green std, 1 / blue std)%Q
  | None =>
      Normalize (-0.485 / 0.229, -0.56 / 0.224, -0.406 / 0.225)%Q
                (1 / 0.229, 1 / 0.224, 1 / 0.225)%Q
  end.

Definition rgb_eq (x y : rgb Q) : Prop :=
  (red x == red y /\ green x == green y /\ blue x == blue y)%Q.

(** *** Colour masks *)

(** A pixel of a mask: three [uint8] channel values. *)
Definition pixel : Type := rgb Z.

Definition pixel_eqb (p q : pixel) : bool :=
  (red p =? red q) && (green p =? green q) && (blue p =? blue q).

Definition Impervious : pixel := (255, 255, 255).
Definition Building : pixel := (0, 0, 255).
Definition Vegetation : pixel := (0, 255, 255).
Definition Tree : pixel := (0, 255, 0).
Definition Car : pixel := (255, 255, 0).
Definition Clutter : pixel := (255, 0, 0).

(** [label_seg[np.all(label == color, axis=-1)] = k] *)
Definition assign_where (label : list pixel) (color : pixel) (k : Z)
  (label_seg : list pixel) : list pixel :=
  zipWith (fun p s => if pixel_eqb p color then (k, k, k) else s)
          label label_seg.

Definition rgb_to_2D_label (label : list pixel) : list pixel :=
  let label_seg := map (fun _ => (0, 0, 0)) label in
  let label_seg := assign_where label Impervious 0 label_seg in
  let label_seg := assign_where label Building 1 label_seg in
  let label_seg := assign_where label Vegetation 2 label_seg in
  let label_seg := assign_where label Tree 3 label_seg in
  let label_seg := assign_where label Car 4 label_seg in
  let label_seg := assign_where label Clutter 5 label_seg in
  label_seg.

(** The part of [Dataset.__getitem__] that turns the resized mask into
    the label image: the decoding for six classes, then [mask[:,:,0]]. *)
Definition mask_labels (n_classes : nat) (mask : list pixel) : list Z :=
  let mask := if Nat.eqb n_classes 6 then rgb_to_2D_label mask else mask in
  map red mask.

(** [train_id_to_color(classes)]: the colour per class index and the
    legend entries (colour and class name), or [None] for a class list of
    any length but 6 and 10. *)
Definition train_id_to_color (classes : list string)
  : option (list pixel * list (pixel * string)) :=
  let with_legend (id_to_color : list pixel) :=
    Some (id_to_color, combine id_to_color classes) in
  match List.length classes with
  | 6%nat =>
      with_legend [(255, 255, 255); (0, 0, 255); (0, 255, 255);
                   (0, 255, 0); (255, 255, 0); (255, 0, 0)]
  | 10%nat =>
      with_legend [(0, 0, 0); (255, 0, 0); (200, 90, 90); (130, 130, 0);
                   (150, 150, 150); (0, 255, 255); (0, 0, 255);
                   (255, 0, 255); (250, 250, 0); (0, 255, 0)]
  | _ => None
  end.

(** [l[i]] for a Python list or a numpy array and an int: negative
    indices count from the end. *)
Definition py_getitem {A : Type} (l : list A) (i : Z) : result A :=
  let n := Z.of_nat (List.length l) in
  let j := if i <? 0 then i + n else i in
  if (0 <=? j) && (j <? n) then
    match nth_error l (Z.to_nat j) with
    | Some x => Ok x
    | None => Raise IndexError
    end
  else Raise IndexError.

(** [id_to_color[label_class]]: the image of the colours of a label
    image. *)
Definition colorize (id_to_color : list pixel) (labels : list Z)
  : result (list pixel) :=
  mapM (py_getitem id_to_color) labels.

(** *** Images by name *)

(** [Dataset.get_name] *)
Definition get_name (im_ids : list string) (i : Z) : result string :=
  py_getitem im_ids i.

Fixpoint get_id_from (i : Z) (im_ids : list string) (im_name : string)
  : option Z :=
  match im_ids with
  | [] => None
  | name :: rest =>
      if String.eqb name im_name then Some i
      else get_id_from (i + 1) rest im_name
  end.

(** [Dataset.get_id_by_name]; [None] is Python's [None]. *)
Definition get_id_by_name (im_ids : list string) (im_name : string)
  : option Z :=
  get_id_from 0 im_ids im_name.

(** *** The random split *)

(** [[math.floor(0.75 * n), math.ceil(0.25 * n)]] for a dataset of [n]
    images. *)
Definition split_lengths (n : nat) : Z * Z :=
  (Qround.Qfloor (0.75 * inject_Z (Z.of_nat n)),
   Qround.Qceiling (0.25 * inject_Z (Z.of_nat n)))%Q.

Definition imagenet : option string := Some "imagenet".

(** The class lists of [load_datasets]. *)
Definition potsdam_classes : list string :=
  ["Impervious"; "Building"; "Vegetation"; "Tree"; "Car"; "Clutter"].

Definition floodnet_classes : list string :=
  ["Background"; "Building-flooded"; "Building-non-flooded"; "Road-flooded";
   "Road-non-flooded"; "Water"; "Tree"; "Vehicle"; "Pool"; "Grass"].

End DataUtils.

(** An instance whose validation loss is not-a-number at epoch 0 and 0.5
    from then on: the loss of a batch is not-a-number for a negative
    score. *)
Definition nan_criterion (y_preds : list (list Q)) (labels : list Z) : float :=
  match y_preds with
  | (q :: _) :: _ => if Qle_bool 0 q then Fin q else NaN
  | _ => NaN
  end.

Definition table_nan (p : nat) : Q :=
  match p with
  | 1%nat => -1
  | _ => 1#2
  end.

Definition nan_run (dir : run_dir nat unit unit unit)
  (num_epochs early_stop : Z) :=
  train_validate_model unit nat unit unit unit (toy_forward table_nan)
    nan_criterion toy_optimizer_step toy_scheduler_step toy_duration
    toy_world dir num_epochs toy_loader toy_loader 1 early_stop.

(** *** Records without their durations

    A record, a checkpoint, a folder and a state of the supervisor with
    the wall-clock durations taken out: what two calls that measure
    different durations can still have in common. *)







(** The small instance with durations that are numbers, measured by a
    clock of the caller's. *)
Definition clocked_world : world unit nat unit unit Z :=
  mkWorld 0%nat tt None None None [].

Definition clocked_run (clock : Z -> Z) (dir : run_dir nat unit unit Z)
  (num_epochs : Z) :=
  train_validate_model unit nat unit unit Z (toy_forward table_patience)
    toy_criterion toy_optimizer_step toy_scheduler_step clock
    clocked_world dir num_epochs toy_loader toy_loader 1 (-1).

Definition clocked_run3 :=
  Eval vm_compute in clocked_run (fun _ => 10) NoFolder 3.

Definition clocked_records3 : list (EpochRecord Z) :=
  match clocked_run3 with Ok (Some rs, _) => rs | _ => [] end.

(** ** Lemmas on arrays *)

Lemma zipWith_length {A B C : Type} (f : A -> B -> C) xs ys :
  length xs = length ys -> length (zipWith f xs ys) = length xs.
Proof.
  revert ys; induction xs as [|x xs IH]; intros [|y ys] H; simpl in *;
    try congruence; try lia.
  f_equal; apply IH; lia.
Qed.

Lemma zipWith_nth {A B C : Type} (f : A -> B -> C) xs ys k da db dc :
  (k < length xs)%nat -> (k < length ys)%nat ->
  nth k (zipWith f xs ys) dc = f (nth k xs da) (nth k ys db).
Proof.
  revert ys k; induction xs as [|x xs IH]; intros [|y ys] [|k] Hx Hy;
    simpl in *; try lia; auto.
  apply IH; lia.
Qed.

Lemma zipWith_map_fst_snd {A B C : Type} (g : A -> B -> C) (l : list (A * B)) :
  zipWith g (map fst l) (map snd l) = map (fun tp => g (fst tp) (snd tp)) l.
Proof. induction l as [|[a b] l IH]; simpl; congruence. Qed.

Lemma square_nth_length n M i :
  square n M -> (i < n)%nat -> length (nth i M []) = n.
Proof.
  intros [Hl Hr] Hi. rewrite Forall_forall in Hr. apply Hr, nth_In. lia.
Qed.

Lemma mat_add_square n A B :
  square n A -> square n B -> square n (mat_add A B).
Proof.
  intros [HA HrA] [HB HrB]. split.
  - unfold mat_add. rewrite zipWith_length; lia.
  - clear HA HB. revert B HrB.
    induction A as [|a A IH]; intros [|b B] HrB; simpl; constructor.
    + inversion HrA; inversion HrB; subst.
      unfold vec_add. rewrite zipWith_length; lia.
    + inversion HrA; inversion HrB; subst. apply IH; assumption.
Qed.

Lemma mat_add_cell n A B i j :
  square n A -> square n B -> (i < n)%nat -> (j < n)%nat ->
  cell (mat_add A B) i j = cell A i j + cell B i j.
Proof.
  intros HA HB Hi Hj. unfold cell, mat_add.
  rewrite (zipWith_nth vec_add A B i [] [] []).
  - unfold vec_add. apply zipWith_nth.
    + rewrite (square_nth_length n); auto.
    + rewrite (square_nth_length n); auto.
  - destruct HA; lia.
  - destruct HB; lia.
Qed.


Lemma zeros_square n : square n (zeros n).
Proof.
  unfold zeros; split.
  - apply repeat_length.
  - apply Forall_forall. intros r Hr. apply repeat_spec in Hr. subst.
    apply repeat_length.
Qed.

Lemma chunks_length r c v : length (chunks r c v) = r.
Proof. revert v; induction r; intros v; simpl; auto. Qed.

Lemma chunks_square n v :
  length v = (n * n)%nat -> square n (chunks n n v).
Proof.
  intros H. split; [apply chunks_length|].
  assert (G : forall r w, (r * n <= length w)%nat ->
                          Forall (fun row => length row = n) (chunks r n w)).
  { induction r as [|r IH]; intros w Hw; simpl; constructor.
    - rewrite length_firstn. simpl in Hw. lia.
    - apply IH. rewrite length_skipn. simpl in Hw. lia. }
  apply G. lia.
Qed.

Lemma chunks_cell r c v i j :
  (i < r)%nat -> (j < c)%nat ->
  cell (chunks r c v) i j = nth (i * c + j) v 0.
Proof.
  unfold cell. revert v i. induction r as [|r IH]; intros v [|i] Hi Hj;
    simpl; try lia.
  - rewrite nth_firstn. destruct (Nat.ltb_spec j c); [reflexivity | lia].
  - rewrite IH by lia. rewrite nth_skipn. f_equal. lia.
Qed.

(** ** Lemmas on masking and counting *)

Lemma bool_index_mask {A : Type} (f : A -> bool) (l : list A) :
  bool_index l (map f l) = Ok (filter f l).
Proof.
  induction l as [|x l IH]; simpl; auto.
  rewrite IH; simpl. destruct (f x); reflexivity.
Qed.

Lemma bool_index_mask_other {A B : Type} (f : A -> bool) (l : list A)
  (p : list B) :
  length l = length p ->
  bool_index p (map f l)
  = Ok (map snd (filter (fun tp => f (fst tp)) (combine l p))).
Proof.
  revert p; induction l as [|x l IH]; intros [|y p] H; simpl in *;
    try congruence; auto.
  rewrite IH by lia. simpl. destruct (f x); reflexivity.
Qed.

Lemma filter_fst_combine {A B : Type} (f : A -> bool) (l : list A)
  (p : list B) :
  length l = length p ->
  filter f l = map fst (filter (fun tp => f (fst tp)) (combine l p)).
Proof.
  revert p; induction l as [|x l IH]; intros [|y p] H; simpl in *;
    try congruence; auto.
  destruct (f x); simpl; rewrite <- IH by lia; reflexivity.
Qed.

Lemma countZ_cons x xs k :
  countZ (x :: xs) k = (if x =? k then 1 else 0) + countZ xs k.
Proof.
  unfold countZ; simpl.
  destruct (Z.eq_dec x k) as [E|E].
  - subst. rewrite Z.eqb_refl. lia.
  - apply Z.eqb_neq in E. rewrite E. lia.
Qed.

Lemma countZ_app xs ys k : countZ (xs ++ ys) k = countZ xs k + countZ ys k.
Proof. unfold countZ. rewrite count_occ_app. lia. Qed.

Lemma zmax_list_bound xs b :
  0 <= b -> Forall (fun x => x <= b) xs -> zmax_list xs <= b.
Proof.
  intros Hb H; induction H as [|x l Hx _ IH]; [simpl; lia|].
  change (Z.max x (zmax_list l) <= b). lia.
Qed.

Lemma bincount_in_range xs N :
  Forall (fun x => 0 <= x < Z.of_nat N) xs ->
  bincount xs N = Ok (map (fun k => countZ xs (Z.of_nat k)) (seq 0 N)).
Proof.
  intros H. unfold bincount.
  assert (E : existsb (fun x => x <? 0) xs = false).
  { clear -H. induction H; simpl; auto.
    rewrite IHForall. destruct (Z.ltb_spec x 0); [lia | reflexivity]. }
  rewrite E. destruct xs as [|x xs]; [reflexivity|].
  replace (Nat.max N _) with N; [reflexivity|].
  assert (zmax_list (x :: xs) <= Z.of_nat N - 1).
  { inversion H; subst. apply zmax_list_bound; [lia|].
    eapply Forall_impl; [|exact H]. simpl; intros; lia. }
  lia.
Qed.

Lemma zsum_indicator x N :
  0 <= x < Z.of_nat N ->
  zsum (map (fun k => if x =? Z.of_nat k then 1 else 0) (seq 0 N)) = 1.
Proof.
  intros Hx.
  assert (G : forall len start,
             zsum (map (fun k => if x =? Z.of_nat k then 1 else 0)
                       (seq start len))
             = if (Z.of_nat start <=? x) && (x <? Z.of_nat (start + len))
               then 1 else 0).
  { induction len as [|len IH]; intros start; simpl.
    - destruct (Z.leb_spec (Z.of_nat start) x),
               (Z.ltb_spec x (Z.of_nat (start + 0))); simpl; try lia.
    - rewrite IH.
      destruct (Z.eqb_spec x (Z.of_nat start)),
               (Z.leb_spec (Z.of_nat (S start)) x),
               (Z.ltb_spec x (Z.of_nat (S start + len))),
               (Z.leb_spec (Z.of_nat start) x),
               (Z.ltb_spec x (Z.of_nat (start + S len))); simpl; lia. }
  rewrite G. simpl.
  destruct (Z.leb_spec 0 x), (Z.ltb_spec x (Z.of_nat N)); simpl; lia.
Qed.

Lemma zsum_map_add {A : Type} (f g : A -> Z) l :
  zsum (map (fun k => f k + g k) l) = zsum (map f l) + zsum (map g l).
Proof. induction l; simpl; lia. Qed.

Lemma zsum_bincount xs N :
  Forall (fun x => 0 <= x < Z.of_nat N) xs ->
  zsum (map (fun k => countZ xs (Z.of_nat k)) (seq 0 N))
  = Z.of_nat (length xs).
Proof.
  induction 1 as [|x xs Hx _ IH].
  - simpl. induction (seq 0 N); simpl; auto.
  - rewrite (map_ext _ (fun k => (if x =? Z.of_nat k then 1 else 0)
                                 + countZ xs (Z.of_nat k))).
    + rewrite zsum_map_add, IH, zsum_indicator by assumption.
      simpl length. lia.
    + intros k. apply countZ_cons.
Qed.

Lemma zsum_app a b : zsum (a ++ b) = zsum a + zsum b.
Proof. induction a; simpl; lia. Qed.

Lemma sum_all_chunks r c v :
  length v = (r * c)%nat -> sum_all (chunks r c v) = zsum v.
Proof.
  unfold sum_all. revert v; induction r as [|r IH]; intros v H; simpl.
  - destruct v; simpl in *; [reflexivity | lia].
  - rewrite IH by (rewrite length_skipn; simpl in H; lia).
    rewrite <- zsum_app, firstn_skipn. reflexivity.
Qed.

Lemma zsum_vec_add a b :
  length a = length b -> zsum (vec_add a b) = zsum a + zsum b.
Proof.
  revert b; induction a as [|x a IH]; intros [|y b] H; simpl in *;
    try lia. unfold vec_add in IH. rewrite IH by lia. lia.
Qed.

Lemma sum_all_mat_add n A B :
  square n A -> square n B ->
  sum_all (mat_add A B) = sum_all A + sum_all B.
Proof.
  intros [HA HrA] [HB HrB]. unfold sum_all.
  assert (HL : length A = length B) by lia. clear HA HB.
  revert B HrB HL. induction A as [|a A IH]; intros [|b B] HrB HL;
    simpl in *; try lia.
  inversion HrA; inversion HrB; subst.
  unfold mat_add in IH. rewrite IH by (auto; lia).
  rewrite zsum_vec_add by lia. lia.
Qed.

(** ** The float64 addition of [update] *)

Lemma f64_round_small z : - 2 ^ 53 <= z <= 2 ^ 53 -> f64_round z = z.
Proof.
  intros H. unfold f64_round.
  destruct (Z.leb_spec (Z.abs z) (2 ^ 53)) as [_|Hn]; [reflexivity|lia].
Qed.

Lemma f64_round_nonneg z : 0 <= z -> 0 <= f64_round z.
Proof.
  intros H. unfold f64_round.
  destruct (Z.leb_spec (Z.abs z) (2 ^ 53)) as [_|Hn]; [exact H|].
  cbv zeta.
  set (ulp := 2 ^ (Z.log2 (Z.abs z) - 52)).
  assert (Hu : 0 <= ulp) by (apply Z.pow_nonneg; lia).
  assert (Hq : 0 <= Z.abs z / ulp).
  { destruct (Z.eq_dec ulp 0) as [->|Hu0].
    - rewrite Z.div_0_r. lia.
    - apply Z.div_pos; lia. }
  assert (Hs : Z.sgn z = 1) by (apply Z.sgn_pos; lia).
  rewrite Hs.
  destruct (2 * (Z.abs z mod ulp) <? ulp); [nia|].
  destruct (ulp <? 2 * (Z.abs z mod ulp)); [nia|].
  destruct (Z.even (Z.abs z / ulp)); nia.
Qed.

Lemma f64_add_exact a b k :
  0 <= a -> a + k <= 2 ^ 53 -> 0 <= b <= k ->
  f64_add a (f64_round b) = a + b.
Proof.
  intros Ha Hk Hb. unfold f64_add.
  rewrite (f64_round_small b) by lia. apply f64_round_small. lia.
Qed.

Lemma vec_iadd_length a b :
  length a = length b -> length (vec_iadd a b) = length a.
Proof. apply zipWith_length. Qed.

Lemma mat_iadd_square n A B :
  square n A -> square n B -> square n (mat_iadd A B).
Proof.
  intros [HA HrA] [HB HrB]. split.
  - unfold mat_iadd. rewrite zipWith_length; lia.
  - clear HA HB. revert B HrB.
    induction A as [|a A IH]; intros [|b B] HrB; simpl; constructor.
    + inversion HrA; inversion HrB; subst.
      rewrite vec_iadd_length; lia.
    + inversion HrA; inversion HrB; subst. apply IH; assumption.
Qed.

Lemma mat_iadd_cell n A B i j :
  square n A -> square n B -> (i < n)%nat -> (j < n)%nat ->
  cell (mat_iadd A B) i j = f64_add (cell A i j) (f64_round (cell B i j)).
Proof.
  intros HA HB Hi Hj. unfold cell, mat_iadd.
  rewrite (zipWith_nth vec_iadd A B i [] [] []).
  - unfold vec_iadd.
    apply (zipWith_nth (fun a b => f64_add a (f64_round b))
             (nth i A []) (nth i B []) j 0 0 0).
    + rewrite (square_nth_length n); auto.
    + rewrite (square_nth_length n); auto.
  - destruct HA; lia.
  - destruct HB; lia.
Qed.

Lemma vec_iadd_nonneg a b :
  Forall (fun x => 0 <= x) a -> Forall (fun x => 0 <= x) b ->
  Forall (fun x => 0 <= x) (vec_iadd a b).
Proof.
  intros Ha. revert b. induction Ha as [|x a Hx _ IH]; intros b Hb;
    [constructor|].
  destruct Hb as [|y b Hy Hb]; [constructor|].
  change (vec_iadd (x :: a) (y :: b))
    with (f64_add x (f64_round y) :: vec_iadd a b).
  constructor; [|apply IH; exact Hb].
  unfold f64_add. apply f64_round_nonneg.
  pose proof (f64_round_nonneg y Hy). lia.
Qed.

Lemma mat_iadd_nonneg A B :
  nonneg A -> nonneg B -> nonneg (mat_iadd A B).
Proof.
  unfold nonneg. intros HA. revert B.
  induction HA as [|a A Ha _ IH]; intros B HB; [constructor|].
  destruct HB as [|b B Hb HB]; [constructor|].
  change (mat_iadd (a :: A) (b :: B)) with (vec_iadd a b :: mat_iadd A B).
  constructor; [apply vec_iadd_nonneg; assumption | apply IH; exact HB].
Qed.

Lemma vec_iadd_exact k k' a b :
  0 <= k' ->
  Forall (fun x => 0 <= x /\ x + (k + k') <= 2 ^ 53) a ->
  Forall (fun y => 0 <= y <= k) b ->
  vec_iadd a b = vec_add a b /\
  Forall (fun x => 0 <= x /\ x + k' <= 2 ^ 53) (vec_add a b).
Proof.
  intros Hk' Ha. revert b. induction Ha as [|x a [Hx Hxk] _ IH]; intros b Hb.
  - split; [reflexivity | constructor].
  - destruct Hb as [|y b Hy Hb]; [split; [reflexivity | constructor]|].
    destruct (IH b Hb) as [E F].
    change (vec_iadd (x :: a) (y :: b))
      with (f64_add x (f64_round y) :: vec_iadd a b).
    change (vec_add (x :: a) (y :: b)) with ((x + y) :: vec_add a b).
    rewrite E, (f64_add_exact x y k) by lia.
    split; [reflexivity|]. constructor; [lia | exact F].
Qed.

(** Within the exact range the float64 sum is the exact one, and what
    room is left is what was there less the pixels added. *)
Lemma mat_iadd_exact k k' M H :
  0 <= k' ->
  exact_room (k + k') M ->
  Forall (Forall (fun y => 0 <= y <= k)) H ->
  mat_iadd M H = mat_add M H /\ exact_room k' (mat_add M H).
Proof.
  intros Hk' HM. revert H. unfold exact_room in *.
  induction HM as [|a M Ha _ IH]; intros H HH.
  - split; [reflexivity | constructor].
  - destruct HH as [|b H Hb HH]; [split; [reflexivity | constructor]|].
    destruct (IH H HH) as [E F].
    destruct (vec_iadd_exact k k' a b Hk' Ha Hb) as [Ev Fv].
    change (mat_iadd (a :: M) (b :: H)) with (vec_iadd a b :: mat_iadd M H).
    change (mat_add (a :: M) (b :: H)) with (vec_add a b :: mat_add M H).
    rewrite E, Ev.
    split; [reflexivity|]. constructor; assumption.
Qed.

Lemma exact_room_le k k' M :
  k' <= k -> exact_room k M -> exact_room k' M.
Proof.
  intros Hk. unfold exact_room. apply Forall_impl. intros r.
  apply Forall_impl. intros x. lia.
Qed.

Lemma exact_room_nonneg k M : exact_room k M -> nonneg M.
Proof.
  unfold exact_room, nonneg. apply Forall_impl. intros r.
  apply Forall_impl. intros x. lia.
Qed.

Lemma zsum_nonneg_ge (l : vector) y :
  Forall (fun x => 0 <= x) l -> In y l -> 0 <= y <= zsum l.
Proof.
  induction 1 as [|x l Hx Hl IH]; intros Hin; [destruct Hin|].
  assert (0 <= zsum l).
  { clear IH Hin. induction Hl; simpl; lia. }
  simpl. destruct Hin as [->|Hin]; [lia|]. specialize (IH Hin). lia.
Qed.

(** Every cell of a matrix of non-negative counts is at most its total. *)
Lemma nonneg_le_sum_all H :
  nonneg H -> Forall (Forall (fun y => 0 <= y <= sum_all H)) H.
Proof.
  intros Hnn. unfold nonneg in Hnn.
  assert (Hrows : Forall (fun x => 0 <= x) (map zsum H)).
  { apply Forall_forall. intros x Hx. apply in_map_iff in Hx.
    destruct Hx as [r [<- Hr]]. rewrite Forall_forall in Hnn.
    specialize (Hnn r Hr). clear Hr. induction Hnn; simpl; lia. }
  apply Forall_forall. intros r Hr. apply Forall_forall. intros y Hy.
  rewrite Forall_forall in Hnn.
  pose proof (zsum_nonneg_ge r y (Hnn r Hr) Hy) as H1.
  pose proof (zsum_nonneg_ge (map zsum H) (zsum r) Hrows
                (in_map zsum H r Hr)) as H2.
  unfold sum_all. lia.
Qed.

Lemma nth_map_seq (f : nat -> Z) L k :
  (k < L)%nat -> nth k (map f (seq 0 L)) 0 = f k.
Proof.
  intros H. rewrite (nth_indep _ 0 (f 0%nat)) by (rewrite length_map, length_seq; lia).
  rewrite map_nth, seq_nth; auto.
Qed.

Lemma valid_label_spec n t : valid_label n t = true <-> 0 <= t < n.
Proof.
  unfold valid_label.
  destruct (Z.leb_spec 0 t), (Z.ltb_spec t n); simpl; split; intros;
    try lia; try discriminate; auto.
Qed.

Lemma count_flat_index n (l : list (Z * Z)) i j :
  0 <= i < n -> 0 <= j < n ->
  Forall (fun tp => 0 <= snd tp < n) l ->
  countZ (map (fun tp => n * fst tp + snd tp)
              (filter (fun tp => valid_label n (fst tp)) l))
         (n * i + j)
  = Z.of_nat (length (filter (fun tp => (fst tp =? i) && (snd tp =? j)) l)).
Proof.
  intros Hi Hj H. induction H as [|[t p] l Hp _ IH]; [reflexivity|].
  simpl in *.
  destruct (valid_label n t) eqn:V.
  - apply valid_label_spec in V. simpl map. rewrite countZ_cons, IH.
    destruct (Z.eqb_spec (n * t + p) (n * i + j)),
             (Z.eqb_spec t i), (Z.eqb_spec p j); simpl length; try lia; nia.
  - rewrite IH.
    destruct (Z.eqb_spec t i); simpl; [|reflexivity].
    subst. assert (valid_label n i = true) by (apply valid_label_spec; lia).
    congruence.
Qed.

Lemma Forall_snd_combine {A B : Type} (P : B -> Prop) (l : list A)
  (p : list B) :
  Forall P p -> Forall (fun tp => P (snd tp)) (combine l p).
Proof.
  intros H. apply Forall_forall. intros [a b] Hin.
  apply in_combine_r in Hin. rewrite Forall_forall in H. simpl. auto.
Qed.

(** What [_fast_hist] returns on arrays of one shape when the predicted
    labels are class indices. *)
Lemma fast_hist_spec self label_true label_pred :
  0 <= num_classes self ->
  length label_true = length label_pred ->
  Forall (fun p => 0 <= p < num_classes self) label_pred ->
  exists H,
    _fast_hist self label_true label_pred = Ok H /\
    square (Z.to_nat (num_classes self)) H /\
    (forall i j, (i < Z.to_nat (num_classes self))%nat ->
                 (j < Z.to_nat (num_classes self))%nat ->
                 cell H i j
                 = pair_count label_true label_pred (Z.of_nat i) (Z.of_nat j)) /\
    sum_all H
    = Z.of_nat (length (filter (valid_label (num_classes self)) label_true)).
Proof.
  intros Hn Hlen Hp. unfold _fast_hist.
  set (n := num_classes self) in *.
  rewrite bool_index_mask. cbn [bind].
  rewrite (bool_index_mask_other _ _ label_pred Hlen). cbn [bind].
  rewrite (filter_fst_combine _ _ label_pred Hlen), zipWith_map_fst_snd.
  set (pairs := combine label_true label_pred).
  set (kept := filter (fun tp => valid_label n (fst tp)) pairs).
  assert (Hsnd : Forall (fun tp => 0 <= snd tp < n) pairs)
    by (apply (Forall_snd_combine (fun p => 0 <= p < n)); exact Hp).
  assert (Hidx : Forall (fun x => 0 <= x < Z.of_nat (Z.to_nat (n * n)))
                        (map (fun tp => n * fst tp + snd tp) kept)).
  { apply Forall_forall. intros x Hx. apply in_map_iff in Hx.
    destruct Hx as [[t p] [<- Hin]]. apply filter_In in Hin.
    destruct Hin as [Hin V]. simpl in *. apply valid_label_spec in V.
    rewrite Forall_forall in Hsnd. specialize (Hsnd _ Hin). simpl in Hsnd.
    rewrite Z2Nat.id by nia. nia. }
  rewrite (bincount_in_range _ _ Hidx). cbn [bind].
  assert (HN : Z.to_nat (n * n) = (Z.to_nat n * Z.to_nat n)%nat)
    by (apply Z2Nat.inj_mul; lia).
  unfold reshape. rewrite length_map, length_seq, HN, Nat.eqb_refl.
  eexists; split; [reflexivity|]. split; [|split].
  - apply chunks_square. rewrite length_map, length_seq. reflexivity.
  - intros i j Hi Hj. rewrite chunks_cell by assumption.
    rewrite nth_map_seq by nia.
    replace (Z.of_nat (i * Z.to_nat n + j)) with (n * Z.of_nat i + Z.of_nat j)
      by nia.
    unfold kept. rewrite count_flat_index; auto; lia.
  - rewrite sum_all_chunks by (rewrite length_map, length_seq; reflexivity).
    rewrite <- HN, (zsum_bincount _ _ Hidx), length_map.
    rewrite length_map. reflexivity.
Qed.

(** ** Lemmas on [argmax] and [update] *)

Lemma argmax_from_bound v best besti next :
  (besti < next)%nat ->
  (argmax_from best besti next v < next + length v)%nat.
Proof.
  revert best besti next. induction v as [|x v IH]; intros; simpl; [lia|].
  destruct (Qle_bool x best).
  - specialize (IH best besti (S next)). lia.
  - specialize (IH x next (S next)). lia.
Qed.

Lemma argmax_in_range v n :
  0 < n -> Z.of_nat (length v) = n ->
  exists k, argmax v = Ok k /\ 0 <= k < n.
Proof.
  intros Hn Hl. destruct v as [|x v]; simpl in *; [lia|].
  eexists; split; [reflexivity|].
  pose proof (argmax_from_bound v x 0%nat 1%nat). lia.
Qed.

Lemma predicted_labels_in_range n y_preds :
  0 < n -> class_dim n y_preds ->
  exists pl, predicted_labels y_preds = Ok pl /\
             length pl = length y_preds /\
             Forall (fun p => 0 <= p < n) pl.
Proof.
  intros Hn H. unfold predicted_labels.
  induction H as [|v l Hv _ IH]; simpl.
  - exists []; auto.
  - destruct (argmax_in_range v n Hn Hv) as [k [-> Hk]].
    destruct IH as [pl [-> [Hl Hf]]]. simpl.
    exists (k :: pl); simpl; auto.
Qed.







(** [update] on a well-formed object and a batch of one shape raises
    nothing, whatever the counts are. *)
Lemma update_ok self y_preds labels :
  wf_IoU self -> 0 < num_classes self ->
  class_dim (num_classes self) y_preds ->
  length labels = length y_preds ->
  exists pl H,
    predicted_labels y_preds = Ok pl /\
    length pl = length y_preds /\
    Forall (fun p => 0 <= p < num_classes self) pl /\
    _fast_hist self labels pl = Ok H /\
    square (Z.to_nat (num_classes self)) H /\
    (forall i j, (i < Z.to_nat (num_classes self))%nat ->
                 (j < Z.to_nat (num_classes self))%nat ->
                 cell H i j
                 = pair_count labels pl (Z.of_nat i) (Z.of_nat j)) /\
    sum_all H = valid_pixels (num_classes self) labels /\
    update self y_preds labels
    = Ok (mkIoU (num_classes self) (mat_iadd (confusion_matrix self) H)) /\
    wf_IoU (mkIoU (num_classes self) (mat_iadd (confusion_matrix self) H)).
Proof.
  intros [Hn Hsq] Hpos Hdim Hlen.
  destruct (predicted_labels_in_range _ _ Hpos Hdim) as [pl [Epl [Hl Hr]]].
  destruct (fast_hist_spec self labels pl Hn) as [H [EH [HsqH [Hcell Hsum]]]];
    [lia | exact Hr |].
  exists pl, H. unfold update. rewrite Epl. cbn [bind]. rewrite EH.
  cbn [bind].
  split; [reflexivity|]. split; [exact Hl|]. split; [exact Hr|].
  split; [reflexivity|]. split; [exact HsqH|]. split; [exact Hcell|].
  split; [exact Hsum|]. split; [reflexivity|].
  split; [exact Hn | apply (mat_iadd_square _ _ _ Hsq HsqH)].
Qed.

Lemma nonneg_of_cells n M :
  square n M -> (forall i j, (i < n)%nat -> (j < n)%nat -> 0 <= cell M i j) ->
  nonneg M.
Proof.
  intros [Hl Hr] H. unfold nonneg. apply Forall_forall. intros r Hin.
  destruct (In_nth _ _ [] Hin) as [i [Hi Er]].
  apply Forall_forall. intros x Hx.
  destruct (In_nth _ _ 0 Hx) as [j [Hj Ex]].
  rewrite Forall_forall in Hr. specialize (Hr r Hin).
  subst r x. unfold matrix, vector in *. apply (H i j); lia.
Qed.


(** ** The accumulation of the confusion matrix *)


Lemma valid_pixels_nonneg n l : 0 <= valid_pixels n l.
Proof. unfold valid_pixels. lia. Qed.







(** ** The metrics computed from the matrix *)

Lemma diag_length M : length (diag M) = length M.
Proof. unfold diag. rewrite length_map, length_seq. reflexivity. Qed.

Lemma diag_nth M c :
  (c < length M)%nat -> nth c (diag M) 0 = cell M c c.
Proof. intros H. unfold diag. apply (nth_map_seq (fun i => cell M i i)), H. Qed.

Lemma sum_axis1_nth M c : nth c (sum_axis1 M) 0 = row_sum M c.
Proof.
  unfold sum_axis1, row_sum.
  change 0 with (zsum []) at 1. apply map_nth.
Qed.

Lemma fold_vec_add n rs r :
  length r = n -> Forall (fun x => length x = n) rs ->
  length (fold_left vec_add rs r) = n /\
  forall c, (c < n)%nat ->
            nth c (fold_left vec_add rs r) 0
            = nth c r 0 + zsum (map (fun x => nth c x 0) rs).
Proof.
  intros Hr H. revert r Hr. induction H as [|x rs Hx _ IH]; intros r Hr; simpl.
  - split; [assumption | intros; lia].
  - assert (Hl : length (vec_add r x) = n)
      by (unfold vec_add; rewrite zipWith_length; lia).
    destruct (IH _ Hl) as [IH1 IH2]. split; [assumption|].
    intros c Hc. rewrite IH2 by assumption.
    unfold vec_add. rewrite (zipWith_nth Z.add r x c 0 0 0) by lia. lia.
Qed.

Lemma sum_axis0_spec n M :
  square n M ->
  length (sum_axis0 M) = n /\
  forall c, (c < n)%nat -> nth c (sum_axis0 M) 0 = col_sum M c.
Proof.
  intros [Hl Hr]. destruct M as [|r rs]; simpl in *.
  - subst n. split; [reflexivity | intros; lia].
  - inversion Hr; subst. apply fold_vec_add; assumption.
Qed.

Lemma nth_le_zsum r c :
  Forall (fun x => 0 <= x) r -> 0 <= nth c r 0 <= zsum r.
Proof.
  intros H. revert c. induction H as [|x r Hx _ IH]; intros [|c]; simpl;
    try lia.
  - specialize (IH 0%nat). lia.
  - specialize (IH c). lia.
Qed.

Lemma nonneg_cell_bounds n M c :
  square n M -> nonneg M -> (c < n)%nat ->
  0 <= cell M c c <= row_sum M c /\ cell M c c <= col_sum M c.
Proof.
  intros [Hl Hr] Hnn Hc. unfold cell, row_sum, col_sum.
  assert (Hrow : Forall (fun x => 0 <= x) (nth c M [])).
  { unfold nonneg in Hnn. rewrite Forall_forall in Hnn.
    apply Hnn, nth_In. lia. }
  split; [apply nth_le_zsum, Hrow|].
  assert (Hcol : Forall (fun x => 0 <= x) (map (fun r => nth c r 0) M)).
  { apply Forall_forall. intros x Hx. apply in_map_iff in Hx.
    destruct Hx as [r [<- Hin]]. unfold nonneg in Hnn.
    rewrite Forall_forall in Hnn. apply nth_le_zsum, Hnn, Hin. }
  pose proof (nth_le_zsum _ c Hcol) as B.
  rewrite (@nth_indep _ _ c 0 ((fun r => nth c r 0) [])) in B.
  2:{ rewrite length_map. unfold vector in *. lia. }
  rewrite (map_nth (fun r => nth c r 0)) in B. apply B.
Qed.



Lemma np_div_zero_zero : np_div (of_Z 0) (of_Z 0) = NaN.
Proof. reflexivity. Qed.

(** The per-class vectors of [compute_from]. *)
Lemma compute_from_classwise n M :
  square n M ->
  length (classwise_iou (compute_from M)) = n /\
  length (classwise_f1 (compute_from M)) = n /\
  forall c, (c < n)%nat ->
    nth c (classwise_iou (compute_from M)) NaN
    = np_div (of_Z (cell M c c))
             (of_Z (row_sum M c + col_sum M c - cell M c c)) /\
    nth c (classwise_f1 (compute_from M)) NaN
    = np_div (of_Z (2 * cell M c c)) (of_Z (row_sum M c + col_sum M c)).
Proof.
  intros Hsq. pose proof Hsq as [Hl Hr].
  destruct (sum_axis0_spec n M Hsq) as [L0 N0].
  assert (L1 : length (sum_axis1 M) = n)
    by (unfold sum_axis1; rewrite length_map; exact Hl).
  assert (Ld : length (diag M) = n) by (rewrite diag_length; exact Hl).
  assert (Ls : length (vec_add (sum_axis1 M) (sum_axis0 M)) = n)
    by (unfold vec_add; rewrite zipWith_length; lia).
  assert (Ns : forall c, (c < n)%nat ->
             nth c (vec_add (sum_axis1 M) (sum_axis0 M)) 0
             = row_sum M c + col_sum M c).
  { intros c Hc. unfold vec_add.
    rewrite (zipWith_nth Z.add _ _ c 0 0 0) by lia.
    rewrite sum_axis1_nth, N0 by assumption. reflexivity. }
  cbn [compute_from classwise_iou classwise_f1].
  split; [|split].
  - rewrite zipWith_length; rewrite ?zipWith_length; lia.
  - rewrite zipWith_length; rewrite ?length_map; lia.
  - intros c Hc. split.
    + rewrite (zipWith_nth _ _ _ c 0 0 NaN)
        by (rewrite ?zipWith_length; lia).
      rewrite (zipWith_nth Z.sub _ _ c 0 0 0) by lia.
      rewrite Ns, diag_nth by lia. reflexivity.
    + rewrite (zipWith_nth _ _ _ c 0 0 NaN)
        by (rewrite ?length_map; lia).
      rewrite Ns by assumption.
      change 0 with (2 * 0) at 1. rewrite map_nth, diag_nth by lia.
      reflexivity.
Qed.

(** *** The means of [compute] *)







(** A matrix of three classes, the third one absent from truth and
    prediction: the mean IoU is the mean of the two defined values. *)
Example compute_absent_class :
  compute (mkIoU 3 [[2; 1; 0]; [0; 3; 0]; [0; 0; 0]]) None
  = Ok (mkSnapshot (Fin (5#6)) (Fin (17#24))
          [Fin (2#3); Fin (3#4); NaN] [Fin (4#5); Fin (6#7); NaN]
          (Fin (29#35)) [[2; 1; 0]; [0; 3; 0]; [0; 0; 0]]).
Proof. vm_compute. reflexivity. Qed.

(** C8, at the inputs where it fails: a given matrix of more than one
    element makes [if matrix:] raise, and a given one-element zero matrix
    is set aside for the accumulated one. *)
Theorem compute_given_matrix_truthiness :
  compute (mkIoU 2 [[5; 1]; [2; 7]]) (Some [[1; 0]; [0; 1]])
  = Raise ValueError /\
  compute (mkIoU 1 [[5]]) (Some [[0]]) = Ok (compute_from [[5]]) /\
  compute_from [[5]] <> compute_from [[0]] /\
  compute (mkIoU 1 [[5]]) (Some [[3]]) = Ok (compute_from [[3]]) /\
  forall self, compute self None = Ok (compute_from (confusion_matrix self)).
Proof.
  repeat split; try reflexivity.
  intros H. apply (f_equal snap_matrix) in H. discriminate H.
Qed.

(** ** Lemmas on float comparisons *)

Lemma feq_fle x y : feq x y = true -> fle x y = true.
Proof.
  destruct x as [a| | |], y as [b| | |]; simpl; try discriminate; auto.
  intros H. apply Qeq_bool_iff in H. apply Qle_bool_iff.
  rewrite H. apply Qle_refl.
Qed.

Lemma flt_false_fle x y :
  isnan x = false -> isnan y = false -> flt x y = false -> fle y x = true.
Proof.
  destruct x as [a| | |], y as [b| | |]; simpl; try discriminate; auto.
  intros _ _ H. apply negb_false_iff in H. exact H.
Qed.

Lemma flt_true_fle x y : flt x y = true -> fle x y = true.
Proof.
  destruct x as [a| | |], y as [b| | |]; simpl; try discriminate; auto.
  intros H. apply negb_true_iff in H. apply Qle_bool_iff.
  destruct (Qlt_le_dec a b) as [L|L]; [apply Qlt_le_weak, L|].
  apply Qle_bool_iff in L. congruence.
Qed.

Lemma fle_trans x y z : fle x y = true -> fle y z = true -> fle x z = true.
Proof.
  destruct x as [a| | |], y as [b| | |], z as [c| | |]; simpl;
    try discriminate; auto.
  intros H1 H2. apply Qle_bool_iff in H1, H2. apply Qle_bool_iff.
  eapply Qle_trans; eassumption.
Qed.

Lemma fle_PInf x : isnan x = false -> fle x PInf = true.
Proof. destruct x; simpl; try discriminate; auto. Qed.

Lemma last_indep {A : Type} (l : list A) (d d' : A) :
  l <> [] -> last l d = last l d'.
Proof.
  induction l as [|x l IH]; intros H; [congruence|].
  destruct l as [|y l]; [reflexivity|].
  change (last (y :: l) d = last (y :: l) d'). apply IH. discriminate.
Qed.

Lemma range_cons a b : a < b -> range a b = a :: range (a + 1) b.
Proof.
  intros H. unfold range.
  replace (Z.to_nat (b - a)) with (S (Z.to_nat (b - (a + 1)))) by lia.
  cbn [seq map]. f_equal; [lia|].
  rewrite <- seq_shift, map_map. apply map_ext. intros i. lia.
Qed.

Lemma range_nil a b : b <= a -> range a b = [].
Proof.
  intros H. unfold range. replace (Z.to_nat (b - a)) with 0%nat by lia.
  reflexivity.
Qed.

(** ** Lemmas on the evaluation of a loader *)

Lemma IoU_init_ok n :
  0 <= n ->
  IoU_init n = Ok (mkIoU n (zeros (Z.to_nat n))) /\
  wf_IoU (mkIoU n (zeros (Z.to_nat n))).
Proof.
  intros H. unfold IoU_init.
  destruct (Z.ltb_spec n 0); [lia|]. split; [reflexivity|].
  split; [exact H | apply zeros_square].
Qed.

Lemma update_all_ok m bs :
  wf_IoU m -> 0 < num_classes m ->
  Forall (well_shaped (num_classes m)) bs ->
  exists m', update_all m bs = Ok m' /\ wf_IoU m' /\
             num_classes m' = num_classes m.
Proof.
  intros Hwf Hpos H. revert m Hwf Hpos H.
  induction bs as [|[y l] bs IH]; intros m Hwf Hpos H; simpl.
  - exists m; auto.
  - inversion H as [|b bs' [Hd Hl] Hrest]; subst. simpl in Hd, Hl.
    destruct (update_ok m y l Hwf Hpos Hd Hl)
      as (pl & H0 & _ & _ & _ & _ & _ & _ & _ & Eu & Hwf1).
    rewrite Eu. cbn [bind].
    destruct (IH _ Hwf1) as [m' [E' [Hwf' En']]].
    + exact Hpos.
    + exact Hrest.
    + exists m'. rewrite En'. auto.
Qed.

(** ** The evaluator and the supervisor *)

Section SupervisorProperties.

Variables tensor params ostate sstate duration : Type.
Variable forward : bool -> params -> tensor -> list (list Q).
Variable criterion : list (list Q) -> list Z -> float.
Variable optimizer_step :
  params -> ostate -> tensor -> list Z -> params * ostate.
Variable scheduler_step : sstate -> ostate -> sstate * ostate.
Variable train_duration : Z -> duration.

Local Abbreviation World := (world tensor params ostate sstate duration).
Local Abbreviation Locals := (locals duration).
Local Abbreviation Batch := (batch tensor).
Local Abbreviation eval_loop' := (eval_loop tensor params forward criterion).
Local Abbreviation evaluate_model' :=
  (evaluate_model tensor params forward criterion).
Local Abbreviation scored' := (scored tensor params forward).
Local Abbreviation batch_loss' := (batch_loss tensor params forward criterion).
Local Abbreviation train_batches' :=
  (train_batches tensor params ostate sstate duration forward criterion
                 optimizer_step scheduler_step).
Local Abbreviation epoch_body' :=
  (epoch_body tensor params ostate sstate duration forward criterion
              optimizer_step scheduler_step train_duration).
Local Abbreviation epoch_loop' :=
  (epoch_loop tensor params ostate sstate duration forward criterion
              optimizer_step scheduler_step train_duration).
Local Abbreviation train_validate_model' :=
  (train_validate_model tensor params ostate sstate duration forward
                        criterion optimizer_step scheduler_step
                        train_duration).

Lemma eval_loop_spec model dataloader :
  forall total m tr m',
    update_all m (scored' model dataloader) = Ok m' ->
    eval_loop' model dataloader total m tr
    = Ok (fold_left fadd (map (batch_loss' model) dataloader) total,
          m', tr ++ eval_trace dataloader).
Proof.
  induction dataloader as [|[x l] dl IH]; intros total m tr m' H; simpl in *.
  - inversion H; subst. rewrite app_nil_r. reflexivity.
  - destruct (update m (forward false model x) l) as [m1|e]; simpl in *;
      [|discriminate].
    rewrite (IH _ _ _ _ H). rewrite <- app_assoc. reflexivity.
Qed.

(** What [evaluate_model] returns on a loader with at least one batch, all
    of them of the shape the metric expects. *)
Lemma evaluate_model_ok model dataloader nc :
  dataloader <> [] -> 0 < nc ->
  Forall (well_shaped nc) (scored' model dataloader) ->
  exists m,
    update_all (mkIoU nc (zeros (Z.to_nat nc))) (scored' model dataloader)
    = Ok m /\
    evaluate_model' model dataloader nc
    = Ok (np_div (fsum (map (batch_loss' model) dataloader))
                 (of_Z (Z.of_nat (length dataloader))),
          compute_from (confusion_matrix m),
          eval_trace dataloader).
Proof.
  intros Hne Hpos Hsh.
  destruct (IoU_init_ok nc) as [Ei Hwf]; [lia|].
  destruct (update_all_ok _ _ Hwf Hpos Hsh) as [m [Em _]].
  exists m. split; [exact Em|].
  unfold evaluate_model. rewrite Ei. cbn [bind].
  rewrite (eval_loop_spec _ _ _ _ _ _ Em). cbn [bind].
  unfold py_truediv.
  destruct (Z.eqb_spec (Z.of_nat (length dataloader)) 0) as [E|E].
  - destruct dataloader; [congruence | simpl in E; lia].
  - reflexivity.
Qed.

(** *** One turn of the epoch loop *)

Lemma epoch_body_unfold dl dv nc es ep (w : World) (l : Locals)
  w1 total train_loss v metric tr :
  train_batches' w dl (Fin 0) = (w1, total) ->
  py_truediv total (Z.of_nat (length dl)) = Ok train_loss ->
  evaluate_model' (w_model w1) dv nc = Ok (v, metric, tr) ->
  let r := record_of train_duration ep train_loss v metric in
  epoch_body' dl dv nc es ep w l
  = Ok (if fle v (min_val_loss l) then
          (mkWorld (w_model w1) (w_optimizer w1) (w_lr_scheduler w1)
                   (Some (last_checkpoint w1 l r))
                   (Some (best_checkpoint w1 l r))
                   ((w_trace w1 ++ tr ++ [EvSaveLast ep]) ++ [EvSaveBest ep]),
           mkLocals (results l ++ [r]) v ep, false)
        else
          (mkWorld (w_model w1) (w_optimizer w1) (w_lr_scheduler w1)
                   (Some (last_checkpoint w1 l r)) (w_best w1)
                   (w_trace w1 ++ tr ++ [EvSaveLast ep]),
           mkLocals (results l ++ [r]) (min_val_loss l) (best_epoch l),
           negb (es =? -1) && (es <? ep - best_epoch l))).
Proof.
  intros Et Ed Ee r. unfold epoch_body. rewrite Et, Ed. cbn [bind].
  rewrite Ee. cbn [bind]. destruct (fle v (min_val_loss l)); reflexivity.
Qed.

Lemma epoch_body_inv dl dv nc es ep (w : World) (l : Locals) w' l' stop :
  epoch_body' dl dv nc es ep w l = Ok (w', l', stop) ->
  exists w1 total train_loss v metric tr,
    train_batches' w dl (Fin 0) = (w1, total) /\
    py_truediv total (Z.of_nat (length dl)) = Ok train_loss /\
    evaluate_model' (w_model w1) dv nc = Ok (v, metric, tr).
Proof.
  unfold epoch_body.
  destruct (train_batches' w dl (Fin 0)) as [w1 total] eqn:Et.
  destruct (py_truediv total (Z.of_nat (length dl))) as [tl|e] eqn:Ed;
    cbn [bind]; [|discriminate].
  destruct (evaluate_model' (w_model w1) dv nc) as [[[v metric] tr]|e] eqn:Ee;
    cbn [bind]; [|discriminate].
  intros _. exists w1, total, tl, v, metric, tr. auto.
Qed.

Lemma train_batches_files dl : forall (w : World) total,
  w_last (fst (train_batches' w dl total)) = w_last w /\
  w_best (fst (train_batches' w dl total)) = w_best w.
Proof.
  induction dl as [|[x lab] dl IH]; intros w total; simpl; auto.
  destruct (optimizer_step (w_model w) (w_optimizer w) x lab) as [m' o'].
  destruct (w_lr_scheduler w) as [s|].
  - destruct (scheduler_step s o') as [s' o''].
    match goal with |- context [train_batches' ?w2 dl ?t] =>
      destruct (IH w2 t) as [H1 H2] end.
    rewrite H1, H2. auto.
  - match goal with |- context [train_batches' ?w2 dl ?t] =>
      destruct (IH w2 t) as [H1 H2] end.
    rewrite H1, H2. auto.
Qed.

Lemma epoch_body_ok dl dv nc es ep (w : World) (l : Locals) :
  loaders_ok tensor params forward dl dv nc ->
  exists w' l' stop r,
    epoch_body' dl dv nc es ep w l = Ok (w', l', stop) /\
    results l' = results l ++ [r] /\ epoch r = ep /\
    exists ck, w_last w' = Some ck /\ ck_results ck = results l' /\
               ck_epoch ck = ep.
Proof.
  intros [Hdl [Hdv [Hpos Hsh]]].
  destruct (train_batches' w dl (Fin 0)) as [w1 total] eqn:Et.
  assert (Ed : py_truediv total (Z.of_nat (length dl))
               = Ok (np_div total (of_Z (Z.of_nat (length dl))))).
  { unfold py_truediv.
    destruct (Z.eqb_spec (Z.of_nat (length dl)) 0) as [E|E]; [|reflexivity].
    destruct dl; [congruence | simpl in E; lia]. }
  destruct (evaluate_model_ok (w_model w1) dv nc Hdv Hpos (Hsh _))
    as [m [_ Ee]].
  pose proof (epoch_body_unfold dl dv nc es ep w l _ _ _ _ _ _ Et Ed Ee) as E.
  cbv zeta in E. rewrite E.
  destruct (fle _ (min_val_loss l));
    do 4 eexists; (split; [reflexivity|]); simpl;
    (split; [reflexivity|]); (split; [reflexivity|]);
    eexists; (split; [reflexivity|]); simpl; auto.
Qed.

Lemma epoch_loop_ok dl dv nc es epochs :
  loaders_ok tensor params forward dl dv nc ->
  forall (w : World) (l : Locals),
  exists w' l' new,
    epoch_loop' dl dv nc es epochs w l = Ok (w', l') /\
    results l' = results l ++ new /\
    (epochs <> [] ->
     new <> [] /\
     exists ck, w_last w' = Some ck /\ ck_results ck = results l').
Proof.
  intros Hok. induction epochs as [|ep rest IH]; intros w l.
  - exists w, l, []. simpl. rewrite app_nil_r. split; [reflexivity|].
    split; [reflexivity | congruence].
  - destruct (epoch_body_ok dl dv nc es ep w l Hok)
      as [w1 [l1 [stop [r [Eb [Hr [_ [ck [Hck [Hres _]]]]]]]]]].
    cbn [epoch_loop]. rewrite Eb. cbn [bind].
    destruct stop.
    + exists w1, l1, [r]. split; [reflexivity|]. split; [exact Hr|].
      intros _. split; [discriminate|]. exists ck; auto.
    + destruct (IH w1 l1) as [w2 [l2 [new [El [Hn Hlast]]]]].
      exists w2, l2, (r :: new). split; [exact El|].
      split; [rewrite Hn, Hr, <- app_assoc; reflexivity|].
      intros _. split; [discriminate|].
      destruct rest as [|ep' rest'].
      * simpl in El. inversion El; subst. exists ck; auto.
      * destruct Hlast as [_ Hl]; [discriminate | exact Hl].
Qed.

(** *** The start-up *)

Lemma py_min_from_In (best : EpochRecord duration) rest :
  In (py_min_from best rest) (best :: rest).
Proof.
  revert best. induction rest as [|r rest IH]; intros best; simpl; auto.
  destruct (flt (validationLoss r) (validationLoss best)).
  - right. apply IH.
  - destruct (IH best) as [H|H]; simpl; auto.
Qed.

Lemma py_min_from_le (best : EpochRecord duration) rest :
  Forall (fun r => isnan (validationLoss r) = false) (best :: rest) ->
  Forall (fun r => fle (validationLoss (py_min_from best rest))
                       (validationLoss r) = true) (best :: rest).
Proof.
  revert best. induction rest as [|r rest IH]; intros best H.
  - constructor; [|constructor]. simpl.
    inversion H; subst. destruct (validationLoss best); simpl in *;
      try discriminate; auto. apply Qle_bool_iff, Qle_refl.
  - inversion H as [|? ? Hb Hrest]; subst.
    inversion Hrest as [|? ? Hr Hrest']; subst.
    simpl. destruct (flt (validationLoss r) (validationLoss best)) eqn:E.
    + assert (IH' := IH r Hrest). inversion IH' as [|? ? Hmr Hmrest]; subst.
      constructor; [|constructor; assumption].
      eapply fle_trans; [exact Hmr | apply flt_true_fle, E].
    + assert (IH' := IH best (Forall_cons _ Hb Hrest')).
      inversion IH' as [|? ? Hmb Hmrest]; subst.
      constructor; [assumption|]. constructor; [|assumption].
      eapply fle_trans; [exact Hmb | apply flt_false_fle; assumption].
Qed.

(** The world after a successful load of the checkpoint [ck]. *)
Lemma load_last_some (w : World) ck best :
  (w_lr_scheduler w <> None -> ck_lr_scheduler ck <> None) ->
  load_last w (Folder (Some ck) best)
  = Ok (mkWorld (ck_model ck) (ck_optimizer ck)
                (match w_lr_scheduler w with
                 | None => None
                 | Some _ => ck_lr_scheduler ck
                 end)
                (Some ck) best (w_trace w ++ [EvLoad]),
        ck_results ck).
Proof.
  intros H. unfold load_last.
  destruct (w_lr_scheduler w) as [s|]; [|reflexivity].
  destruct (ck_lr_scheduler ck) as [s'|]; [reflexivity|].
  exfalso. apply H; [discriminate | reflexivity].
Qed.

Lemma resume_point_nonempty (res : list (EpochRecord duration)) num_epochs d :
  res <> [] ->
  exists m,
    In m res /\
    resume_point res num_epochs
    = (epoch (last res d) + 1,
       mkLocals res (validationLoss m) (epoch m),
       epoch (last res d) + 1 >=? num_epochs) /\
    (Forall (fun r => isnan (validationLoss r) = false) res ->
     Forall (fun r => fle (validationLoss m) (validationLoss r) = true) res).
Proof.
  intros H. destruct res as [|first rest]; [congruence|].
  exists (py_min_from first rest). split; [apply py_min_from_In|].
  split; [|apply py_min_from_le].
  unfold resume_point. rewrite (last_indep _ first d H). reflexivity.
Qed.

(** The run that finds the configured number of epochs already trained. *)
Lemma short_circuit_run (w : World) ck best num_epochs dl dv nc es d :
  ck_results ck <> [] ->
  (w_lr_scheduler w <> None -> ck_lr_scheduler ck <> None) ->
  num_epochs <= epoch (last (ck_results ck) d) + 1 ->
  train_validate_model' w (Folder (Some ck) best) num_epochs dl dv nc es
  = Ok (None,
        mkWorld (ck_model ck) (ck_optimizer ck)
                (match w_lr_scheduler w with
                 | None => None
                 | Some _ => ck_lr_scheduler ck
                 end)
                (Some ck) best (w_trace w ++ [EvLoad])).
Proof.
  intros Hne Hs Hle. unfold train_validate_model.
  rewrite (load_last_some w ck best Hs). cbn [bind].
  destruct (resume_point_nonempty _ num_epochs d Hne) as [m [_ [E _]]].
  rewrite E.
  destruct (Z.geb_spec (epoch (last (ck_results ck) d) + 1) num_epochs);
    [reflexivity | lia].
Qed.

Lemma training_steps_app (a b : list (event tensor)) :
  training_steps (a ++ b) = (training_steps a + training_steps b)%nat.
Proof. unfold training_steps. rewrite filter_app, length_app. reflexivity. Qed.

Lemma saves_last_app (a b : list (event tensor)) :
  saves_last (a ++ b) = saves_last a ++ saves_last b.
Proof. unfold saves_last. apply flat_map_app. Qed.

Lemma saves_best_app (a b : list (event tensor)) :
  saves_best (a ++ b) = saves_best a ++ saves_best b.
Proof. unfold saves_best. apply flat_map_app. Qed.

(** C3: when a "last" checkpoint is loaded and its last recorded epoch
    plus one reaches the configured number of epochs, the function returns
    normally (with [None]) right after the load: the trace gains the load
    and nothing else, so no training step and no checkpoint write happens,
    and both files are as they were. *)
Theorem resume_short_circuit (w : World) ck best num_epochs dl dv nc es d :
  ck_results ck <> [] ->
  (w_lr_scheduler w <> None -> ck_lr_scheduler ck <> None) ->
  num_epochs <= epoch (last (ck_results ck) d) + 1 ->
  exists w0,
    train_validate_model' w (Folder (Some ck) best) num_epochs dl dv nc es
    = Ok (None, w0) /\
    w_trace w0 = w_trace w ++ [EvLoad] /\
    training_steps (w_trace w0) = training_steps (w_trace w) /\
    saves_last (w_trace w0) = saves_last (w_trace w) /\
    saves_best (w_trace w0) = saves_best (w_trace w) /\
    w_last w0 = Some ck /\ w_best w0 = best.
Proof.
  intros Hne Hs Hle. eexists. split.
  - apply (short_circuit_run w ck best num_epochs dl dv nc es d Hne Hs Hle).
  - cbn [w_trace w_last w_best].
    rewrite training_steps_app, saves_last_app, saves_best_app. simpl.
    rewrite Nat.add_0_r, !app_nil_r. repeat split; reflexivity.
Qed.

(** The start-up of lines 269-293.  With a "last" checkpoint it restores
    the model, the optimizer and, when one is configured, the scheduler
    from it, takes its records, starts at its last recorded epoch plus
    one, and takes as minimum validation loss and best epoch those of one
    restored record, whose loss is below or equal to every restored loss
    when every restored loss is a number; without a checkpoint it keeps
    the objects and starts at epoch 0 with minimum [+inf], best epoch
    [-1] and no record. *)
Lemma resume_protocol (w : World) ck best num_epochs d :
  ck_results ck <> [] ->
  (w_lr_scheduler w <> None -> ck_lr_scheduler ck <> None) ->
  (exists w0 m,
     load_last w (Folder (Some ck) best) = Ok (w0, ck_results ck) /\
     w_model w0 = ck_model ck /\
     w_optimizer w0 = ck_optimizer ck /\
     w_lr_scheduler w0 = match w_lr_scheduler w with
                         | None => None
                         | Some _ => ck_lr_scheduler ck
                         end /\
     In m (ck_results ck) /\
     resume_point (ck_results ck) num_epochs
     = (epoch (last (ck_results ck) d) + 1,
        mkLocals (ck_results ck) (validationLoss m) (epoch m),
        epoch (last (ck_results ck) d) + 1 >=? num_epochs) /\
     (Forall (fun r => isnan (validationLoss r) = false) (ck_results ck) ->
      Forall (fun r => fle (validationLoss m) (validationLoss r) = true)
             (ck_results ck))) /\
  (forall dir, dir = NoFolder \/ dir = Folder None best ->
     exists w0,
       load_last w dir = Ok (w0, []) /\
       w_model w0 = w_model w /\ w_optimizer w0 = w_optimizer w /\
       w_lr_scheduler w0 = w_lr_scheduler w /\
       w_last w0 = None /\
       resume_point (duration := duration) [] num_epochs
       = (0, mkLocals [] PInf (-1), false)).
Proof.
  intros Hne Hs. split.
  - destruct (resume_point_nonempty _ num_epochs d Hne) as [m [Hin [E Hmin]]].
    eexists. exists m. split; [apply (load_last_some w ck best Hs)|].
    cbn [w_model w_optimizer w_lr_scheduler]. auto 10.
  - intros dir [-> | ->]; eexists; (split; [reflexivity|]); simpl; auto 10.
Qed.

(** *** The epoch loop *)

(** C1: in a turn of the epoch loop whose mean validation loss [v] is
    below or equal to the minimum seen so far (a tie included), the loop
    goes on, the minimum becomes [v], the best epoch becomes the current
    epoch, and the "best" file is rewritten with the model, optimizer and
    scheduler as they are after this epoch's training, the new minimum, the
    records up to this epoch and the current epoch index. *)
Theorem improvement_writes_best dl dv nc es ep (w : World) (l : Locals)
  w1 total train_loss v metric tr :
  train_batches' w dl (Fin 0) = (w1, total) ->
  py_truediv total (Z.of_nat (length dl)) = Ok train_loss ->
  evaluate_model' (w_model w1) dv nc = Ok (v, metric, tr) ->
  fle v (min_val_loss l) = true ->
  exists w' l' ck,
    epoch_body' dl dv nc es ep w l = Ok (w', l', false) /\
    min_val_loss l' = v /\
    best_epoch l' = ep /\
    results l'
    = results l ++ [record_of train_duration ep train_loss v metric] /\
    w_best w' = Some ck /\
    ck_model ck = w_model w1 /\
    ck_optimizer ck = w_optimizer w1 /\
    ck_lr_scheduler ck = w_lr_scheduler w1 /\
    ck_min_val_loss ck = v /\
    ck_results ck = results l' /\
    ck_epoch ck = ep /\
    saves_best (w_trace w') = saves_best (w_trace w1 ++ tr) ++ [ep].
Proof.
  intros Et Ed Ee Hle.
  pose proof (epoch_body_unfold dl dv nc es ep w l _ _ _ _ _ _ Et Ed Ee) as E.
  cbv zeta in E. rewrite Hle in E.
  do 3 eexists. split; [exact E|]. cbn.
  repeat split; try reflexivity.
  unfold saves_best. rewrite !flat_map_app. simpl.
  rewrite !app_nil_r. reflexivity.
Qed.

(** The early-stopping rule of one turn of the loop. *)
Lemma early_stop_step dl dv nc es ep (w : World) (l : Locals) w' l' stop :
  epoch_body' dl dv nc es ep w l = Ok (w', l', stop) ->
  exists r,
    results l' = results l ++ [r] /\
    stop = negb (fle (validationLoss r) (min_val_loss l))
           && negb (es =? -1) && (es <? ep - best_epoch l) /\
    forall rest,
      epoch_loop' dl dv nc es (ep :: rest) w l
      = if stop then Ok (w', l') else epoch_loop' dl dv nc es rest w' l'.
Proof.
  intros H.
  destruct (epoch_body_inv _ _ _ _ _ _ _ _ _ _ H)
    as [w1 [total [tl [v [metric [tr [Et [Ed Ee]]]]]]]].
  pose proof (epoch_body_unfold dl dv nc es ep w l _ _ _ _ _ _ Et Ed Ee) as E.
  cbv zeta in E. rewrite H in E.
  exists (record_of train_duration ep tl v metric). cbn [record_of validationLoss].
  destruct (fle v (min_val_loss l)); inversion E; subst; cbn [results].
  - split; [reflexivity|]. split; [reflexivity|].
    intros rest. cbn [epoch_loop]. rewrite H. reflexivity.
  - split; [reflexivity|]. split; [reflexivity|].
    intros rest. cbn [epoch_loop]. rewrite H. cbn [bind].
    destruct (negb (es =? -1) && (es <? ep - best_epoch l)); reflexivity.
Qed.

(** C9: on a loader with at least one batch, all of them of the shape the
    metric expects, [evaluate_model] runs one forward pass per batch, in
    order, in inference mode and without gradient tracking, and returns
    the sum of the per-batch losses divided by the number of batches,
    with the snapshot of a metric object created afresh and updated once
    per batch. *)
Theorem evaluate_model_mean_over_batches model (dataloader : list Batch) nc :
  dataloader <> [] ->
  0 < nc ->
  Forall (well_shaped nc) (scored' model dataloader) ->
  exists fresh m,
    IoU_init nc = Ok fresh /\
    confusion_matrix fresh = zeros (Z.to_nat nc) /\
    update_all fresh (scored' model dataloader) = Ok m /\
    evaluate_model' model dataloader nc
    = Ok (np_div (fsum (map (batch_loss' model) dataloader))
                 (of_Z (Z.of_nat (length dataloader))),
          compute_from (confusion_matrix m),
          map (fun b => EvForward false false (fst b)) dataloader).
Proof.
  intros Hne Hpos Hsh.
  destruct (IoU_init_ok nc) as [Ei _]; [lia|].
  destruct (evaluate_model_ok model dataloader nc Hne Hpos Hsh) as [m [Em Ee]].
  exists (mkIoU nc (zeros (Z.to_nat nc))), m. auto.
Qed.

(** C10, amended: with loaders no turn of the loop can raise on, the call has
    three outcomes.  When the restored records already reach the number
    of epochs it returns [None] and not the records.  When there is no
    restored record and no epoch to run, the loop ends at once with no
    record, and plotting the empty frame raises [KeyError]: nothing is
    returned.  In every other case at least one epoch runs and the call
    returns the records, the restored ones followed by one or more new
    ones, the sequence the "last" file holds at the end.  Whatever the
    loaders are, a loop that ends, by exhaustion or by early stopping,
    is followed by the return of all its records when there is at least
    one, and by the [KeyError] when there is none. *)
Theorem train_validate_model_result (w : World) dir w0 res num_epochs
  dl dv nc es d :
  loaders_ok tensor params forward dl dv nc ->
  load_last w dir = Ok (w0, res) ->
  (res <> [] /\ num_epochs <= epoch (last res d) + 1 ->
   train_validate_model' w dir num_epochs dl dv nc es = Ok (None, w0)) /\
  (res = [] /\ num_epochs <= 0 ->
   train_validate_model' w dir num_epochs dl dv nc es = Raise KeyError) /\
  ((res = [] /\ 0 < num_epochs) \/
   (res <> [] /\ epoch (last res d) + 1 < num_epochs) ->
   exists new w' ck,
     new <> [] /\
     train_validate_model' w dir num_epochs dl dv nc es
     = Ok (Some (res ++ new), w') /\
     w_last w' = Some ck /\ ck_results ck = res ++ new) /\
  (forall dl' dv' nc' start l0 w' l',
     resume_point res num_epochs = (start, l0, false) ->
     epoch_loop' dl' dv' nc' es (range start num_epochs) w0 l0
     = Ok (w', l') ->
     train_validate_model' w dir num_epochs dl' dv' nc' es
     = match results l' with
       | [] => Raise KeyError
       | _ => Ok (Some (results l'), w')
       end).
Proof.
  intros Hok Hload. unfold train_validate_model.
  rewrite Hload. cbn [bind]. split; [|split; [|split]].
  4:{ intros dl' dv' nc' start l0 w' l' E El. rewrite E, El. cbn [bind].
      destruct (results l'); reflexivity. }
  - intros [Hne Hle].
    destruct (resume_point_nonempty res num_epochs d Hne) as [m [_ [E _]]].
    rewrite E.
    destruct (Z.geb_spec (epoch (last res d) + 1) num_epochs);
      [reflexivity | lia].
  - intros [-> Hle]. cbn [resume_point].
    rewrite range_nil by lia. reflexivity.
  - intros Hcase.
    assert (E : exists start l0,
               resume_point res num_epochs = (start, l0, false) /\
               results l0 = res /\ start < num_epochs).
    { destruct res as [|first rest] eqn:Eres.
      - destruct Hcase as [[_ Hpos]|[Hc _]]; [|congruence].
        exists 0, (mkLocals [] PInf (-1)). auto.
      - destruct Hcase as [[Hc _]|[_ Hc]]; [discriminate|].
        destruct (resume_point_nonempty (first :: rest) num_epochs d)
          as [m [_ [E _]]]; [discriminate|].
        do 2 eexists. rewrite E.
        destruct (Z.geb_spec (epoch (last (first :: rest) d) + 1) num_epochs);
          [lia|]. auto. }
    destruct E as [start [l0 [E [Hres Hlt]]]]. rewrite E.
    destruct (epoch_loop_ok dl dv nc es (range start num_epochs) Hok w0 l0)
      as [w' [l' [new [El [Hn Hlast]]]]].
    rewrite El. cbn [bind].
    destruct Hlast as [Hnew [ck [Hck Hckr]]].
    { rewrite (range_cons _ _ Hlt). discriminate. }
    rewrite Hres in Hn.
    exists new, w', ck. split; [exact Hnew|].
    rewrite Hn. split; [|split; [exact Hck | rewrite Hckr; exact Hn]].
    destruct (res ++ new) eqn:Eapp; [|reflexivity].
    apply app_eq_nil in Eapp. destruct Eapp; congruence.
Qed.

(** Every "last" checkpoint the loop writes holds at least one record, the
    last of them for the epoch of the write. *)
Lemma written_checkpoint_has_records dl dv nc es ep (w : World) (l : Locals)
  w' l' stop d :
  epoch_body' dl dv nc es ep w l = Ok (w', l', stop) ->
  exists ck,
    w_last w' = Some ck /\ ck_results ck <> [] /\
    epoch (last (ck_results ck) d) = ep /\ ck_epoch ck = ep.
Proof.
  intros H.
  destruct (epoch_body_inv _ _ _ _ _ _ _ _ _ _ H)
    as [w1 [total [tl [v [metric [tr [Et [Ed Ee]]]]]]]].
  pose proof (epoch_body_unfold dl dv nc es ep w l _ _ _ _ _ _ Et Ed Ee) as E.
  cbv zeta in E. rewrite H in E.
  destruct (fle v (min_val_loss l)); inversion E; subst;
    eexists; (split; [reflexivity|]); cbn [last_checkpoint ck_results ck_epoch];
    rewrite last_last; (split; [|split; reflexivity]);
    intros C; apply app_eq_nil in C; destruct C; discriminate.
Qed.

End SupervisorProperties.

(** ** The statements at the instances *)

Example fast_hist_example :
  _fast_hist (mkIoU 2 (zeros 2)) [0; 1; 1; 5; -1] [0; 0; 1; 1; 0]
  = Ok [[1; 0]; [1; 1]].
Proof. reflexivity. Qed.

Example update_example :
  update (mkIoU 2 [[1; 0]; [1; 1]]) [[1#2; 1#3]; [0; 1]]%Q [0; 1]
  = Ok (mkIoU 2 [[2; 0]; [1; 2]]).
Proof. reflexivity. Qed.

(** A class dimension larger than [num_classes]: the flat index of a pixel
    of the last class leaves the matrix and [reshape] raises. *)
Example update_wide_predictions :
  update (mkIoU 2 (zeros 2)) [[0; 0; 1]]%Q [1] = Raise ValueError.
Proof. reflexivity. Qed.

(** Two batches of 3 pixels and 1 pixel with losses 3 and 1: the mean is
    (3 + 1) / 2, not the per-sample mean. *)
Example evaluate_model_unequal_batches :
  evaluate_model nat unit px_forward px_criterion tt px_loader 2
  = Ok (Fin 2, compute_from [[3; 0]; [1; 0]],
        [EvForward false false 3%nat; EvForward false false 1%nat]).
Proof. vm_compute. reflexivity. Qed.

(** A loader without batches: the division by the number of batches
    raises. *)
Example evaluate_model_empty_loader :
  evaluate_model nat unit px_forward px_criterion tt [] 2
  = Raise ZeroDivisionError.
Proof. reflexivity. Qed.

(** A fresh run with no epoch to train has no record to plot. *)
Example fresh_run_without_epochs :
  toy_run table_tie NoFolder 0 (-1) = Raise KeyError.
Proof. reflexivity. Qed.

(** Two epochs with the same validation loss: "best" is written at both,
    and holds the parameters of the later one. *)
Example tie_rewrites_best :
  exists rs w,
    toy_run table_tie NoFolder 2 (-1) = Ok (Some rs, w) /\
    map validationLoss rs = [Fin (1#2); Fin (1#2)] /\
    saves_best (w_trace w) = [0; 1] /\
    option_map ck_epoch (w_best w) = Some 1 /\
    option_map ck_model (w_best w) = Some 2%nat.
Proof.
  do 2 eexists. split; [vm_compute; reflexivity|]. repeat split; reflexivity.
Qed.

Lemma evaluate_model_mean_over_batches_witness :
  exists fresh m,
    IoU_init 2 = Ok fresh /\
    confusion_matrix fresh = zeros (Z.to_nat 2) /\
    update_all fresh (scored nat unit px_forward tt px_loader) = Ok m /\
    evaluate_model nat unit px_forward px_criterion tt px_loader 2
    = Ok (np_div (fsum (map (batch_loss nat unit px_forward px_criterion tt)
                            px_loader))
                 (of_Z (Z.of_nat (length px_loader))),
          compute_from (confusion_matrix m),
          map (fun b => EvForward false false (fst b)) px_loader).
Proof.
  apply (evaluate_model_mean_over_batches
           nat unit px_forward px_criterion tt px_loader 2).
  - discriminate.
  - lia.
  - repeat constructor.
Defined.

Lemma toy_loaders_ok table :
  loaders_ok unit nat (toy_forward table) toy_loader toy_loader 1.
Proof.
  split; [discriminate|]. split; [discriminate|]. split; [lia|].
  intros model. repeat constructor.
Defined.

Lemma improvement_writes_best_witness :
  let w1 := mkWorld (tensor := unit) (sstate := unit) (duration := unit)
                    2%nat tt None None None
                    [EvForward true true tt; EvOptimizerStep] in
  exists w' l' ck,
    toy_epoch_body table_tie (-1) 1
      (mkWorld 1%nat tt None None None []) (mkLocals [toy_record0] (Fin (1#2)) 0)
    = Ok (w', l', false) /\
    min_val_loss l' = Fin (1#2) /\
    best_epoch l' = 1 /\
    results l'
    = [toy_record0] ++ [record_of toy_duration 1 (Fin (1#2)) (Fin (1#2))
                                  (compute_from [[1]])] /\
    w_best w' = Some ck /\
    ck_model ck = w_model w1 /\
    ck_optimizer ck = w_optimizer w1 /\
    ck_lr_scheduler ck = w_lr_scheduler w1 /\
    ck_min_val_loss ck = Fin (1#2) /\
    ck_results ck = results l' /\
    ck_epoch ck = 1 /\
    saves_best (w_trace w') = saves_best (w_trace w1 ++ [EvForward false false tt]) ++ [1].
Proof.
  apply (improvement_writes_best unit nat unit unit unit
           (toy_forward table_tie) toy_criterion toy_optimizer_step
           toy_scheduler_step toy_duration toy_loader toy_loader 1 (-1) 1
           (mkWorld 1%nat tt None None None [])
           (mkLocals [toy_record0] (Fin (1#2)) 0)
           (mkWorld 2%nat tt None None None
                    [EvForward true true tt; EvOptimizerStep])
           (Fin (1#2)) (Fin (1#2)) (Fin (1#2)) (compute_from [[1]])
           [EvForward false false tt]);
    reflexivity.
Defined.

Lemma resume_short_circuit_witness :
  exists w0,
    toy_run table_tie (Folder (Some toy_checkpoint0) None) 1 (-1)
    = Ok (None, w0) /\
    w_trace w0 = w_trace toy_world ++ [EvLoad] /\
    training_steps (w_trace w0) = training_steps (w_trace toy_world) /\
    saves_last (w_trace w0) = saves_last (w_trace toy_world) /\
    saves_best (w_trace w0) = saves_best (w_trace toy_world) /\
    w_last w0 = Some toy_checkpoint0 /\ w_best w0 = None.
Proof.
  apply (resume_short_circuit unit nat unit unit unit
           (toy_forward table_tie) toy_criterion toy_optimizer_step
           toy_scheduler_step toy_duration toy_world toy_checkpoint0 None 1
           toy_loader toy_loader 1 (-1) toy_record0).
  - discriminate.
  - intros H. exfalso. apply H. reflexivity.
  - simpl. lia.
Defined.

(** A fresh run with no epoch to run takes the loop-exit path, not the
    short circuit: the loop ends by exhaustion, and no record is
    returned. *)
Lemma loop_exit_without_record_counterexample :
  load_last toy_world NoFolder = Ok (toy_world, []) /\
  resume_point (duration := unit) [] 0 = (0, mkLocals [] PInf (-1), false) /\
  range 0 0 = [] /\
  toy_run table_tie NoFolder 0 (-1) = Raise KeyError.
Proof. repeat split; reflexivity. Qed.

Lemma train_validate_model_result_witness :
  toy_run table_tie (Folder (Some toy_checkpoint0) None) 1 (-1)
  = Ok (None, mkWorld 1%nat tt None (Some toy_checkpoint0) None [EvLoad]) /\
  toy_run table_tie NoFolder 0 (-1) = Raise KeyError /\
  exists new w' ck,
    new <> [] /\
    toy_run table_tie NoFolder 2 (-1) = Ok (Some ([] ++ new), w') /\
    w_last w' = Some ck /\ ck_results ck = [] ++ new.
Proof.
  split; [|split].
  - apply (train_validate_model_result unit nat unit unit unit
             (toy_forward table_tie) toy_criterion toy_optimizer_step
             toy_scheduler_step toy_duration toy_world
             (Folder (Some toy_checkpoint0) None)
             (mkWorld 1%nat tt None (Some toy_checkpoint0) None [EvLoad])
             [toy_record0] 1 toy_loader toy_loader 1 (-1) toy_record0).
    + apply toy_loaders_ok.
    + reflexivity.
    + split; [discriminate | simpl; lia].
  - apply (train_validate_model_result unit nat unit unit unit
             (toy_forward table_tie) toy_criterion toy_optimizer_step
             toy_scheduler_step toy_duration toy_world NoFolder toy_world []
             0 toy_loader toy_loader 1 (-1) toy_record0).
    + apply toy_loaders_ok.
    + reflexivity.
    + split; [reflexivity | lia].
  - apply (train_validate_model_result unit nat unit unit unit
             (toy_forward table_tie) toy_criterion toy_optimizer_step
             toy_scheduler_step toy_duration toy_world NoFolder toy_world []
             2 toy_loader toy_loader 1 (-1) toy_record0).
    + apply toy_loaders_ok.
    + reflexivity.
    + left. split; [reflexivity | lia].
Defined.

(** ** Early stopping *)

(** The claim C2 fails on the code in two places.  A patience of [-2] is
    negative, yet the run stops after epoch 1, its first epoch without
    improvement, where the run with the sentinel [-1] trains all five
    epochs; and in the run of the example (patience 2, losses 0.5, 0.4,
    0.45, 0.46, 0.47) the "best" file is written twice, at the epochs 0
    and 1, not once. *)
Lemma early_stopping_nonnegative_counterexample :
  early_stopping_enabled_spec (-2) = false /\
  (exists rs w,
     toy_run table_sentinel NoFolder 5 (-2) = Ok (Some rs, w) /\
     map validationLoss rs = [Fin (1#2); Fin (3#5)] /\
     map epoch rs = [0; 1]) /\
  (exists rs w,
     toy_run table_sentinel NoFolder 5 (-1) = Ok (Some rs, w) /\
     map epoch rs = [0; 1; 2; 3; 4]) /\
  (exists rs w,
     toy_run table_patience NoFolder 8 2 = Ok (Some rs, w) /\
     map validationLoss rs
     = [Fin (1#2); Fin (2#5); Fin (9#20); Fin (23#50); Fin (47#100)] /\
     saves_best (w_trace w) = [0; 1] /\
     length (saves_best (w_trace w)) <> 1%nat).
Proof.
  split; [reflexivity|]. split; [|split].
  - do 2 eexists. split; [vm_compute; reflexivity|]. split; reflexivity.
  - do 2 eexists. split; [vm_compute; reflexivity|]. reflexivity.
  - do 2 eexists. split; [vm_compute; reflexivity|].
    split; [reflexivity|]. split; [reflexivity|]. discriminate.
Qed.

(** C2, amended: early stopping is enabled exactly when the patience
    value differs from [-1]: a turn of the loop breaks exactly when its
    validation loss is no improvement, the patience is not [-1] and the
    current epoch minus the best epoch exceeds the patience, and then no
    later epoch is executed.  With patience 2 and the validation losses
    0.5, 0.4, 0.45, 0.46, 0.47 for the epochs 0 to 4, of 8 configured
    epochs only these five are trained; "last" is written five times and
    "best" twice, at the epochs 0 and 1, and at the end "best" holds the
    state of epoch 1. *)
Theorem early_stopping_sentinel_rule :
  (forall tensor params ostate sstate duration forward criterion
          optimizer_step scheduler_step train_duration
          dl dv nc es ep w l w' l' stop,
     epoch_body tensor params ostate sstate duration forward criterion
                optimizer_step scheduler_step train_duration
                dl dv nc es ep w l = Ok (w', l', stop) ->
     exists r,
       results l' = results l ++ [r] /\
       stop = negb (fle (validationLoss r) (min_val_loss l))
              && negb (es =? -1) && (es <? ep - best_epoch l) /\
       forall rest,
         epoch_loop tensor params ostate sstate duration forward criterion
                    optimizer_step scheduler_step train_duration
                    dl dv nc es (ep :: rest) w l
         = if stop then Ok (w', l')
           else epoch_loop tensor params ostate sstate duration forward
                           criterion optimizer_step scheduler_step
                           train_duration dl dv nc es rest w' l') /\
  (exists rs w,
     toy_run table_patience NoFolder 8 2 = Ok (Some rs, w) /\
     map validationLoss rs
     = [Fin (1#2); Fin (2#5); Fin (9#20); Fin (23#50); Fin (47#100)] /\
     map epoch rs = [0; 1; 2; 3; 4] /\
     training_steps (w_trace w) = 10%nat /\
     saves_last (w_trace w) = [0; 1; 2; 3; 4] /\
     saves_best (w_trace w) = [0; 1] /\
     option_map ck_epoch (w_best w) = Some 1 /\
     option_map ck_model (w_best w) = Some 2%nat /\
     option_map ck_epoch (w_last w) = Some 4).
Proof.
  split.
  - intros. eapply early_stop_step. eassumption.
  - do 2 eexists. split; [vm_compute; reflexivity|].
    repeat split; reflexivity.
Qed.

Lemma early_stopping_sentinel_rule_witness :
  let r4 := mkRecord 4 (Fin (23#50)) (Fin (47#100)) (compute_from [[1]]) tt in
  let l := mkLocals (duration := unit) [] (Fin (2#5)) 1 in
  let w := mkWorld (tensor := unit) (sstate := unit) (duration := unit)
                   4%nat tt None None None [] in
  let w' := mkWorld 5%nat tt None
              (Some (mkCheckpoint 5%nat (Some 5%nat) tt (Some tt) None
                                  (Fin (2#5)) [r4] 4))
              None
              [EvForward true true tt; EvOptimizerStep;
               EvForward false false tt; EvSaveLast 4] in
  let l' := mkLocals [r4] (Fin (2#5)) 1 in
  exists r,
    results l' = results l ++ [r] /\
    true = negb (fle (validationLoss r) (min_val_loss l))
           && negb (2 =? -1) && (2 <? 4 - best_epoch l) /\
    forall rest,
      epoch_loop unit nat unit unit unit (toy_forward table_patience)
                 toy_criterion toy_optimizer_step toy_scheduler_step
                 toy_duration toy_loader toy_loader 1 2 (4 :: rest) w l
      = Ok (w', l').
Proof.
  intros r4 l w w' l'.
  apply (proj1 early_stopping_sentinel_rule unit nat unit unit unit
           (toy_forward table_patience) toy_criterion toy_optimizer_step
           toy_scheduler_step toy_duration toy_loader toy_loader 1 2 4
           w l w' l' true).
  reflexivity.
Defined.

(** ** The minimum restored on a resume *)

Lemma py_min_from_nan {duration : Type} (best : EpochRecord duration) rest :
  isnan (validationLoss best) = true -> py_min_from best rest = best.
Proof.
  intros H. induction rest as [|r rest IH]; [reflexivity|].
  simpl. destruct (validationLoss best); try discriminate H.
  destruct (validationLoss r); exact IH.
Qed.

(** C4, at the input where it fails.  A run of two epochs whose
    validation losses are not-a-number and 0.5 ends with the running
    minimum 0.5 and the best epoch 1, which is what the "best" file
    holds.  The call that resumes from the files of this run restores
    not-a-number as the minimum and 0 as the best epoch, although the
    record of epoch 1 holds the loss 0.5.  In general a first restored
    record without a number as its loss is taken as the minimum,
    whatever the later records hold. *)
Theorem resume_minimum_lost_after_nan :
  (exists rs w' best,
     nan_run NoFolder 2 (-1) = Ok (Some rs, w') /\
     map epoch rs = [0; 1] /\
     map validationLoss rs = [NaN; Fin (1#2)] /\
     w_best w' = Some best /\
     ck_min_val_loss best = Fin (1#2) /\ ck_epoch best = 1 /\
     exists w0,
       load_last toy_world (Folder (w_last w') (w_best w')) = Ok (w0, rs) /\
       resume_point rs 5 = (2, mkLocals rs NaN 0, false)) /\
  (forall (duration : Type) (r0 : EpochRecord duration) rest n,
     isnan (validationLoss r0) = true ->
     snd (fst (resume_point (r0 :: rest) n))
     = mkLocals (r0 :: rest) (validationLoss r0) (epoch r0)).
Proof.
  split.
  - do 3 eexists. split; [vm_compute; reflexivity|].
    split; [reflexivity|]. split; [reflexivity|]. split; [reflexivity|].
    split; [reflexivity|]. split; [reflexivity|].
    eexists. split; [vm_compute; reflexivity | vm_compute; reflexivity].
  - intros duration r0 rest n H. cbn [resume_point fst snd].
    rewrite (py_min_from_nan r0 rest H). reflexivity.
Qed.

(** ** Further properties of the metric engine *)

Lemma bool_index_length_mismatch {A : Type} (a : list A) (mask : list bool) :
  length a <> length mask -> bool_index a mask = Raise IndexError.
Proof.
  revert mask. induction a as [|x a IH]; intros [|m mask] H; simpl in *;
    try congruence.
  rewrite IH by congruence. reflexivity.
Qed.

(** X1: when the arrays of true and predicted labels differ in length,
    [_fast_hist] raises [IndexError] (the boolean mask built from the true
    labels does not fit the predictions). *)
Theorem fast_hist_length_mismatch self label_true label_pred :
  length label_true <> length label_pred ->
  _fast_hist self label_true label_pred = Raise IndexError.
Proof.
  intros H. unfold _fast_hist. rewrite bool_index_mask. cbn [bind].
  rewrite bool_index_length_mismatch; [reflexivity|].
  rewrite length_map. congruence.
Qed.

Lemma fast_hist_length_mismatch_witness :
  _fast_hist (mkIoU 2 (zeros 2)) [0; 1; 1] [0; 1] = Raise IndexError.
Proof.
  apply (fast_hist_length_mismatch (mkIoU 2 (zeros 2)) [0; 1; 1] [0; 1]).
  simpl. discriminate.
Defined.

Lemma zmax_list_ge xs x : In x xs -> x <= zmax_list xs.
Proof.
  induction xs as [|y xs IH]; intros H; [contradiction|].
  change (x <= Z.max y (zmax_list xs)).
  destruct H as [->|H]; [lia | specialize (IH H); lia].
Qed.

Lemma existsb_negative xs :
  existsb (fun x => x <? 0) xs = false <-> Forall (fun x => 0 <= x) xs.
Proof.
  induction xs as [|x xs IH]; simpl; split; intros H; auto.
  - apply orb_false_iff in H. destruct H as [H1 H2].
    constructor; [destruct (Z.ltb_spec x 0); [discriminate | lia] | apply IH, H2].
  - inversion H; subst. apply orb_false_iff. split;
      [destruct (Z.ltb_spec x 0); [lia | reflexivity] | apply IH; assumption].
Qed.

Lemma forallb_in_matrix n xs :
  0 <= n ->
  forallb (in_matrix n) xs = true <->
  Forall (fun x => 0 <= x < Z.of_nat (Z.to_nat (n * n))) xs.
Proof.
  intros Hn. rewrite forallb_forall, Forall_forall.
  split; intros H x Hx; specialize (H x Hx); unfold in_matrix in *.
  - apply andb_true_iff in H. destruct H as [H1 H2].
    apply Z.leb_le in H1. apply Z.ltb_lt in H2. rewrite Z2Nat.id by nia. lia.
  - rewrite Z2Nat.id in H by nia. apply andb_true_iff.
    split; [apply Z.leb_le | apply Z.ltb_lt]; lia.
Qed.

(** Outside the matrix, [np.bincount] or [reshape] raises. *)
Lemma bincount_reshape_out_of_range n xs :
  0 <= n ->
  forallb (in_matrix n) xs = false ->
  (let* counts := bincount xs (Z.to_nat (n * n)) in
   reshape (Z.to_nat n) (Z.to_nat n) counts) = Raise ValueError.
Proof.
  intros Hn H. unfold bincount.
  destruct (existsb (fun x => x <? 0) xs) eqn:E; [reflexivity|].
  apply existsb_negative in E. cbn [bind].
  assert (Hx : exists x, In x xs /\ n * n <= x).
  { clear -H E. induction xs as [|y xs IH]; [discriminate|].
    inversion E; subst. simpl in H. apply andb_false_iff in H.
    destruct H as [H|H].
    - exists y. split; [left; reflexivity|]. unfold in_matrix in H.
      apply andb_false_iff in H. destruct H as [H|H].
      + apply Z.leb_gt in H. lia.
      + apply Z.ltb_ge in H. exact H.
    - destruct (IH H) as [x [Hin Hge]]; [assumption|].
      exists x. split; [right; exact Hin | exact Hge]. }
  destruct Hx as [x [Hin Hge]].
  pose proof (zmax_list_ge _ _ Hin) as Hmax.
  destruct xs as [|y ys]; [contradiction|].
  unfold reshape. rewrite length_map, length_seq.
  assert (HN : Z.to_nat (n * n) = (Z.to_nat n * Z.to_nat n)%nat)
    by (apply Z2Nat.inj_mul; lia).
  destruct (Nat.eqb_spec
              (Nat.max (Z.to_nat (n * n)) (Z.to_nat (zmax_list (y :: ys) + 1)))
              (Z.to_nat n * Z.to_nat n)) as [Eq|Ne]; [|reflexivity].
  exfalso. rewrite <- HN in Eq. nia.
Qed.

Lemma fast_hist_cases self label_true label_pred :
  0 <= num_classes self ->
  length label_true = length label_pred ->
  let n := num_classes self in
  let idx := flat_indices n label_true label_pred in
  _fast_hist self label_true label_pred
  = (if forallb (in_matrix n) idx then Ok (count_matrix n idx)
     else Raise ValueError).
Proof.
  intros Hn Hlen n idx.
  assert (HN : Z.to_nat (n * n) = (Z.to_nat n * Z.to_nat n)%nat)
    by (apply Z2Nat.inj_mul; lia).
  unfold _fast_hist. fold n.
  rewrite bool_index_mask. cbn [bind].
  rewrite (bool_index_mask_other _ _ label_pred Hlen). cbn [bind].
  rewrite (filter_fst_combine _ _ label_pred Hlen), zipWith_map_fst_snd.
  fold (flat_indices n label_true label_pred). fold idx.
  destruct (forallb (in_matrix n) idx) eqn:E.
  - apply (forallb_in_matrix n idx Hn) in E.
    rewrite (bincount_in_range _ _ E). cbn [bind].
    unfold reshape. rewrite length_map, length_seq, HN, Nat.eqb_refl.
    reflexivity.
  - apply (bincount_reshape_out_of_range n idx Hn E).
Qed.

Lemma count_matrix_square n idx :
  0 <= n -> square (Z.to_nat n) (count_matrix n idx).
Proof.
  intros Hn. unfold count_matrix. apply chunks_square.
  rewrite length_map, length_seq. reflexivity.
Qed.

Lemma count_matrix_cell n idx i j :
  0 <= n -> (i < Z.to_nat n)%nat -> (j < Z.to_nat n)%nat ->
  cell (count_matrix n idx) i j = countZ idx (n * Z.of_nat i + Z.of_nat j).
Proof.
  intros Hn Hi Hj. unfold count_matrix.
  rewrite chunks_cell by assumption. rewrite nth_map_seq by nia.
  f_equal. nia.
Qed.

(** X2: on arrays of one length, [_fast_hist] returns a matrix exactly
    when the flat index [num_classes * t + p] of every pixel that passes
    the mask lies in the matrix, and the matrix is that of the counts of
    these indices.  Otherwise it raises: [ValueError] when a flat index
    is negative, and an exception for a flat index beyond the matrix
    ([ValueError] from the reshape, unless numpy cannot allocate the
    bins).  The predicted labels are not masked: one of them outside
    [0, num_classes) either makes the call fail or is counted in the cell
    its flat index falls in. *)
Theorem fast_hist_outcome self label_true label_pred :
  0 <= num_classes self ->
  length label_true = length label_pred ->
  let n := num_classes self in
  let idx := flat_indices n label_true label_pred in
  (forallb (in_matrix n) idx = true ->
   _fast_hist self label_true label_pred = Ok (count_matrix n idx)) /\
  (existsb (fun x => x <? 0) idx = true ->
   _fast_hist self label_true label_pred = Raise ValueError) /\
  (forallb (in_matrix n) idx = false ->
   exists e, _fast_hist self label_true label_pred = Raise e) /\
  (forall i j, (i < Z.to_nat n)%nat -> (j < Z.to_nat n)%nat ->
     cell (count_matrix n idx) i j
     = countZ idx (n * Z.of_nat i + Z.of_nat j)) /\
  square (Z.to_nat n) (count_matrix n idx).
Proof.
  intros Hn Hlen n idx.
  pose proof (fast_hist_cases self label_true label_pred Hn Hlen) as E.
  cbv zeta in E. fold n in E. fold idx in E.
  split; [|split; [|split; [|split]]].
  - intros Hall. rewrite E, Hall. reflexivity.
  - intros Hneg. rewrite E.
    destruct (forallb (in_matrix n) idx) eqn:Hall; [|reflexivity].
    apply (forallb_in_matrix n idx Hn) in Hall.
    assert (Hnn : Forall (fun x => 0 <= x) idx)
      by (revert Hall; apply Forall_impl; intros x Hx; lia).
    apply existsb_negative in Hnn. congruence.
  - intros Hall. rewrite E, Hall. exists ValueError. reflexivity.
  - intros i j Hi Hj. now apply count_matrix_cell.
  - now apply count_matrix_square.
Qed.

Lemma fast_hist_outcome_witness :
  let n := 3 in
  let idx := flat_indices n [0; 2; 1] [4; 0; 1] in
  _fast_hist (mkIoU 3 (zeros 3)) [0; 2; 1] [4; 0; 1]
  = Ok (count_matrix n idx) /\
  cell (count_matrix n idx) 1 1 = 2 /\
  _fast_hist (mkIoU 3 (zeros 3)) [0] [-1] = Raise ValueError.
Proof.
  cbv zeta.
  destruct (fast_hist_outcome (mkIoU 3 (zeros 3)) [0; 2; 1] [4; 0; 1])
    as (Hok & _); [simpl; lia | reflexivity |].
  destruct (fast_hist_outcome (mkIoU 3 (zeros 3)) [0] [-1])
    as (_ & Hneg & _); [simpl; lia | reflexivity |].
  split; [apply Hok; reflexivity|].
  split; [reflexivity|].
  apply Hneg. reflexivity.
Defined.

(** A predicted label 4 with three classes on a pixel of true class 0 is
    counted as (true 1, predicted 1); on a pixel of true class 2 it makes
    the call fail. *)
Example fast_hist_unmasked_prediction :
  _fast_hist (mkIoU 3 (zeros 3)) [0] [4] = Ok [[0; 0; 0]; [0; 1; 0]; [0; 0; 0]] /\
  _fast_hist (mkIoU 3 (zeros 3)) [2] [4] = Raise ValueError.
Proof. split; reflexivity. Qed.

Lemma nonneg_cell M i j : nonneg M -> 0 <= cell M i j.
Proof.
  intros H. unfold cell.
  destruct (Nat.lt_ge_cases i (length M)) as [Hi|Hi].
  - unfold nonneg in H. rewrite Forall_forall in H.
    apply nth_le_zsum, H, nth_In, Hi.
  - rewrite (nth_overflow M) by assumption. destruct j; simpl; lia.
Qed.

Lemma cell_outside n M i j :
  square n M -> (n <= i)%nat \/ (n <= j)%nat -> cell M i j = 0.
Proof.
  intros Hsq H. unfold cell.
  destruct (Nat.lt_ge_cases i n) as [Hi|Hi].
  - destruct H as [H|H]; [lia|]. apply nth_overflow.
    rewrite (square_nth_length n M i Hsq Hi). exact H.
  - destruct Hsq as [Hl _]. rewrite (nth_overflow M) by lia.
    destruct j; reflexivity.
Qed.

(** What a successful [update] does: it adds to the matrix, in float64,
    the square matrix of non-negative counts that [_fast_hist] returns,
    whose total is the number of pixels that pass the mask. *)
Lemma update_effect self y_preds labels self' :
  wf_IoU self ->
  update self y_preds labels = Ok self' ->
  exists pl H,
    predicted_labels y_preds = Ok pl /\
    _fast_hist (mkIoU (num_classes self) []) labels pl = Ok H /\
    square (Z.to_nat (num_classes self)) H /\ nonneg H /\
    sum_all H = valid_pixels (num_classes self) labels /\
    self' = mkIoU (num_classes self) (mat_iadd (confusion_matrix self) H).
Proof.
  intros [Hn Hsq] Hu. unfold update in Hu.
  destruct (predicted_labels y_preds) as [pl|e]; cbn [bind] in Hu;
    [|discriminate].
  destruct (Nat.eq_dec (length labels) (length pl)) as [Hlen|Hlen].
  2:{ unfold _fast_hist in Hu. rewrite bool_index_mask in Hu.
      cbn [bind] in Hu.
      rewrite bool_index_length_mismatch in Hu
        by (rewrite length_map; congruence).
      discriminate. }
  pose proof (fast_hist_cases self labels pl Hn Hlen) as E.
  cbv zeta in E.
  change (_fast_hist self labels pl)
    with (_fast_hist (mkIoU (num_classes self) []) labels pl) in E, Hu.
  rewrite E in Hu.
  set (n := num_classes self) in *.
  set (idx := flat_indices n labels pl) in *.
  destruct (forallb (in_matrix n) idx) eqn:Hall; cbn [bind] in Hu;
    [|discriminate].
  inversion Hu; subst self'; clear Hu.
  pose proof (count_matrix_square n idx Hn) as HsqH.
  exists pl, (count_matrix n idx).
  split; [reflexivity|]. split; [exact E|].
  split; [exact HsqH|]. split; [|split].
  - apply (nonneg_of_cells _ _ HsqH). intros i j Hi Hj.
    rewrite (count_matrix_cell n idx i j Hn Hi Hj). unfold countZ. lia.
  - unfold count_matrix.
    rewrite sum_all_chunks by (rewrite length_map, length_seq; reflexivity).
    apply (forallb_in_matrix n idx Hn) in Hall.
    assert (HN : Z.to_nat (n * n) = (Z.to_nat n * Z.to_nat n)%nat)
      by (apply Z2Nat.inj_mul; lia).
    rewrite <- HN, (zsum_bincount _ _ Hall).
    unfold idx, flat_indices, valid_pixels. rewrite length_map.
    rewrite (filter_fst_combine (valid_label n) labels pl Hlen), length_map.
    reflexivity.
  - reflexivity.
Qed.

(** Adding, exactly, a matrix of non-negative counts to a square
    matrix. *)
Lemma mat_add_counts n M H :
  square n M -> square n H -> nonneg H ->
  square n (mat_add M H) /\
  (forall i j, cell M i j <= cell (mat_add M H) i j) /\
  (nonneg M -> nonneg (mat_add M H)) /\
  sum_all (mat_add M H) = sum_all M + sum_all H.
Proof.
  intros Hsq HsqH HnnH.
  pose proof (mat_add_square _ _ _ Hsq HsqH) as HsqM.
  split; [exact HsqM|]. split; [|split].
  - intros i j.
    destruct (Nat.lt_ge_cases i n) as [Hi|Hi];
      [destruct (Nat.lt_ge_cases j n) as [Hj|Hj]|].
    + rewrite (mat_add_cell _ _ _ _ _ Hsq HsqH Hi Hj).
      pose proof (nonneg_cell H i j HnnH). lia.
    + rewrite (cell_outside _ _ i j Hsq), (cell_outside _ _ i j HsqM);
        auto; lia.
    + rewrite (cell_outside _ _ i j Hsq), (cell_outside _ _ i j HsqM);
        auto; lia.
  - intros Hnn. apply (nonneg_of_cells _ _ HsqM). intros i j Hi Hj.
    rewrite (mat_add_cell _ _ _ _ _ Hsq HsqH Hi Hj).
    pose proof (nonneg_cell M i j Hnn). pose proof (nonneg_cell H i j HnnH).
    lia.
  - apply (sum_all_mat_add _ _ _ Hsq HsqH).
Qed.

(** The float64 addition of a matrix of counts is exact where the
    matrix has room for them. *)
Lemma mat_iadd_in_room k' M H :
  nonneg H -> 0 <= k' ->
  exact_room (sum_all H + k') M ->
  mat_iadd M H = mat_add M H /\ exact_room k' (mat_add M H).
Proof.
  intros HnnH Hk' Hroom.
  apply (mat_iadd_exact (sum_all H) k' M H Hk' Hroom).
  apply nonneg_le_sum_all. exact HnnH.
Qed.

(** X3: whenever [update] succeeds on a well-formed metric object, the
    object stays well-formed with the same number of classes and
    non-negative counts stay non-negative.  When the cells are counts
    that stay within 2^53 with the pixels of the batch added, no cell
    decreases and the total of the matrix grows by exactly the number of
    pixels whose true label lies in [0, num_classes): each such pixel is
    counted once, whatever the predictions are. *)
Theorem update_keeps_invariants self y_preds labels self' :
  wf_IoU self ->
  update self y_preds labels = Ok self' ->
  num_classes self' = num_classes self /\
  wf_IoU self' /\
  (nonneg (confusion_matrix self) -> nonneg (confusion_matrix self')) /\
  (exact_room (valid_pixels (num_classes self) labels)
              (confusion_matrix self) ->
   (forall i j, cell (confusion_matrix self) i j
                <= cell (confusion_matrix self') i j) /\
   sum_all (confusion_matrix self')
   = sum_all (confusion_matrix self)
     + valid_pixels (num_classes self) labels /\
   exact_room 0 (confusion_matrix self')).
Proof.
  intros Hwf Hu.
  destruct (update_effect _ _ _ _ Hwf Hu)
    as (pl & H & _ & _ & HsqH & HnnH & Hsum & ->).
  destruct Hwf as [Hn Hsq].
  cbn [num_classes confusion_matrix].
  split; [reflexivity|].
  split; [split; [exact Hn | apply (mat_iadd_square _ _ _ Hsq HsqH)]|].
  split; [intros Hnn; apply mat_iadd_nonneg; assumption|].
  intros Hroom. rewrite <- Hsum, <- (Z.add_0_r (sum_all H)) in Hroom.
  destruct (mat_iadd_in_room 0 _ _ HnnH (Z.le_refl 0) Hroom) as [-> Hroom'].
  destruct (mat_add_counts _ _ _ Hsq HsqH HnnH) as (_ & Hle & _ & Hs).
  split; [exact Hle|]. split; [|exact Hroom'].
  rewrite Hs, Hsum. reflexivity.
Qed.

Lemma update_keeps_invariants_witness :
  let self := mkIoU 3 [[1; 0; 0]; [0; 2; 0]; [0; 0; 0]] in
  let self' := mkIoU 3 [[1; 0; 0]; [0; 3; 0]; [1; 0; 0]] in
  wf_IoU self /\
  update self [[0; 0; 0; 0; 1]; [1; 0; 0]; [0; 1; 0]]%Q [0; 2; 9] = Ok self' /\
  wf_IoU self' /\
  (forall i j, cell (confusion_matrix self) i j
               <= cell (confusion_matrix self') i j) /\
  sum_all (confusion_matrix self')
  = sum_all (confusion_matrix self) + valid_pixels (num_classes self) [0; 2; 9].
Proof.
  cbv zeta.
  assert (Hwf : wf_IoU (mkIoU 3 [[1; 0; 0]; [0; 2; 0]; [0; 0; 0]]))
    by (split; [simpl; lia | split; [reflexivity | repeat constructor]]).
  destruct (update_keeps_invariants
              (mkIoU 3 [[1; 0; 0]; [0; 2; 0]; [0; 0; 0]])
              [[0; 0; 0; 0; 1]; [1; 0; 0]; [0; 1; 0]]%Q [0; 2; 9]
              (mkIoU 3 [[1; 0; 0]; [0; 3; 0]; [1; 0; 0]]) Hwf eq_refl)
    as (_ & Hwf' & _ & Hex).
  destruct Hex as (Hle & Hsum & _).
  { unfold exact_room.
    repeat (apply Forall_cons || apply Forall_nil);
      (split; [lia | vm_compute; intro E; discriminate E]). }
  split; [exact Hwf|]. split; [reflexivity|]. split; [exact Hwf'|].
  split; [exact Hle | exact Hsum].
Defined.

Lemma vec_add_swap a b c :
  vec_add (vec_add a b) c = vec_add (vec_add a c) b.
Proof.
  unfold vec_add. revert b c.
  induction a as [|x a IH]; intros [|y b] [|z c]; simpl; auto.
  f_equal; [lia | apply IH].
Qed.

Lemma mat_add_swap A B C :
  mat_add (mat_add A B) C = mat_add (mat_add A C) B.
Proof.
  unfold mat_add. revert B C.
  induction A as [|x A IH]; intros [|y B] [|z C]; simpl; auto.
  f_equal; [apply vec_add_swap | apply IH].
Qed.

Lemma update_of_parts self y_preds labels pl H :
  predicted_labels y_preds = Ok pl ->
  _fast_hist (mkIoU (num_classes self) []) labels pl = Ok H ->
  update self y_preds labels
  = Ok (mkIoU (num_classes self) (mat_iadd (confusion_matrix self) H)).
Proof.
  intros Ep EH. unfold update. rewrite Ep. cbn [bind].
  change (_fast_hist self labels pl)
    with (_fast_hist (mkIoU (num_classes self) []) labels pl).
  rewrite EH. reflexivity.
Qed.

(** X4: on a well-formed metric object whose cells are counts that stay
    within 2^53 with the pixels of two batches added, the order of the
    two updates does not matter: when updating with a first batch and
    then with a second one succeeds, updating with the second and then
    the first succeeds too and gives the same object. *)
Theorem update_order_irrelevant self y1 l1 y2 l2 s :
  wf_IoU self ->
  exact_room (valid_pixels (num_classes self) l1
              + valid_pixels (num_classes self) l2)
             (confusion_matrix self) ->
  (let* s1 := update self y1 l1 in update s1 y2 l2) = Ok s ->
  (let* s2 := update self y2 l2 in update s2 y1 l1) = Ok s.
Proof.
  intros Hwf Hroom H.
  destruct (update self y1 l1) as [s1|e] eqn:E1; cbn [bind] in H;
    [|discriminate].
  destruct (update_effect _ _ _ _ Hwf E1)
    as (p1 & H1 & Ep1 & EH1 & Hsq1 & Hnn1 & Hs1 & ->).
  assert (Hwf1 : wf_IoU (mkIoU (num_classes self)
                           (mat_iadd (confusion_matrix self) H1)))
    by (split; [apply Hwf | apply (mat_iadd_square _ _ _ (proj2 Hwf) Hsq1)]).
  destruct (update_effect _ _ _ _ Hwf1 H)
    as (p2 & H2 & Ep2 & EH2 & Hsq2 & Hnn2 & Hs2 & ->).
  cbn [num_classes confusion_matrix] in *.
  set (M := confusion_matrix self) in *.
  set (n := num_classes self) in *.
  assert (R1 : exact_room (sum_all H1 + valid_pixels n l2) M)
    by (rewrite Hs1; exact Hroom).
  destruct (mat_iadd_in_room _ M H1 Hnn1 (valid_pixels_nonneg n l2) R1)
    as [X1 R1'].
  assert (R12 : exact_room (sum_all H2 + 0) (mat_add M H1))
    by (rewrite Hs2, Z.add_0_r; exact R1').
  destruct (mat_iadd_in_room _ _ H2 Hnn2 (Z.le_refl 0) R12) as [X12 _].
  assert (R2 : exact_room (sum_all H2 + valid_pixels n l1) M)
    by (rewrite Hs2, Z.add_comm; exact Hroom).
  destruct (mat_iadd_in_room _ M H2 Hnn2 (valid_pixels_nonneg n l1) R2)
    as [X2 R2'].
  assert (R21 : exact_room (sum_all H1 + 0) (mat_add M H2))
    by (rewrite Hs1, Z.add_0_r; exact R2').
  destruct (mat_iadd_in_room _ _ H1 Hnn1 (Z.le_refl 0) R21) as [X21 _].
  rewrite (update_of_parts self y2 l2 p2 H2 Ep2 EH2). cbn [bind].
  fold n. fold M.
  rewrite (update_of_parts (mkIoU n (mat_iadd M H2)) y1 l1 p1 H1 Ep1 EH1).
  cbn [num_classes confusion_matrix].
  rewrite X1, X12, X2, X21, mat_add_swap. reflexivity.
Qed.

Lemma update_order_irrelevant_witness :
  (let* s2 := update (mkIoU 2 [[1; 0]; [1; 1]]) [[3; 2]; [1; 4]]%Q [1; 7] in
   update s2 [[1#2; 1#3]; [0; 1]]%Q [0; 1])
  = Ok (mkIoU 2 [[2; 0]; [2; 2]]).
Proof.
  apply (update_order_irrelevant (mkIoU 2 [[1; 0]; [1; 1]])
           [[1#2; 1#3]; [0; 1]]%Q [0; 1] [[3; 2]; [1; 4]]%Q [1; 7]).
  - split; [simpl; lia | split; [reflexivity | repeat constructor]].
  - unfold exact_room.
    repeat (apply Forall_cons || apply Forall_nil);
      (split; [lia | vm_compute; intro E; discriminate E]).
  - reflexivity.
Defined.

(** *** The values [compute] can return *)

Lemma zsum_zero l : Forall (fun x => x = 0) l -> zsum l = 0.
Proof. induction 1; simpl; lia. Qed.

Lemma cell_zeros n i j : cell (zeros n) i j = 0.
Proof.
  destruct (Nat.lt_ge_cases i n) as [Hi|Hi].
  - unfold cell, zeros.
    rewrite (nth_indep _ [] (repeat 0 n)) by (rewrite repeat_length; exact Hi).
    rewrite nth_repeat. apply nth_repeat.
  - apply (cell_outside n); [apply zeros_square | left; exact Hi].
Qed.

Lemma row_sum_zeros n c : row_sum (zeros n) c = 0.
Proof.
  unfold row_sum. apply zsum_zero, Forall_forall. intros x Hx.
  destruct (In_nth _ _ 0 Hx) as [j [_ <-]]. apply (cell_zeros n c j).
Qed.

Lemma col_sum_zeros n c : col_sum (zeros n) c = 0.
Proof.
  unfold col_sum. apply zsum_zero, Forall_forall. intros x Hx.
  apply in_map_iff in Hx. destruct Hx as [r [<- Hr]].
  destruct (In_nth _ _ [] Hr) as [i [_ <-]]. apply (cell_zeros n i c).
Qed.

Lemma sum_all_rows n M :
  square n M -> sum_all M = zsum (map (row_sum M) (seq 0 n)).
Proof.
  intros [Hl _]. unfold sum_all, row_sum. f_equal.
  apply (nth_ext _ _ 0 0).
  - rewrite !length_map, length_seq. exact Hl.
  - intros i Hi. rewrite length_map in Hi.
    rewrite nth_map_seq by lia.
    change 0 with (zsum []) at 1. rewrite map_nth. reflexivity.
Qed.

Lemma zsum_map_zero {A : Type} (f : A -> Z) l :
  (forall x, In x l -> f x = 0) -> zsum (map f l) = 0.
Proof.
  intros H. apply zsum_zero, Forall_forall. intros y Hy.
  apply in_map_iff in Hy. destruct Hy as [x [<- Hx]]. auto.
Qed.

Lemma nanmean_all_nan n : nanmean (repeat NaN n) = NaN.
Proof.
  unfold nanmean.
  replace (filter (fun x => negb (isnan x)) (repeat NaN n)) with (@nil float);
    [reflexivity|].
  induction n; simpl; auto.
Qed.

Lemma all_nth_repeat {A : Type} (l : list A) n d x :
  length l = n -> (forall c, (c < n)%nat -> nth c l d = x) -> l = repeat x n.
Proof.
  intros Hl H. apply (nth_ext _ _ d x).
  - rewrite repeat_length. exact Hl.
  - intros c Hc. rewrite nth_repeat. apply H. lia.
Qed.

(** X5: [reset] puts a metric object back into the state its constructor
    builds, and [compute] on such an object, before any update, raises
    nothing: the accuracy, both means and every per-class value are
    not-a-number. *)
Theorem compute_on_reset_metric self :
  wf_IoU self ->
  IoU_init (num_classes self) = Ok (reset self) /\
  wf_IoU (reset self) /\
  exists snap,
    compute (reset self) None = Ok snap /\
    accuracy snap = NaN /\
    miou snap = NaN /\
    f1_mean snap = NaN /\
    classwise_iou snap = repeat NaN (Z.to_nat (num_classes self)) /\
    classwise_f1 snap = repeat NaN (Z.to_nat (num_classes self)).
Proof.
  intros [Hn _].
  destruct (IoU_init_ok (num_classes self) Hn) as [Ei Hwf].
  split; [exact Ei|]. split; [exact Hwf|].
  set (N := Z.to_nat (num_classes self)).
  exists (compute_from (zeros N)). split; [reflexivity|].
  destruct (compute_from_classwise N (zeros N) (zeros_square N))
    as [Li [Lf Hc]].
  assert (Ei' : classwise_iou (compute_from (zeros N)) = repeat NaN N).
  { apply (all_nth_repeat _ N NaN NaN Li). intros c Hlt.
    destruct (Hc c Hlt) as [-> _].
    rewrite cell_zeros, row_sum_zeros, col_sum_zeros. reflexivity. }
  assert (Ef' : classwise_f1 (compute_from (zeros N)) = repeat NaN N).
  { apply (all_nth_repeat _ N NaN NaN Lf). intros c Hlt.
    destruct (Hc c Hlt) as [_ ->].
    rewrite cell_zeros, row_sum_zeros, col_sum_zeros. reflexivity. }
  split; [|split; [|split; [|split; assumption]]].
  - cbn [compute_from accuracy].
    rewrite (sum_all_rows N _ (zeros_square N)).
    rewrite (zsum_map_zero (row_sum (zeros N)))
      by (intros; apply row_sum_zeros).
    unfold diag.
    rewrite (zsum_map_zero (fun i => cell (zeros N) i i))
      by (intros; apply cell_zeros).
    reflexivity.
  - change (miou (compute_from (zeros N)))
      with (nanmean (classwise_iou (compute_from (zeros N)))).
    rewrite Ei'. apply nanmean_all_nan.
  - change (f1_mean (compute_from (zeros N)))
      with (nanmean (classwise_f1 (compute_from (zeros N)))).
    rewrite Ef'. apply nanmean_all_nan.
Qed.

Lemma compute_on_reset_metric_witness :
  let self := mkIoU 2 [[4; 1]; [0; 3]] in
  IoU_init (num_classes self) = Ok (reset self) /\
  wf_IoU (reset self) /\
  exists snap,
    compute (reset self) None = Ok snap /\
    accuracy snap = NaN /\
    miou snap = NaN /\
    f1_mean snap = NaN /\
    classwise_iou snap = repeat NaN (Z.to_nat (num_classes self)) /\
    classwise_f1 snap = repeat NaN (Z.to_nat (num_classes self)).
Proof.
  apply (compute_on_reset_metric (mkIoU 2 [[4; 1]; [0; 3]])).
  split; [simpl; lia | split; [reflexivity | repeat constructor]].
Defined.

Lemma np_div_unit (s : Q) (k : Z) :
  (0 <= s)%Q -> (s <= inject_Z k)%Q ->
  unit_or_nan (np_div (Fin s) (of_Z k)) /\
  isnan (np_div (Fin s) (of_Z k)) = (k =? 0).
Proof.
  intros H0 Hk. unfold np_div, of_Z.
  destruct (Qeq_bool (inject_Z k) 0) eqn:E.
  - apply Qeq_bool_iff in E.
    assert (k = 0) by (apply inject_Z_injective; exact E). subst k.
    assert (Hs : (s == 0)%Q) by (apply Qle_antisym; assumption).
    assert (Hnum : Qnum s = 0).
    { unfold Qeq in Hs. simpl in Hs. lia. }
    unfold Qsgn. rewrite Hnum. simpl. auto.
  - assert (Hne : k <> 0).
    { intros ->. discriminate E. }
    assert (Hpos : (0 < inject_Z k)%Q).
    { apply Qlt_le_trans with (y := inject_Z 1); [reflexivity|].
      rewrite <- Zle_Qle.
      assert ((0 <= inject_Z k)%Q) by (eapply Qle_trans; eassumption).
      change 0%Q with (inject_Z 0) in H. rewrite <- Zle_Qle in H. lia. }
    split.
    + cbn [unit_or_nan]. rewrite Qred_correct. split.
      * apply Qle_shift_div_l; [exact Hpos|]. rewrite Qmult_0_l. exact H0.
      * apply Qle_shift_div_r; [exact Hpos|]. rewrite Qmult_1_l. exact Hk.
    + cbn [isnan]. symmetry. apply Z.eqb_neq. exact Hne.
Qed.

Lemma np_div_counts a b :
  0 <= a <= b ->
  unit_or_nan (np_div (of_Z a) (of_Z b)) /\
  isnan (np_div (of_Z a) (of_Z b)) = (b =? 0).
Proof.
  intros [H0 Hb]. apply np_div_unit.
  - change 0%Q with (inject_Z 0). rewrite <- Zle_Qle. exact H0.
  - rewrite <- Zle_Qle. exact Hb.
Qed.

Lemma fold_fadd_unit kept :
  Forall (fun x => exists q, x = Fin q /\ (0 <= q /\ q <= 1)%Q) kept ->
  forall s0, (0 <= s0)%Q ->
  exists s, fold_left fadd kept (Fin s0) = Fin s /\
            (0 <= s)%Q /\
            (s <= s0 + inject_Z (Z.of_nat (length kept)))%Q.
Proof.
  induction 1 as [|x kept [q [-> [Hq0 Hq1]]] _ IH]; intros s0 Hs0.
  - exists s0. split; [reflexivity|]. split; [exact Hs0|].
    simpl. rewrite Qplus_0_r. apply Qle_refl.
  - cbn [fold_left fadd].
    assert (H0 : (0 <= Qred (s0 + q))%Q).
    { rewrite Qred_correct. change 0%Q with (0 + 0)%Q.
      apply Qplus_le_compat; assumption. }
    destruct (IH _ H0) as [s [Es [Hs Hle]]].
    exists s. split; [exact Es|]. split; [exact Hs|].
    eapply Qle_trans; [exact Hle|]. rewrite Qred_correct.
    replace (Z.of_nat (length (Fin q :: kept)))
      with (1 + Z.of_nat (length kept)) by (simpl length; lia).
    rewrite inject_Z_plus. rewrite <- Qplus_assoc.
    apply Qplus_le_compat; [apply Qle_refl|].
    apply Qplus_le_compat; [exact Hq1 | apply Qle_refl].
Qed.

Lemma nanmean_unit l : Forall unit_or_nan l -> unit_or_nan (nanmean l).
Proof.
  intros H. unfold nanmean.
  set (kept := filter (fun x => negb (isnan x)) l).
  assert (Hk : Forall (fun x => exists q, x = Fin q /\ (0 <= q /\ q <= 1)%Q)
                      kept).
  { apply Forall_forall. intros x Hx. apply filter_In in Hx.
    destruct Hx as [Hin Hnn]. rewrite Forall_forall in H.
    specialize (H x Hin). destruct x; simpl in *; try contradiction;
      try discriminate. eauto. }
  destruct (fold_fadd_unit kept Hk 0%Q (Qle_refl 0)) as [s [Es [Hs Hle]]].
  unfold fsum. rewrite Es. rewrite Qplus_0_l in Hle.
  apply (np_div_unit s _ Hs Hle).
Qed.

Lemma zsum_map_le {A : Type} (f g : A -> Z) l :
  (forall x, In x l -> f x <= g x) -> zsum (map f l) <= zsum (map g l).
Proof.
  induction l as [|x l IH]; intros H; simpl; [lia|].
  pose proof (H x (or_introl eq_refl)).
  assert (zsum (map f l) <= zsum (map g l))
    by (apply IH; intros; apply H; right; assumption).
  lia.
Qed.

Lemma zsum_map_nonneg {A : Type} (f : A -> Z) l :
  (forall x, In x l -> 0 <= f x) -> 0 <= zsum (map f l).
Proof.
  induction l as [|x l IH]; intros H; simpl; [lia|].
  pose proof (H x (or_introl eq_refl)).
  assert (0 <= zsum (map f l)) by (apply IH; intros; apply H; right; assumption).
  lia.
Qed.

Lemma trace_bounds n M :
  square n M -> nonneg M -> 0 <= zsum (diag M) <= sum_all M.
Proof.
  intros Hsq Hnn. pose proof Hsq as [Hl _].
  rewrite (sum_all_rows n M Hsq). unfold diag. rewrite Hl. split.
  - apply zsum_map_nonneg. intros i _. apply nonneg_cell, Hnn.
  - apply zsum_map_le. intros i Hi. apply in_seq in Hi.
    apply (nonneg_cell_bounds n M i Hsq Hnn). lia.
Qed.

Lemma Forall_of_nth {A : Type} (P : A -> Prop) (l : list A) d :
  (forall c, (c < length l)%nat -> P (nth c l d)) -> Forall P l.
Proof.
  intros H. apply Forall_forall. intros x Hx.
  destruct (In_nth _ _ d Hx) as [c [Hc <-]]. apply H, Hc.
Qed.

(** X6: for a well-formed metric object holding non-negative counts,
    [compute] returns an accuracy, a mean IoU, a mean F1 and per-class
    IoU and F1 that are each not-a-number or a finite value between 0 and
    1, never an infinity; and a class has a not-a-number IoU exactly when
    it has a not-a-number F1. *)
Theorem compute_values_in_unit_interval self :
  wf_IoU self ->
  nonneg (confusion_matrix self) ->
  exists snap,
    compute self None = Ok snap /\
    unit_or_nan (accuracy snap) /\
    unit_or_nan (miou snap) /\
    unit_or_nan (f1_mean snap) /\
    Forall unit_or_nan (classwise_iou snap) /\
    Forall unit_or_nan (classwise_f1 snap) /\
    forall c, isnan (nth c (classwise_iou snap) NaN)
              = isnan (nth c (classwise_f1 snap) NaN).
Proof.
  intros [Hn Hsq] Hnn. set (M := confusion_matrix self) in *.
  set (N := Z.to_nat (num_classes self)) in *.
  exists (compute_from M). split; [reflexivity|].
  destruct (compute_from_classwise N M Hsq) as [Li [Lf Hc]].
  assert (Hb : forall c, (c < N)%nat ->
             0 <= cell M c c <= row_sum M c + col_sum M c - cell M c c /\
             0 <= 2 * cell M c c <= row_sum M c + col_sum M c).
  { intros c Hlt. pose proof (nonneg_cell_bounds N M c Hsq Hnn Hlt). lia. }
  assert (Hi : Forall unit_or_nan (classwise_iou (compute_from M))).
  { apply (Forall_of_nth _ _ NaN). intros c Hlt. rewrite Li in Hlt.
    destruct (Hc c Hlt) as [-> _]. apply np_div_counts, Hb, Hlt. }
  assert (Hf : Forall unit_or_nan (classwise_f1 (compute_from M))).
  { apply (Forall_of_nth _ _ NaN). intros c Hlt. rewrite Lf in Hlt.
    destruct (Hc c Hlt) as [_ ->]. apply np_div_counts, Hb, Hlt. }
  split; [|split; [|split; [|split; [exact Hi | split; [exact Hf|]]]]].
  - cbn [compute_from accuracy]. apply np_div_counts.
    apply (trace_bounds N M Hsq Hnn).
  - apply (nanmean_unit _ Hi).
  - apply (nanmean_unit _ Hf).
  - intros c. destruct (Nat.lt_ge_cases c N) as [Hlt|Hge].
    + destruct (Hc c Hlt) as [-> ->]. destruct (Hb c Hlt) as [B1 B2].
      rewrite (proj2 (np_div_counts _ _ B1)), (proj2 (np_div_counts _ _ B2)).
      pose proof (nonneg_cell_bounds N M c Hsq Hnn Hlt).
      destruct (Z.eqb_spec (row_sum M c + col_sum M c - cell M c c) 0),
               (Z.eqb_spec (row_sum M c + col_sum M c) 0); auto; lia.
    + rewrite !nth_overflow by lia. reflexivity.
Qed.

Lemma compute_values_in_unit_interval_witness :
  exists snap,
    compute (mkIoU 3 [[2; 1; 0]; [0; 3; 0]; [0; 0; 0]]) None = Ok snap /\
    unit_or_nan (accuracy snap) /\
    unit_or_nan (miou snap) /\
    unit_or_nan (f1_mean snap) /\
    Forall unit_or_nan (classwise_iou snap) /\
    Forall unit_or_nan (classwise_f1 snap) /\
    forall c, isnan (nth c (classwise_iou snap) NaN)
              = isnan (nth c (classwise_f1 snap) NaN).
Proof.
  apply (compute_values_in_unit_interval
           (mkIoU 3 [[2; 1; 0]; [0; 3; 0]; [0; 0; 0]])).
  - split; [simpl; lia | split; [reflexivity | repeat constructor]].
  - unfold nonneg; simpl. repeat constructor; lia.
Defined.

Lemma Qred_inject_Z z : Qred (inject_Z z) = inject_Z z.
Proof.
  unfold Qred, inject_Z.
  pose proof (Z.ggcd_gcd z 1) as Hg.
  pose proof (Z.ggcd_correct_divisors z 1) as Hd.
  destruct (Z.ggcd z 1) as [g [aa bb]]. simpl in Hg, Hd.
  rewrite Z.gcd_1_r in Hg. subst g. destruct Hd as [Ha Hb].
  rewrite Z.mul_1_l in Ha, Hb. subst aa bb. reflexivity.
Qed.

Lemma np_div_self d : 0 < d -> np_div (of_Z d) (of_Z d) = Fin 1.
Proof.
  intros Hd. unfold np_div, of_Z.
  destruct (Qeq_bool (inject_Z d) 0) eqn:E.
  - apply Qeq_bool_iff in E.
    assert (d = 0) by (apply inject_Z_injective; exact E). lia.
  - f_equal. change 1%Q with (Qred 1). apply Qred_complete.
    apply Qmult_inv_r. intros H.
    assert (d = 0) by (apply inject_Z_injective; exact H). lia.
Qed.

Lemma fold_fadd_ones k a :
  fold_left fadd (repeat (Fin 1) k) (Fin (inject_Z a))
  = Fin (inject_Z (a + Z.of_nat k)).
Proof.
  revert a. induction k as [|k IH]; intros a.
  - simpl. rewrite Z.add_0_r. reflexivity.
  - cbn [repeat fold_left fadd].
    replace (Qred (inject_Z a + 1)) with (inject_Z (a + 1)).
    + rewrite IH. f_equal. f_equal. lia.
    + rewrite <- (Qred_inject_Z (a + 1)). apply Qred_complete.
      rewrite inject_Z_plus. reflexivity.
Qed.

Lemma nanmean_ones l :
  Forall (fun x => x = Fin 1 \/ x = NaN) l ->
  Exists (fun x => x = Fin 1) l ->
  nanmean l = Fin 1.
Proof.
  intros Hall Hex. unfold nanmean.
  set (kept := filter (fun x => negb (isnan x)) l).
  assert (Hk : kept = repeat (Fin 1) (length kept)).
  { unfold kept. clear Hex. induction Hall as [|x l [->| ->] _ IH]; simpl;
      auto. f_equal. exact IH. }
  assert (Hpos : (0 < length kept)%nat).
  { unfold kept. clear Hk. induction Hex as [x l ->|x l _ IH].
    - simpl. lia.
    - inversion Hall; subst. simpl. destruct (negb (isnan x)); simpl;
        [lia | apply IH; assumption]. }
  unfold fsum. rewrite Hk at 1.
  change (Fin 0) with (Fin (inject_Z 0)). rewrite fold_fadd_ones.
  apply np_div_self. lia.
Qed.

Lemma zsum_single l c :
  (forall j, j <> c -> nth j l 0 = 0) -> zsum l = nth c l 0.
Proof.
  revert c. induction l as [|x l IH]; intros c H.
  - destruct c; reflexivity.
  - destruct c as [|c]; simpl.
    + rewrite zsum_zero; [lia|]. apply (Forall_of_nth _ _ 0).
      intros j _. apply (H (S j)). discriminate.
    + rewrite (IH c); [|intros j Hj; apply (H (S j)); congruence].
      pose proof (H 0%nat). simpl in H0. rewrite H0 by discriminate. lia.
Qed.

Lemma nth_column M c j : nth j (map (fun r => nth c r 0) M) 0 = cell M j c.
Proof.
  unfold cell. destruct (Nat.lt_ge_cases j (length M)) as [Hj|Hj].
  - rewrite (nth_indep _ 0 ((fun r => nth c r 0) []))
      by (rewrite length_map; exact Hj).
    apply (map_nth (fun r => nth c r 0)).
  - rewrite nth_overflow by (rewrite length_map; exact Hj).
    rewrite (nth_overflow M) by exact Hj. destruct c; reflexivity.
Qed.

Lemma diagonal_sums M c :
  diagonal M -> row_sum M c = cell M c c /\ col_sum M c = cell M c c.
Proof.
  intros Hd. unfold row_sum, col_sum. split.
  - rewrite (zsum_single _ c); [reflexivity|].
    intros j Hj. apply (Hd c j). congruence.
  - rewrite (zsum_single _ c); [apply nth_column|].
    intros j Hj. rewrite nth_column. apply (Hd j c). exact Hj.
Qed.

Lemma zsum_map_pos {A : Type} (f : A -> Z) l :
  (forall x, In x l -> 0 <= f x) -> 0 < zsum (map f l) ->
  exists x, In x l /\ 0 < f x.
Proof.
  induction l as [|x l IH]; intros Hnn Hpos; simpl in *; [lia|].
  destruct (Z.lt_ge_cases 0 (f x)) as [H|H].
  - exists x. auto.
  - destruct IH as [y [Hin Hy]].
    + intros; apply Hnn; auto.
    + pose proof (Hnn x (or_introl eq_refl)). lia.
    + exists y. auto.
Qed.

(** X7: when the accumulated counts of a well-formed metric object lie on
    the diagonal only (every counted pixel was predicted as its true
    class), at least one pixel was counted and at most 2^53 were (so that
    the float64 sums of the counts are exact), [compute] returns
    accuracy, mean IoU and mean F1 exactly 1; each class that occurs has
    IoU and F1 exactly 1 and each class that does not occur has
    not-a-number. *)
Theorem compute_perfect_prediction self :
  wf_IoU self ->
  nonneg (confusion_matrix self) ->
  diagonal (confusion_matrix self) ->
  0 < sum_all (confusion_matrix self) <= 2 ^ 53 ->
  let M := confusion_matrix self in
  exists snap,
    compute self None = Ok snap /\
    accuracy snap = Fin 1 /\
    miou snap = Fin 1 /\
    f1_mean snap = Fin 1 /\
    forall c, (c < Z.to_nat (num_classes self))%nat ->
      (0 < cell M c c ->
       nth c (classwise_iou snap) NaN = Fin 1 /\
       nth c (classwise_f1 snap) NaN = Fin 1) /\
      (cell M c c = 0 ->
       nth c (classwise_iou snap) NaN = NaN /\
       nth c (classwise_f1 snap) NaN = NaN).
Proof.
  intros [Hn Hsq] Hnn Hd [Hpos _] M. fold M in Hsq, Hnn, Hd, Hpos.
  set (N := Z.to_nat (num_classes self)) in *.
  exists (compute_from M). split; [reflexivity|].
  destruct (compute_from_classwise N M Hsq) as [Li [Lf Hc]].
  pose proof Hsq as [Hl _].
  assert (Hval : forall c, (c < N)%nat ->
            (0 < cell M c c ->
             nth c (classwise_iou (compute_from M)) NaN = Fin 1 /\
             nth c (classwise_f1 (compute_from M)) NaN = Fin 1) /\
            (cell M c c = 0 ->
             nth c (classwise_iou (compute_from M)) NaN = NaN /\
             nth c (classwise_f1 (compute_from M)) NaN = NaN)).
  { intros c Hlt. destruct (Hc c Hlt) as [-> ->].
    destruct (diagonal_sums M c Hd) as [-> ->]. split.
    - intros Hp.
      replace (cell M c c + cell M c c - cell M c c) with (cell M c c) by lia.
      replace (cell M c c + cell M c c) with (2 * cell M c c) by lia.
      split; apply np_div_self; lia.
    - intros ->. split; reflexivity. }
  assert (Htrace : zsum (diag M) = sum_all M).
  { rewrite (sum_all_rows N M Hsq). unfold diag. rewrite Hl. f_equal.
    apply map_ext. intros c. symmetry. apply (diagonal_sums M c Hd). }
  assert (Hex : exists c, (c < N)%nat /\ 0 < cell M c c).
  { rewrite <- Htrace in Hpos. unfold diag in Hpos. rewrite Hl in Hpos.
    destruct (zsum_map_pos (fun i => cell M i i) (seq 0 N)) as [c [Hin Hp]].
    - intros i _. apply nonneg_cell, Hnn.
    - exact Hpos.
    - exists c. apply in_seq in Hin. split; [lia | exact Hp]. }
  destruct Hex as [c0 [Hc0 Hp0]].
  assert (Hmean : forall l, length l = N ->
            (forall c, (c < N)%nat ->
               (0 < cell M c c -> nth c l NaN = Fin 1) /\
               (cell M c c = 0 -> nth c l NaN = NaN)) ->
            nanmean l = Fin 1).
  { intros l Hlen Hl'. apply nanmean_ones.
    - apply (Forall_of_nth _ _ NaN). intros c Hlt. rewrite Hlen in Hlt.
      pose proof (nonneg_cell M c c Hnn).
      destruct (Z.eq_dec (cell M c c) 0) as [E|E].
      + right. apply (Hl' c Hlt), E.
      + left. apply (Hl' c Hlt). lia.
    - apply Exists_exists. exists (Fin 1). split; [|reflexivity].
      rewrite <- (proj1 (Hl' c0 Hc0) Hp0). apply nth_In. lia. }
  split; [|split; [|split; [|exact Hval]]].
  - cbn [compute_from accuracy]. rewrite Htrace. apply np_div_self, Hpos.
  - apply (Hmean _ Li). intros c Hlt. destruct (Hval c Hlt) as [A B].
    split; intros H; [apply A | apply B]; exact H.
  - apply (Hmean _ Lf). intros c Hlt. destruct (Hval c Hlt) as [A B].
    split; intros H; [apply A | apply B]; exact H.
Qed.

Lemma compute_perfect_prediction_witness :
  let M := [[4; 0; 0]; [0; 0; 0]; [0; 0; 7]] in
  exists snap,
    compute (mkIoU 3 M) None = Ok snap /\
    accuracy snap = Fin 1 /\
    miou snap = Fin 1 /\
    f1_mean snap = Fin 1 /\
    forall c, (c < 3)%nat ->
      (0 < cell M c c ->
       nth c (classwise_iou snap) NaN = Fin 1 /\
       nth c (classwise_f1 snap) NaN = Fin 1) /\
      (cell M c c = 0 ->
       nth c (classwise_iou snap) NaN = NaN /\
       nth c (classwise_f1 snap) NaN = NaN).
Proof.
  apply (compute_perfect_prediction (mkIoU 3 [[4; 0; 0]; [0; 0; 0]; [0; 0; 7]])).
  - split; [simpl; lia | split; [reflexivity | repeat constructor]].
  - unfold nonneg; simpl. repeat constructor; lia.
  - intros i j Hij. cbn [confusion_matrix].
    destruct (Nat.lt_ge_cases i 3) as [Hi|Hi];
      [destruct (Nat.lt_ge_cases j 3) as [Hj|Hj]|].
    + destruct i as [|[|[|i]]]; try lia;
        destruct j as [|[|[|j]]]; try lia; try reflexivity; congruence.
    + apply (cell_outside 3); [|right; exact Hj].
      split; [reflexivity | repeat constructor].
    + apply (cell_outside 3); [|left; exact Hi].
      split; [reflexivity | repeat constructor].
  - split; [reflexivity | vm_compute; intro E; discriminate E].
Defined.

(** ** Further properties of the evaluator and the supervisor *)

Section SupervisorFurther.

Variables tensor params ostate sstate duration : Type.
Variable forward : bool -> params -> tensor -> list (list Q).
Variable criterion : list (list Q) -> list Z -> float.
Variable optimizer_step :
  params -> ostate -> tensor -> list Z -> params * ostate.
Variable scheduler_step : sstate -> ostate -> sstate * ostate.
Variable train_duration : Z -> duration.

Local Abbreviation World := (world tensor params ostate sstate duration).
Local Abbreviation Locals := (locals duration).
Local Abbreviation Batch := (batch tensor).
Local Abbreviation eval_loop' := (eval_loop tensor params forward criterion).
Local Abbreviation evaluate_model' :=
  (evaluate_model tensor params forward criterion).
Local Abbreviation scored' := (scored tensor params forward).
Local Abbreviation batch_loss' := (batch_loss tensor params forward criterion).
Local Abbreviation train_batches' :=
  (train_batches tensor params ostate sstate duration forward criterion
                 optimizer_step scheduler_step).
Local Abbreviation epoch_body' :=
  (epoch_body tensor params ostate sstate duration forward criterion
              optimizer_step scheduler_step train_duration).
Local Abbreviation epoch_loop' :=
  (epoch_loop tensor params ostate sstate duration forward criterion
              optimizer_step scheduler_step train_duration).
Local Abbreviation train_validate_model' :=
  (train_validate_model tensor params ostate sstate duration forward
                        criterion optimizer_step scheduler_step
                        train_duration).

Lemma eval_loop_eq model (dataloader : list Batch) :
  forall total m tr,
    eval_loop' model dataloader total m tr
    = (let* m' := update_all m (scored' model dataloader) in
       Ok (fold_left fadd (map (batch_loss' model) dataloader) total,
           m', tr ++ eval_trace dataloader)).
Proof.
  induction dataloader as [|[x l] dl IH]; intros total m tr; simpl.
  - rewrite app_nil_r. reflexivity.
  - destruct (update m (forward false model x) l) as [m1|e]; cbn [bind];
      [|reflexivity].
    rewrite IH. rewrite <- app_assoc. reflexivity.
Qed.

Lemma exact_room_zeros k n : 0 <= k <= 2 ^ 53 -> exact_room k (zeros n).
Proof.
  intros Hk. unfold exact_room, zeros.
  apply Forall_forall. intros r Hr. apply repeat_spec in Hr. subst r.
  apply Forall_forall. intros x Hx. apply repeat_spec in Hx. subst x. lia.
Qed.

Lemma update_all_invariants m bs m' :
  wf_IoU m -> update_all m bs = Ok m' ->
  num_classes m' = num_classes m /\ wf_IoU m' /\
  (nonneg (confusion_matrix m) -> nonneg (confusion_matrix m')) /\
  (forall k', 0 <= k' ->
     exact_room (zsum (map (fun b => valid_pixels (num_classes m) (snd b)) bs)
                 + k') (confusion_matrix m) ->
     sum_all (confusion_matrix m')
     = sum_all (confusion_matrix m)
       + zsum (map (fun b => valid_pixels (num_classes m) (snd b)) bs) /\
     exact_room k' (confusion_matrix m')).
Proof.
  revert m. induction bs as [|[y l] bs IH]; intros m Hwf H; simpl in *.
  - inversion H; subst. split; [reflexivity|]. split; [exact Hwf|].
    split; [auto|]. intros k' Hk' Hroom. split; [lia|].
    exact Hroom.
  - destruct (update m y l) as [m1|e] eqn:E; cbn [bind] in H; [|discriminate].
    destruct (update_effect _ _ _ _ Hwf E)
      as (pl & H0 & _ & _ & HsqH & HnnH & Hsum & Em1).
    assert (En : num_classes m1 = num_classes m) by (subst m1; reflexivity).
    assert (Hwf1 : wf_IoU m1).
    { subst m1. split; [apply Hwf|].
      apply (mat_iadd_square _ _ _ (proj2 Hwf) HsqH). }
    assert (Ec : confusion_matrix m1 = mat_iadd (confusion_matrix m) H0)
      by (subst m1; reflexivity).
    clear Em1.
    destruct (IH m1 Hwf1 H) as [En' [Hwf' [Hnn' Hs']]].
    rewrite En in *.
    split; [exact En'|]. split; [exact Hwf'|]. split.
    + intros Hnn. apply Hnn'. rewrite Ec. apply mat_iadd_nonneg; assumption.
    + intros k' Hk' Hroom.
      set (rest := zsum (map (fun b => valid_pixels (num_classes m) (snd b))
                             bs)) in *.
      assert (Hrest : 0 <= rest).
      { unfold rest. clear. induction bs as [|b bs IHb]; simpl; [lia|].
        pose proof (valid_pixels_nonneg (num_classes m) (snd b)). lia. }
      assert (R : exact_room (sum_all H0 + (rest + k')) (confusion_matrix m))
        by (rewrite Hsum, Z.add_assoc; exact Hroom).
      assert (Hrk : 0 <= rest + k') by lia.
      destruct (mat_iadd_in_room _ _ _ HnnH Hrk R) as [X R'].
      rewrite <- Ec in X. rewrite <- X in R'.
      destruct (Hs' k' Hk' R') as [Hs1 R1].
      split; [|exact R1].
      destruct (mat_add_counts _ _ _ (proj2 Hwf) HsqH HnnH) as (_ & _ & _ & Hs).
      rewrite Hs1, X, Hs, Hsum. lia.
Qed.

Lemma evaluate_model_trace model (dataloader : list Batch) nc v snap tr :
  evaluate_model' model dataloader nc = Ok (v, snap, tr) ->
  tr = eval_trace dataloader.
Proof.
  unfold evaluate_model, IoU_init. intros H.
  destruct (nc <? 0); cbn [bind] in H; [discriminate|].
  rewrite eval_loop_eq in H.
  destruct (update_all _ _) as [m|e]; cbn [bind] in H; [|discriminate].
  destruct (py_truediv _ _) as [q|e]; cbn [bind] in H; [|discriminate].
  inversion H. reflexivity.
Qed.

(** X8: whenever [evaluate_model] returns, the loader had at least one
    batch, the confusion matrix of the snapshot is a square matrix of
    non-negative counts of side [num_classes], and, for a loader of at
    most 2^53 pixels that pass the mask (where the float64 counts are
    exact), its total is the number of pixels of the whole loader whose
    label lies in [0, num_classes): every such pixel is counted exactly
    once, and the pixels with any other label are left out. *)
Theorem evaluate_model_counts_each_pixel_once model (dataloader : list Batch)
  nc v snap tr :
  evaluate_model' model dataloader nc = Ok (v, snap, tr) ->
  dataloader <> [] /\
  0 <= nc /\
  square (Z.to_nat nc) (snap_matrix snap) /\
  nonneg (snap_matrix snap) /\
  (loader_valid_pixels nc dataloader <= 2 ^ 53 ->
   sum_all (snap_matrix snap) = loader_valid_pixels nc dataloader) /\
  tr = eval_trace dataloader.
Proof.
  unfold evaluate_model, IoU_init. intros H.
  destruct (Z.ltb_spec nc 0) as [Hneg|Hn]; cbn [bind] in H; [discriminate|].
  rewrite eval_loop_eq in H.
  destruct (update_all (mkIoU nc (zeros (Z.to_nat nc)))
                       (scored' model dataloader)) as [m|e] eqn:Em;
    cbn [bind] in H; [|discriminate].
  unfold py_truediv in H.
  destruct (Z.eqb_spec (Z.of_nat (length dataloader)) 0) as [E0|E0];
    cbn [bind] in H; [discriminate|].
  inversion H; subst; clear H. cbn [compute_from snap_matrix].
  destruct (update_all_invariants _ _ _ (proj2 (IoU_init_ok nc Hn)) Em)
    as [En [[_ Hsq] [Hnn Hs]]].
  cbn [num_classes confusion_matrix] in En, Hnn, Hs. rewrite En in Hsq.
  split; [intros ->; apply E0; reflexivity|]. split; [exact Hn|].
  split; [exact Hsq|]. split; [|split; [|reflexivity]].
  - apply Hnn. apply (nonneg_of_cells _ _ (zeros_square _)).
    intros i j _ _. rewrite cell_zeros. lia.
  - intros Hbound.
    assert (Hge : 0 <= loader_valid_pixels nc dataloader).
    { unfold loader_valid_pixels. clear.
      induction dataloader as [|b bs IHb]; simpl; [lia|].
      pose proof (valid_pixels_nonneg nc (snd b)). lia. }
    assert (Er : zsum (map (fun b => valid_pixels nc (snd b))
                           (scored' model dataloader))
                 = loader_valid_pixels nc dataloader)
      by (unfold loader_valid_pixels, scored; rewrite map_map; reflexivity).
    destruct (Hs 0 (Z.le_refl 0)) as [Hs0 _].
    { rewrite Er, Z.add_0_r. apply exact_room_zeros. lia. }
    rewrite Hs0, Er.
    rewrite (sum_all_rows _ _ (zeros_square _)).
    rewrite (zsum_map_zero (row_sum (zeros (Z.to_nat nc))))
      by (intros; apply row_sum_zeros).
    reflexivity.
Qed.

(** *** The effects of one epoch *)

Lemma train_batches_trace (dl : list Batch) : forall (w : World) total,
  w_trace (fst (train_batches' w dl total))
  = w_trace w ++ train_trace (is_some (w_lr_scheduler w)) dl /\
  is_some (w_lr_scheduler (fst (train_batches' w dl total)))
  = is_some (w_lr_scheduler w).
Proof.
  induction dl as [|[x lab] dl IH]; intros w total.
  - simpl. rewrite app_nil_r. auto.
  - cbn [train_batches].
    destruct (optimizer_step (w_model w) (w_optimizer w) x lab) as [m' o'].
    destruct (w_lr_scheduler w) as [s|].
    + destruct (scheduler_step s o') as [s' o''].
      match goal with |- context [train_batches' ?w2 dl ?t] =>
        destruct (IH w2 t) as [H1 H2] end.
      rewrite H1, H2. cbn. rewrite <- app_assoc. auto.
    + match goal with |- context [train_batches' ?w2 dl ?t] =>
        destruct (IH w2 t) as [H1 H2] end.
      rewrite H1, H2. cbn. rewrite <- app_assoc. auto.
Qed.

(** One turn of the loop, whenever it returns. *)
Lemma epoch_body_effects dl dv nc es ep (w : World) (l : Locals) w' l' stop :
  epoch_body' dl dv nc es ep w l = Ok (w', l', stop) ->
  exists r,
    epoch r = ep /\
    results l' = results l ++ [r] /\
    w_trace w'
    = w_trace w ++ train_trace (is_some (w_lr_scheduler w)) dl
      ++ eval_trace dv ++ EvSaveLast ep
      :: (if fle (validationLoss r) (min_val_loss l) then [EvSaveBest ep]
          else []) /\
    is_some (w_lr_scheduler w') = is_some (w_lr_scheduler w) /\
    (exists ck,
       w_last w' = Some ck /\ ck_model ck = w_model w' /\
       ck_optimizer ck = w_optimizer w' /\
       ck_lr_scheduler ck = w_lr_scheduler w' /\
       ck_results ck = results l') /\
    (if fle (validationLoss r) (min_val_loss l) then
       min_val_loss l' = validationLoss r /\ best_epoch l' = ep /\
       stop = false /\
       exists ck, w_best w' = Some ck /\ ck_results ck = results l' /\
                  ck_epoch ck = ep /\ ck_min_val_loss ck = validationLoss r
     else
       min_val_loss l' = min_val_loss l /\ best_epoch l' = best_epoch l /\
       w_best w' = w_best w /\
       stop = negb (es =? -1) && (es <? ep - best_epoch l)).
Proof.
  intros H.
  destruct (epoch_body_inv _ _ _ _ _ _ _ _ _ _ _ _ _ _ _ _ _ _ _ _ H)
    as [w1 [total [tl [v [metric [tr [Et [Ed Ee]]]]]]]].
  pose proof (epoch_body_unfold _ _ _ _ _ forward criterion optimizer_step
                scheduler_step train_duration dl dv nc es ep w l
                _ _ _ _ _ _ Et Ed Ee) as E.
  cbv zeta in E. rewrite H in E.
  destruct (train_batches_trace dl w (Fin 0)) as [Htr Hsch].
  destruct (train_batches_files _ _ _ _ _ forward criterion optimizer_step
              scheduler_step dl w (Fin 0)) as [_ Hbest].
  rewrite Et in Htr, Hsch, Hbest. cbn [fst] in Htr, Hsch, Hbest.
  rewrite (evaluate_model_trace _ _ _ _ _ _ Ee) in *.
  exists (record_of train_duration ep tl v metric).
  cbn [record_of epoch validationLoss].
  destruct (fle v (min_val_loss l)); inversion E; subst; clear E;
    cbn [results w_trace w_lr_scheduler w_last w_best w_model w_optimizer
         min_val_loss best_epoch].
  - rewrite Htr. rewrite <- !app_assoc. cbn [app].
    repeat split; auto.
    + eexists. repeat split; reflexivity.
    + eexists. repeat split; reflexivity.
  - rewrite Htr. rewrite <- !app_assoc.
    repeat split; auto.
    eexists. repeat split; reflexivity.
Qed.

Lemma saves_last_train_trace b (dl : list Batch) :
  saves_last (train_trace b dl) = [] /\ saves_best (train_trace b dl) = [].
Proof.
  unfold saves_last, saves_best, train_trace.
  induction dl as [|x dl [IH1 IH2]]; [auto|].
  cbn [flat_map]. rewrite !flat_map_app, IH1, IH2.
  destruct b; auto.
Qed.

Lemma saves_eval_trace (dv : list Batch) :
  saves_last (eval_trace dv) = [] /\ saves_best (eval_trace dv) = [].
Proof.
  unfold saves_last, saves_best, eval_trace.
  induction dv as [|x dv [IH1 IH2]]; [auto|]. simpl. auto.
Qed.

(** X9: a completed epoch does the following, in this order: for each
    training batch a forward pass in training mode and an optimizer step,
    followed by a scheduler step exactly when a scheduler is configured
    (the scheduler is stepped per batch, not per epoch); for each
    validation batch one forward pass in inference mode without gradient
    and no optimizer or scheduler step; one write of "last"; and one write
    of "best" exactly when the validation loss of the epoch is below or
    equal to the former minimum. *)
Theorem epoch_effects_in_order dl dv nc es ep (w : World) (l : Locals)
  w' l' stop :
  epoch_body' dl dv nc es ep w l = Ok (w', l', stop) ->
  exists r,
    results l' = results l ++ [r] /\
    epoch r = ep /\
    w_trace w'
    = w_trace w ++ train_trace (is_some (w_lr_scheduler w)) dl
      ++ eval_trace dv ++ EvSaveLast ep
      :: (if fle (validationLoss r) (min_val_loss l) then [EvSaveBest ep]
          else []).
Proof.
  intros H. destruct (epoch_body_effects _ _ _ _ _ _ _ _ _ _ H)
    as [r [He [Hr [Ht _]]]].
  exists r. auto.
Qed.

(** *** The records of a run *)

Lemma range_prefix a b p rest :
  range a b = p ++ rest ->
  p = range a (a + Z.of_nat (length p)) /\
  a + Z.of_nat (length p) <= Z.max a b.
Proof.
  revert a. induction p as [|x p IH]; intros a H.
  - simpl. rewrite Z.add_0_r, (range_nil a a) by lia. split; [reflexivity | lia].
  - destruct (Z.lt_ge_cases a b) as [Hlt|Hge].
    2:{ rewrite (range_nil a b) in H by lia. discriminate. }
    rewrite (range_cons a b Hlt) in H. inversion H; subst x.
    destruct (IH (a + 1) H2) as [Hp Hle].
    split.
    + rewrite (range_cons a) by (simpl length; lia).
      f_equal. rewrite Hp at 1. f_equal. simpl length. lia.
    + simpl length. lia.
Qed.

Lemma epoch_loop_records dl dv nc es epochs :
  forall (w : World) (l : Locals) w' l',
    epoch_loop' dl dv nc es epochs w l = Ok (w', l') ->
    exists new rest,
      results l' = results l ++ new /\
      epochs = map epoch new ++ rest /\
      saves_last (w_trace w') = saves_last (w_trace w) ++ map epoch new /\
      (es = -1 -> rest = []).
Proof.
  induction epochs as [|ep rest IH]; intros w l w' l' H.
  - simpl in H. inversion H; subst. exists [], [].
    rewrite !app_nil_r. auto.
  - cbn [epoch_loop] in H.
    destruct (epoch_body' dl dv nc es ep w l) as [[[w1 l1] stop]|e] eqn:Eb;
      cbn [bind] in H; [|discriminate].
    destruct (epoch_body_effects _ _ _ _ _ _ _ _ _ _ Eb)
      as [r [He [Hr [Ht [_ [_ Hcase]]]]]].
    assert (Hsl : saves_last (w_trace w1) = saves_last (w_trace w) ++ [ep]).
    { rewrite Ht. rewrite !saves_last_app.
      rewrite (proj1 (saves_last_train_trace _ dl)),
              (proj1 (saves_eval_trace dv)).
      destruct (fle (validationLoss r) (min_val_loss l)); reflexivity. }
    destruct stop.
    + inversion H; subst w' l'. exists [r], rest.
      split; [exact Hr|]. split; [simpl; rewrite He; reflexivity|].
      split; [simpl; rewrite He; exact Hsl|].
      intros ->. destruct (fle (validationLoss r) (min_val_loss l)).
      * destruct Hcase as [_ [_ [C _]]]. discriminate C.
      * destruct Hcase as [_ [_ [_ C]]]. simpl in C. discriminate C.
    + destruct (IH _ _ _ _ H) as [new [rest' [Hn [Hrest [Hs Hes]]]]].
      exists (r :: new), rest'.
      split; [rewrite Hn, Hr, <- app_assoc; reflexivity|].
      split; [simpl; rewrite He, Hrest; reflexivity|].
      split; [|exact Hes].
      rewrite Hs, Hsl, <- app_assoc. simpl. rewrite He. reflexivity.
Qed.

Lemma train_validate_model_inv (w : World) dir num_epochs dl dv nc es w0 res
  rs w' :
  load_last w dir = Ok (w0, res) ->
  train_validate_model' w dir num_epochs dl dv nc es = Ok (Some rs, w') ->
  exists start l0 l',
    resume_point res num_epochs = (start, l0, false) /\
    epoch_loop' dl dv nc es (range start num_epochs) w0 l0 = Ok (w', l') /\
    rs = results l' /\ rs <> [].
Proof.
  intros Hload H. unfold train_validate_model in H. rewrite Hload in H.
  cbn [bind] in H.
  destruct (resume_point res num_epochs) as [[start l0] done].
  cbv beta iota zeta in H.
  destruct done; [discriminate H|].
  destruct (epoch_loop' dl dv nc es (range start num_epochs) w0 l0)
    as [[w1 l1]|e] eqn:El; cbn [bind] in H; [|discriminate H].
  cbv beta iota zeta in H.
  destruct (results l1) as [|r rs'] eqn:Er;
    cbn [plot_training_results bind] in H; [discriminate H|].
  inversion H; subst. exists start, l0, l1. rewrite Er.
  repeat split; auto. discriminate.
Qed.

Lemma resume_point_results (res : list (EpochRecord duration)) num_epochs :
  results (snd (fst (resume_point res num_epochs))) = res.
Proof. destruct res; reflexivity. Qed.

(** X10: whenever [train_validate_model] returns records, they are the
    restored records followed by one new record per executed epoch; the
    new records carry consecutive epoch numbers that begin at the start
    epoch (0, or the last restored epoch plus one) and never go beyond
    the configured number of epochs; "last" was written once per new
    record, in that order; and with the patience left at [-1] every
    epoch up to the configured number was executed. *)
Theorem records_are_consecutive_epochs (w : World) dir num_epochs dl dv nc es
  w0 res rs w' :
  load_last w dir = Ok (w0, res) ->
  train_validate_model' w dir num_epochs dl dv nc es = Ok (Some rs, w') ->
  let start := fst (fst (resume_point res num_epochs)) in
  exists new,
    rs = res ++ new /\
    map epoch new = range start (start + Z.of_nat (length new)) /\
    start + Z.of_nat (length new) <= num_epochs /\
    saves_last (w_trace w') = saves_last (w_trace w0) ++ map epoch new /\
    (es = -1 -> start + Z.of_nat (length new) = num_epochs).
Proof.
  intros Hload H start.
  destruct (train_validate_model_inv _ _ _ _ _ _ _ _ _ _ _ Hload H)
    as [s [l0 [l' [Er [El [-> Hne]]]]]].
  pose proof (resume_point_results res num_epochs) as Hres.
  unfold start. rewrite Er in *. cbn [fst snd] in *.
  destruct (epoch_loop_records _ _ _ _ _ _ _ _ _ El)
    as [new [rest [Hn [Hsplit [Hs Hes]]]]].
  rewrite Hres in Hn. exists new. split; [exact Hn|].
  destruct (range_prefix _ _ _ _ Hsplit) as [Hp Hle].
  rewrite length_map in Hp, Hle.
  assert (Hsle : s <= num_epochs).
  { unfold resume_point in Er. destruct res as [|first rest'].
    - inversion Er; subst s l0. destruct new as [|r new].
      + exfalso. apply Hne. rewrite Hn. reflexivity.
      + destruct (Z.lt_ge_cases 0 num_epochs) as [C|C]; [lia|].
        rewrite (range_nil 0 num_epochs) in Hsplit by lia. discriminate.
    - inversion Er.
      destruct (Z.geb_spec (epoch (last (first :: rest') first) + 1)
                           num_epochs); [discriminate | lia]. }
  split; [exact Hp|]. split; [lia|]. split; [exact Hs|].
  intros Hm. specialize (Hes Hm). subst rest. rewrite app_nil_r in Hsplit.
  assert (Hl : length (range s num_epochs) = length (map epoch new))
    by (rewrite Hsplit; reflexivity).
  unfold range in Hl. rewrite !length_map, length_seq in Hl. lia.
Qed.

(** *** The "best" checkpoint *)

Lemma fle_true_nonnan x y :
  fle x y = true -> isnan x = false /\ isnan y = false.
Proof. destruct x, y; simpl; try discriminate; auto. Qed.

Lemma fle_refl_nonnan x : isnan x = false -> fle x x = true.
Proof.
  destruct x; simpl; try discriminate; auto.
  intros _. apply Qle_bool_iff, Qle_refl.
Qed.

Lemma fle_total x y :
  isnan x = false -> isnan y = false -> fle x y = false -> fle y x = true.
Proof.
  destruct x as [a| | |], y as [b| | |]; simpl; try discriminate; auto.
  intros _ _ H. apply Qle_bool_iff.
  destruct (Qlt_le_dec b a) as [L|L]; [apply Qlt_le_weak, L|].
  apply Qle_bool_iff in L. congruence.
Qed.

Lemma best_inv_step dl dv nc es ep (w : World) (l : Locals) w' l' stop :
  best_inv w l ->
  epoch_body' dl dv nc es ep w l = Ok (w', l', stop) ->
  best_inv w' l'.
Proof.
  intros [Hb Hm] H.
  destruct (epoch_body_effects _ _ _ _ _ _ _ _ _ _ H)
    as [r [He [Hr [_ [_ [_ Hcase]]]]]].
  destruct (fle (validationLoss r) (min_val_loss l)) eqn:Hle.
  - destruct Hcase as [Hmin [_ [_ [ck [Hck [Hres [Hep Hckm]]]]]]].
    destruct (fle_true_nonnan _ _ Hle) as [Hnn _].
    unfold best_inv. rewrite Hck, Hr. split; [|congruence].
    exists r, (results l), []. rewrite Hres, Hr, Hep, He, Hckm.
    repeat split; auto.
    apply Forall_app. split; [|repeat constructor;
                               intros _; apply fle_refl_nonnan, Hnn].
    destruct (w_best w) as [ck0|].
    + destruct Hb as [r0 [pre [post [_ [_ [_ [E0 [_ [Hall _]]]]]]]]].
      rewrite Hm, E0 in Hle.
      eapply Forall_impl; [|exact Hall]. simpl. intros r' Hr' Hn'.
      eapply fle_trans; [exact Hle | apply Hr', Hn'].
    + eapply Forall_impl; [|exact Hb]. simpl. intros r' Hr' Hn'. congruence.
  - destruct Hcase as [Hmin [_ [Hbest _]]].
    unfold best_inv. rewrite Hbest, Hr, Hmin. split; [|exact Hm].
    destruct (w_best w) as [ck0|]; cbn [best_is_latest_minimum] in *.
    + destruct Hb as [r0 [pre [post [E [Er [Eep [E0 [Hn0 [Hall Hpost]]]]]]]]].
      rewrite Hm, E0 in Hle.
      exists r0, pre, (post ++ [r]). rewrite E, <- app_assoc.
      repeat split; auto.
      * rewrite app_assoc. apply Forall_app. split.
        -- rewrite <- E. exact Hall.
        -- repeat constructor. intros Hn. apply fle_total; assumption.
      * apply Forall_app. split; [exact Hpost | repeat constructor; exact Hle].
    + apply Forall_app. split; [exact Hb|]. repeat constructor.
      rewrite Hm in Hle. destruct (isnan (validationLoss r)) eqn:Hn; auto.
      rewrite (fle_PInf _ Hn) in Hle. discriminate.
Qed.

Lemma best_inv_loop dl dv nc es epochs :
  forall (w : World) (l : Locals) w' l',
    best_inv w l ->
    epoch_loop' dl dv nc es epochs w l = Ok (w', l') ->
    best_inv w' l'.
Proof.
  induction epochs as [|ep rest IH]; intros w l w' l' Hinv H.
  - simpl in H. inversion H; subst. exact Hinv.
  - cbn [epoch_loop] in H.
    destruct (epoch_body' dl dv nc es ep w l) as [[[w1 l1] stop]|e] eqn:Eb;
      cbn [bind] in H; [|discriminate].
    pose proof (best_inv_step _ _ _ _ _ _ _ _ _ _ Hinv Eb) as Hinv1.
    destruct stop; [inversion H; subst; exact Hinv1|].
    apply (IH _ _ _ _ Hinv1 H).
Qed.

(** X11: in a run that starts without checkpoints and returns its
    records, the "best" file is absent exactly when every validation loss
    was not-a-number; otherwise it was written at the record with the
    least validation loss of the run, the latest one among ties: it holds
    the records up to that one, its epoch and its loss, which is below or
    equal to every loss that is a number and which no later epoch
    reached. *)
Theorem best_checkpoint_is_latest_minimum (w : World) dir num_epochs
  dl dv nc es rs w' :
  dir = NoFolder \/ dir = Folder None None ->
  train_validate_model' w dir num_epochs dl dv nc es = Ok (Some rs, w') ->
  best_is_latest_minimum (w_best w') rs.
Proof.
  intros Hdir H.
  assert (Hload : load_last w dir
                  = Ok (mkWorld (w_model w) (w_optimizer w) (w_lr_scheduler w)
                                None None (w_trace w), []))
    by (destruct Hdir as [-> | ->]; reflexivity).
  destruct (train_validate_model_inv _ _ _ _ _ _ _ _ _ _ _ Hload H)
    as [s [l0 [l' [Er [El [-> _]]]]]].
  cbn [resume_point] in Er. inversion Er; subst s l0.
  refine (proj1 (best_inv_loop _ _ _ _ _ _ _ _ _ _ El)).
  split; [constructor | reflexivity].
Qed.

(** *** Interrupting and resuming *)










(** *** The best epoch after a resume *)

Lemma Qlt_of_flt (a b : Q) : negb (Qle_bool b a) = true <-> (a < b)%Q.
Proof.
  rewrite negb_true_iff. split; intros H.
  - apply Qnot_le_lt. intros L. apply Qle_bool_iff in L. congruence.
  - destruct (Qle_bool b a) eqn:E; [|reflexivity].
    apply Qle_bool_iff in E. exfalso. exact (Qlt_not_le _ _ H E).
Qed.

Lemma flt_trans x y z : flt x y = true -> flt y z = true -> flt x z = true.
Proof.
  destruct x as [a| | |], y as [b| | |], z as [c| | |]; simpl;
    try discriminate; auto.
  intros H1 H2. apply Qlt_of_flt in H1, H2. apply Qlt_of_flt.
  eapply Qlt_trans; eassumption.
Qed.

Lemma flt_fle_trans x y z :
  flt x y = true -> fle y z = true -> flt x z = true.
Proof.
  destruct x as [a| | |], y as [b| | |], z as [c| | |]; simpl;
    try discriminate; auto.
  intros H1 H2. apply Qlt_of_flt in H1. apply Qle_bool_iff in H2.
  apply Qlt_of_flt. eapply Qlt_le_trans; eassumption.
Qed.

Lemma py_min_from_earliest (rest : list (EpochRecord duration)) :
  forall pre0 best mid,
    Forall (fun r => isnan (validationLoss r) = false) (best :: mid ++ rest) ->
    Forall (fun r => flt (validationLoss best) (validationLoss r) = true) pre0 ->
    Forall (fun r => fle (validationLoss best) (validationLoss r) = true) mid ->
    exists pre post,
      pre0 ++ best :: mid ++ rest = pre ++ py_min_from best rest :: post /\
      Forall (fun r => flt (validationLoss (py_min_from best rest))
                           (validationLoss r) = true) pre /\
      Forall (fun r => fle (validationLoss (py_min_from best rest))
                           (validationLoss r) = true) post.
Proof.
  induction rest as [|r rest IH]; intros pre0 best mid Hnn Hpre Hmid.
  - exists pre0, mid. rewrite app_nil_r. simpl. auto.
  - simpl py_min_from.
    assert (Hb : isnan (validationLoss best) = false)
      by (inversion Hnn; assumption).
    assert (Hrn : isnan (validationLoss r) = false).
    { inversion Hnn as [|? ? _ Hrest]; subst.
      apply Forall_app in Hrest. destruct Hrest as [_ Hrest].
      inversion Hrest; assumption. }
    assert (Hrestn : Forall (fun r => isnan (validationLoss r) = false) rest).
    { inversion Hnn as [|? ? _ Hrest]; subst.
      apply Forall_app in Hrest. destruct Hrest as [_ Hrest].
      inversion Hrest; assumption. }
    assert (Hmidn : Forall (fun r => isnan (validationLoss r) = false) mid).
    { inversion Hnn as [|? ? _ Hrest]; subst.
      apply Forall_app in Hrest. destruct Hrest as [Hrest _]. exact Hrest. }
    destruct (flt (validationLoss r) (validationLoss best)) eqn:E.
    + destruct (IH (pre0 ++ best :: mid) r []) as [pre [post [Heq [H1 H2]]]].
      * constructor; assumption.
      * apply Forall_app. split.
        -- eapply Forall_impl; [|exact Hpre]. simpl. intros x Hx.
           eapply flt_trans; eassumption.
        -- constructor; [exact E|].
           eapply Forall_impl; [|exact Hmid]. simpl. intros x Hx.
           eapply flt_fle_trans; eassumption.
      * constructor.
      * exists pre, post. split; [|auto].
        rewrite <- Heq. rewrite <- app_assoc. reflexivity.
    + destruct (IH pre0 best (mid ++ [r])) as [pre [post [Heq [H1 H2]]]].
      * constructor; [exact Hb|]. rewrite <- app_assoc.
        apply Forall_app. split; [exact Hmidn|]. constructor; assumption.
      * exact Hpre.
      * apply Forall_app. split; [exact Hmid|]. constructor; [|constructor].
        apply flt_false_fle; assumption.
      * exists pre, post. split; [|auto].
        rewrite <- Heq. rewrite <- app_assoc. reflexivity.
Qed.

(** X13: on a resume from records whose validation losses are all
    numbers, the best epoch and the minimum validation loss are those of
    the earliest record that has the least loss: every record before it
    has a strictly greater loss and every record after it a greater or
    equal one.  (The running loop keeps the latest epoch among ties, so
    after a tie a resumed run counts the patience from an earlier epoch
    than the uninterrupted run does.) *)
Theorem resume_takes_earliest_minimum (res : list (EpochRecord duration))
  num_epochs d :
  res <> [] ->
  Forall (fun r => isnan (validationLoss r) = false) res ->
  exists pre m post,
    res = pre ++ m :: post /\
    resume_point res num_epochs
    = (epoch (last res d) + 1,
       mkLocals res (validationLoss m) (epoch m),
       epoch (last res d) + 1 >=? num_epochs) /\
    Forall (fun r => flt (validationLoss m) (validationLoss r) = true) pre /\
    Forall (fun r => fle (validationLoss m) (validationLoss r) = true) post.
Proof.
  intros Hne Hnn. destruct res as [|first rest]; [congruence|].
  destruct (py_min_from_earliest rest [] first [])
    as [pre [post [Heq [H1 H2]]]]; auto.
  exists pre, (py_min_from first rest), post.
  split; [exact Heq|]. split; [|auto].
  unfold resume_point. rewrite (last_indep _ first d Hne). reflexivity.
Qed.

(** *** Loaders without batches *)

(** X14: when at least one epoch is to be trained, a training loader
    without batches makes [train_validate_model] raise
    [ZeroDivisionError] in the first epoch, and so does, for a
    non-negative number of classes, a validation loader without batches
    after the training phase of the first epoch: nothing is returned. *)
Theorem empty_loader_raises (w : World) dir w0 res num_epochs dl dv nc es d :
  load_last w dir = Ok (w0, res) ->
  0 < num_epochs ->
  res = [] \/ epoch (last res d) + 1 < num_epochs ->
  dl = [] \/ (dv = [] /\ 0 <= nc) ->
  train_validate_model' w dir num_epochs dl dv nc es
  = Raise ZeroDivisionError.
Proof.
  intros Hload Hpos Hcase Hempty. unfold train_validate_model.
  rewrite Hload. cbn [bind].
  assert (E : exists start l0,
             resume_point res num_epochs = (start, l0, false) /\
             start < num_epochs).
  { destruct res as [|first rest] eqn:Eres.
    - exists 0, (mkLocals [] PInf (-1)). auto.
    - destruct Hcase as [Hc|Hc]; [discriminate|].
      destruct (resume_point_nonempty _ (first :: rest) num_epochs d)
        as [m [_ [E _]]]; [discriminate|].
      do 2 eexists. rewrite E.
      destruct (Z.geb_spec (epoch (last (first :: rest) d) + 1) num_epochs);
        [lia|]. auto. }
  destruct E as [start [l0 [-> Hlt]]].
  rewrite (range_cons _ _ Hlt). cbn [epoch_loop]. unfold epoch_body.
  destruct Hempty as [-> | [-> Hnc]].
  - reflexivity.
  - destruct (train_batches' w0 dl (Fin 0)) as [w1 total].
    destruct (py_truediv total (Z.of_nat (length dl))) as [tl|e] eqn:Ed.
    + cbn [bind]. unfold evaluate_model.
      rewrite (proj1 (IoU_init_ok nc Hnc)). reflexivity.
    + unfold py_truediv in Ed.
      destruct (Z.of_nat (length dl) =? 0); inversion Ed. reflexivity.
Qed.

End SupervisorFurther.

(** ** Two calls and their clocks *)

Section Durations.

Variables tensor params ostate sstate duration : Type.
Variable forward : bool -> params -> tensor -> list (list Q).
Variable criterion : list (list Q) -> list Z -> float.
Variable optimizer_step :
  params -> ostate -> tensor -> list Z -> params * ostate.
Variable scheduler_step : sstate -> ostate -> sstate * ostate.
Variable clock : Z -> duration.

Local Abbreviation World := (world tensor params ostate sstate duration).
Local Abbreviation Locals := (locals duration).
Local Abbreviation Batch := (batch tensor).
Local Abbreviation no_clock := (fun _ : Z => tt).









End Durations.



(** The durations of the resumed call are its own: the records of the
    epochs 1 and 2 carry what the second clock measured. *)
Example resumed_records_keep_their_clock :
  exists rs1 w1 rs2 w2,
    clocked_run (fun _ => 10) NoFolder 1 = Ok (Some rs1, w1) /\
    clocked_run (fun ep => 20 + ep) (Folder (w_last w1) (w_best w1)) 3
    = Ok (Some rs2, w2) /\
    map duration_train rs2 = [10; 21; 22] /\
    map duration_train clocked_records3 = [10; 10; 10].
Proof.
  do 4 eexists. split; [vm_compute; reflexivity|].
  split; [vm_compute; reflexivity|]. split; reflexivity.
Qed.

(** ** The further statements at the instances *)

Lemma evaluate_model_counts_each_pixel_once_witness :
  [(3%nat, [0; 5; 0]); (1%nat, [0])] <> [] /\
  square (Z.to_nat 2) (snap_matrix (compute_from [[3; 0]; [0; 0]])) /\
  nonneg (snap_matrix (compute_from [[3; 0]; [0; 0]])) /\
  sum_all (snap_matrix (compute_from [[3; 0]; [0; 0]]))
  = loader_valid_pixels 2 [(3%nat, [0; 5; 0]); (1%nat, [0])] /\
  [EvForward false false 3%nat; EvForward false false 1%nat]
  = eval_trace [(3%nat, [0; 5; 0]); (1%nat, [0])].
Proof.
  destruct (evaluate_model_counts_each_pixel_once nat unit px_forward
              px_criterion tt [(3%nat, [0; 5; 0]); (1%nat, [0])] 2 (Fin 2)
              (compute_from [[3; 0]; [0; 0]])
              [EvForward false false 3%nat; EvForward false false 1%nat])
    as (Hne & _ & Hsq & Hnn & Hsum & Htr).
  - vm_compute. reflexivity.
  - split; [exact Hne|]. split; [exact Hsq|]. split; [exact Hnn|].
    split; [|exact Htr].
    apply Hsum. vm_compute. intro E. discriminate E.
Defined.

Lemma epoch_effects_in_order_witness :
  let r4 := mkRecord 4 (Fin (23#50)) (Fin (47#100)) (compute_from [[1]]) tt in
  let l := mkLocals (duration := unit) [] (Fin (2#5)) 1 in
  let w := mkWorld (tensor := unit) (sstate := unit) (duration := unit)
                   4%nat tt None None None [] in
  let w' := mkWorld (tensor := unit) (sstate := unit) 5%nat tt None
              (Some (mkCheckpoint 5%nat (Some 5%nat) tt (Some tt) None
                                  (Fin (2#5)) [r4] 4))
              None
              [EvForward true true tt; EvOptimizerStep;
               EvForward false false tt; EvSaveLast 4] in
  let l' := mkLocals [r4] (Fin (2#5)) 1 in
  exists r,
    results l' = results l ++ [r] /\
    epoch r = 4 /\
    w_trace w'
    = w_trace w ++ train_trace (is_some (w_lr_scheduler w)) toy_loader
      ++ eval_trace toy_loader ++ EvSaveLast 4
      :: (if fle (validationLoss r) (min_val_loss l) then [EvSaveBest 4]
          else []).
Proof.
  intros r4 l w w' l'.
  apply (epoch_effects_in_order unit nat unit unit unit
           (toy_forward table_patience) toy_criterion toy_optimizer_step
           toy_scheduler_step toy_duration toy_loader toy_loader 1 2 4
           w l w' l' true).
  reflexivity.
Defined.

Lemma records_are_consecutive_epochs_witness :
  let start := fst (fst (resume_point (duration := unit) [] 3)) in
  exists new,
    toy_records3 = [] ++ new /\
    map epoch new = range start (start + Z.of_nat (length new)) /\
    start + Z.of_nat (length new) <= 3 /\
    saves_last (w_trace toy_world3)
    = saves_last (w_trace toy_world) ++ map epoch new /\
    (-1 = -1 -> start + Z.of_nat (length new) = 3).
Proof.
  apply (records_are_consecutive_epochs unit nat unit unit unit
           (toy_forward table_patience) toy_criterion toy_optimizer_step
           toy_scheduler_step toy_duration toy_world NoFolder 3
           toy_loader toy_loader 1 (-1) toy_world [] toy_records3 toy_world3).
  - reflexivity.
  - vm_compute. reflexivity.
Defined.

Lemma best_checkpoint_is_latest_minimum_witness :
  best_is_latest_minimum (w_best toy_world3) toy_records3.
Proof.
  apply (best_checkpoint_is_latest_minimum unit nat unit unit unit
           (toy_forward table_patience) toy_criterion toy_optimizer_step
           toy_scheduler_step toy_duration toy_world NoFolder 3
           toy_loader toy_loader 1 (-1) toy_records3 toy_world3).
  - left. reflexivity.
  - vm_compute. reflexivity.
Defined.

Lemma resume_takes_earliest_minimum_witness :
  exists pre m post,
    [toy_record0; toy_record1] = pre ++ m :: post /\
    resume_point [toy_record0; toy_record1] 5
    = (epoch (last [toy_record0; toy_record1] toy_record0) + 1,
       mkLocals [toy_record0; toy_record1] (validationLoss m) (epoch m),
       epoch (last [toy_record0; toy_record1] toy_record0) + 1 >=? 5) /\
    Forall (fun r => flt (validationLoss m) (validationLoss r) = true) pre /\
    Forall (fun r => fle (validationLoss m) (validationLoss r) = true) post.
Proof.
  apply (resume_takes_earliest_minimum unit [toy_record0; toy_record1] 5
                                       toy_record0).
  - discriminate.
  - repeat constructor.
Defined.

(** On the two tied records the resume takes epoch 0 as the best epoch,
    where the loop that produced them had ended with epoch 1. *)
Example resume_after_tie_takes_first_epoch :
  resume_point [toy_record0; toy_record1] 5
  = (2, mkLocals [toy_record0; toy_record1] (Fin (1#2)) 0, false) /\
  (exists rs w, toy_run table_tie NoFolder 2 (-1) = Ok (Some rs, w) /\
                rs = [toy_record0; toy_record1] /\
                option_map ck_epoch (w_best w) = Some 1).
Proof.
  split; [reflexivity|].
  do 2 eexists. split; [vm_compute; reflexivity|]. split; reflexivity.
Qed.

Lemma empty_loader_raises_witness :
  train_validate_model unit nat unit unit unit (toy_forward table_tie)
    toy_criterion toy_optimizer_step toy_scheduler_step toy_duration
    toy_world NoFolder 2 [] toy_loader 1 (-1)
  = Raise ZeroDivisionError.
Proof.
  apply (empty_loader_raises unit nat unit unit unit (toy_forward table_tie)
           toy_criterion toy_optimizer_step toy_scheduler_step toy_duration
           toy_world NoFolder toy_world [] 2 [] toy_loader 1 (-1) toy_record0).
  - reflexivity.
  - lia.
  - left. reflexivity.
  - left. reflexivity.
Defined.

(** * The data utilities *)

Lemma lookup_in {V : Type} (d : list (String.string * V)) key v :
  DataUtils.lookup d key = Some v -> In (key, v) d.
Proof.
  induction d as [|[k w] d IH]; simpl; intro H; [discriminate H|].
  destruct (String.eqb k key) eqn:E.
  - apply String.eqb_eq in E. inversion H. subst. now left.
  - right. now apply IH.
Qed.

Section Normalisation.

Local Open Scope Q_scope.

Lemma norms_std_nonzero name mean std :
  DataUtils.lookup DataUtils.norms name = Some (mean, std) ->
  ~ DataUtils.red std == 0 /\ ~ DataUtils.green std == 0 /\
  ~ DataUtils.blue std == 0.
Proof.
  intro H. apply lookup_in in H. simpl in H.
  repeat (destruct H as [H|H];
          [inversion H; subst; repeat split; intro E; discriminate E|]).
  destruct H.
Qed.

Lemma Normalize_round_trip (mean std x : DataUtils.rgb Q) :
  ~ DataUtils.red std == 0 -> ~ DataUtils.green std == 0 ->
  ~ DataUtils.blue std == 0 ->
  let inv_mean := (- DataUtils.red mean / DataUtils.red std,
                   - DataUtils.green mean / DataUtils.green std,
                   - DataUtils.blue mean / DataUtils.blue std) in
  let inv_std := (1 / DataUtils.red std, 1 / DataUtils.green std,
                  1 / DataUtils.blue std) in
  DataUtils.rgb_eq
    (DataUtils.Normalize inv_mean inv_std (DataUtils.Normalize mean std x)) x /\
  DataUtils.rgb_eq
    (DataUtils.Normalize mean std (DataUtils.Normalize inv_mean inv_std x)) x.
Proof.
  destruct mean as [[mr mg] mb], std as [[sr sg] sb], x as [[xr xg] xb].
  unfold DataUtils.rgb_eq, DataUtils.Normalize, DataUtils.red,
    DataUtils.green, DataUtils.blue; simpl.
  intros Hr Hg Hb. repeat split; field; auto.
Qed.

(** X15: for every dataset argument, a name of the table, any other name
    or none, [inverse_transform] undoes [normalize_images] on every pixel
    and the other way round, in exact arithmetic: the fallback constants
    of the two functions agree with each other.  The fallback, taken for
    no name, is not the table's entry for imagenet: its red and blue
    channels coincide with it, its green channel lies 13/28 below it on
    every pixel. *)
Theorem inverse_transform_undoes_normalize_images
  (dataset : option String.string) (x : DataUtils.rgb Q) :
  DataUtils.rgb_eq
    (DataUtils.inverse_transform dataset (DataUtils.normalize_images dataset x))
    x /\
  DataUtils.rgb_eq
    (DataUtils.normalize_images dataset (DataUtils.inverse_transform dataset x))
    x /\
  (let own := DataUtils.normalize_images None x in
   let net := DataUtils.normalize_images DataUtils.imagenet x in
   DataUtils.red own == DataUtils.red net /\
   DataUtils.green own == DataUtils.green net - (13 # 28) /\
   DataUtils.blue own == DataUtils.blue net).
Proof.
  assert (Hnet : let own := DataUtils.normalize_images None x in
                 let net := DataUtils.normalize_images DataUtils.imagenet x in
                 DataUtils.red own == DataUtils.red net /\
                 DataUtils.green own == DataUtils.green net - (13 # 28) /\
                 DataUtils.blue own == DataUtils.blue net).
  { destruct x as [[xr xg] xb].
    unfold DataUtils.normalize_images, DataUtils.Normalize, DataUtils.red,
      DataUtils.green, DataUtils.blue; simpl.
    repeat split; field. }
  unfold DataUtils.inverse_transform, DataUtils.normalize_images.
  destruct (DataUtils.norms_entry dataset) as [[mean std]|] eqn:E.
  - assert (Hs : DataUtils.lookup DataUtils.norms
                   match dataset with Some n => n | None => String.EmptyString end
                 = Some (mean, std)).
    { destruct dataset; [exact E | discriminate E]. }
    destruct (norms_std_nonzero _ _ _ Hs) as (Hr & Hg & Hb).
    destruct (Normalize_round_trip mean std x Hr Hg Hb) as [H1 H2].
    split; [exact H1|]. split; [exact H2|]. exact Hnet.
  - assert (Hr : ~ 0.229 == 0) by (intro H; discriminate H).
    assert (Hg : ~ 0.224 == 0) by (intro H; discriminate H).
    assert (Hb : ~ 0.225 == 0) by (intro H; discriminate H).
    destruct (Normalize_round_trip (0.485, 0.56, 0.406) (0.229, 0.224, 0.225)
                x Hr Hg Hb) as [H1 H2].
    split; [exact H1|]. split; [exact H2|]. exact Hnet.
Qed.

End Normalisation.

(** ** Colour masks and palettes *)

Lemma rgb_to_2D_label_cons p (label : list DataUtils.pixel) :
  DataUtils.rgb_to_2D_label (p :: label) =
  DataUtils.rgb_to_2D_label [p] ++ DataUtils.rgb_to_2D_label label.
Proof. reflexivity. Qed.

Lemma mask_labels_cons p (mask : list DataUtils.pixel) :
  DataUtils.mask_labels 6 (p :: mask) =
  DataUtils.mask_labels 6 [p] ++ DataUtils.mask_labels 6 mask.
Proof.
  unfold DataUtils.mask_labels. cbn [Nat.eqb].
  rewrite rgb_to_2D_label_cons, map_app. reflexivity.
Qed.

Lemma pixel_eqb_eq (p q : DataUtils.pixel) :
  DataUtils.pixel_eqb p q = true <-> p = q.
Proof.
  destruct p as [[a b] c], q as [[a' b'] c'].
  unfold DataUtils.pixel_eqb, DataUtils.red, DataUtils.green, DataUtils.blue.
  simpl. rewrite !andb_true_iff, !Z.eqb_eq. split.
  - intros [[-> ->] ->]. reflexivity.
  - intro H. inversion H. auto.
Qed.

Lemma pixel_eqb_neq (p q : DataUtils.pixel) :
  DataUtils.pixel_eqb p q = false <-> p <> q.
Proof.
  rewrite <- pixel_eqb_eq. destruct (DataUtils.pixel_eqb p q); split;
    congruence.
Qed.

(** The label of one pixel: the index of its colour in the palette, and 0
    for every other colour. *)
Lemma mask_labels_one (p : DataUtils.pixel) :
  exists k, DataUtils.mask_labels 6 [p] = [k] /\ 0 <= k < 6 /\
    (p = DataUtils.Impervious -> k = 0) /\
    (p = DataUtils.Building -> k = 1) /\
    (p = DataUtils.Vegetation -> k = 2) /\
    (p = DataUtils.Tree -> k = 3) /\
    (p = DataUtils.Car -> k = 4) /\
    (p = DataUtils.Clutter -> k = 5) /\
    (p <> DataUtils.Building -> p <> DataUtils.Vegetation ->
     p <> DataUtils.Tree -> p <> DataUtils.Car -> p <> DataUtils.Clutter ->
     k = 0).
Proof.
  unfold DataUtils.mask_labels, DataUtils.rgb_to_2D_label,
    DataUtils.assign_where. cbn [Nat.eqb map zipWith].
  destruct (DataUtils.pixel_eqb p DataUtils.Clutter) eqn:E5;
    [|destruct (DataUtils.pixel_eqb p DataUtils.Car) eqn:E4;
      [|destruct (DataUtils.pixel_eqb p DataUtils.Tree) eqn:E3;
        [|destruct (DataUtils.pixel_eqb p DataUtils.Vegetation) eqn:E2;
          [|destruct (DataUtils.pixel_eqb p DataUtils.Building) eqn:E1;
            [|destruct (DataUtils.pixel_eqb p DataUtils.Impervious) eqn:E0]]]]];
    eexists; (split; [reflexivity|]); (split; [cbn; lia|]);
    repeat match goal with
           | H : DataUtils.pixel_eqb _ _ = true |- _ =>
               apply pixel_eqb_eq in H
           | H : DataUtils.pixel_eqb _ _ = false |- _ =>
               apply pixel_eqb_neq in H
           end;
    subst; cbn; repeat split; intros; try reflexivity; try congruence;
    try discriminate.
Qed.

Lemma mask_labels_length (mask : list DataUtils.pixel) :
  length (DataUtils.mask_labels 6 mask) = length mask.
Proof.
  induction mask as [|p mask IH]; [reflexivity|].
  rewrite mask_labels_cons.
  destruct (mask_labels_one p) as (k & -> & _). simpl. now rewrite IH.
Qed.

Lemma mask_labels_valid (mask : list DataUtils.pixel) :
  Forall (fun t => valid_label 6 t = true) (DataUtils.mask_labels 6 mask).
Proof.
  induction mask as [|p mask IH]; [constructor|].
  rewrite mask_labels_cons.
  destruct (mask_labels_one p) as (k & -> & Hk & _). simpl.
  constructor; [|exact IH].
  unfold valid_label. apply andb_true_iff. split; [apply Z.leb_le | apply Z.ltb_lt]; lia.
Qed.

Lemma filter_all {A : Type} (f : A -> bool) (l : list A) :
  Forall (fun x => f x = true) l -> filter f l = l.
Proof.
  induction 1 as [|x l Hx _ IH]; [reflexivity|].
  simpl. rewrite Hx, IH. reflexivity.
Qed.

(** X16: the label image of a six-class dataset, whatever the colours of
    the mask: it has one label per pixel, every label is a class index
    below six, so that a metric object of six classes counts every pixel
    of it, and a pixel of a colour outside the palette is labelled 0, as
    the impervious surfaces are. *)
Theorem six_class_mask_labels_are_class_indices
  (mask : list DataUtils.pixel) :
  let labels := DataUtils.mask_labels 6 mask in
  length labels = length mask /\
  Forall (fun t => valid_label 6 t = true) labels /\
  valid_pixels 6 labels = Z.of_nat (length mask) /\
  (forall i p, nth_error mask i = Some p ->
     ~ In p [DataUtils.Impervious; DataUtils.Building; DataUtils.Vegetation;
             DataUtils.Tree; DataUtils.Car; DataUtils.Clutter] ->
     nth_error labels i = Some 0).
Proof.
  cbv zeta. split; [apply mask_labels_length|].
  split; [apply mask_labels_valid|].
  split.
  { unfold valid_pixels.
    rewrite (filter_all _ _ (mask_labels_valid mask)), mask_labels_length.
    reflexivity. }
  induction mask as [|q mask IH]; intros i p Hi Hp.
  - destruct i; discriminate Hi.
  - rewrite mask_labels_cons.
    destruct (mask_labels_one q) as (k & -> & _ & _ & _ & _ & _ & _ & _ & H0).
    destruct i as [|i]; simpl in *.
    + inversion Hi; subst q. f_equal.
      apply H0; intro E; apply Hp; subst p; tauto.
    + now apply (IH i p).
Qed.

Lemma combine_fst_snd {A B : Type} (l : list A) (l' : list B) :
  length l = length l' ->
  map fst (combine l l') = l /\ map snd (combine l l') = l'.
Proof.
  revert l'. induction l as [|a l IH]; intros [|b l'] H; try discriminate H.
  - now split.
  - simpl. injection H as H. destruct (IH l' H) as [-> ->]. now split.
Qed.

(** X17: for a list of six class names, [train_id_to_color] gives the
    six colours of the mask decoding in the order of their labels, and a
    legend that pairs them with the class names in order.  Colouring and
    decoding are inverse to each other: the plot of a label image with
    labels below six decodes to the label image, and a mask in the
    colours of the palette is the plot of its own label image. *)
Theorem six_class_palette_inverts_mask_decoding
  (classes : list String.string) (Hlen : length classes = 6%nat) :
  let palette := [DataUtils.Impervious; DataUtils.Building;
                  DataUtils.Vegetation; DataUtils.Tree; DataUtils.Car;
                  DataUtils.Clutter] in
  exists legend,
    DataUtils.train_id_to_color classes = Some (palette, legend) /\
    map fst legend = palette /\ map snd legend = classes /\
    (forall labels, Forall (fun t => valid_label 6 t = true) labels ->
       exists image, DataUtils.colorize palette labels = Ok image /\
                     DataUtils.mask_labels 6 image = labels) /\
    (forall mask, Forall (fun p => In p palette) mask ->
       DataUtils.colorize palette (DataUtils.mask_labels 6 mask) = Ok mask).
Proof.
  cbv zeta. eexists. unfold DataUtils.train_id_to_color. rewrite Hlen.
  split; [reflexivity|].
  match goal with
  | |- map fst (combine ?l ?c) = _ /\ _ =>
      destruct (combine_fst_snd l c) as [Hf Hs]; [now rewrite Hlen|]
  end.
  split; [exact Hf|]. split; [exact Hs|]. clear Hf Hs. split.
  - induction 1 as [|k labels Hk _ IH].
    + exists []. now split.
    + destruct IH as (image & Him & Hdec).
      unfold valid_label in Hk. apply andb_true_iff in Hk.
      destruct Hk as [H0 H6]. apply Z.leb_le in H0. apply Z.ltb_lt in H6.
      unfold DataUtils.colorize in *. cbn [mapM]. rewrite Him.
      assert (Hc : k = 0 \/ k = 1 \/ k = 2 \/ k = 3 \/ k = 4 \/ k = 5) by lia.
      destruct Hc as [->|[->|[->|[->|[->| ->]]]]];
        (eexists; split; [reflexivity|]);
        rewrite mask_labels_cons, Hdec; reflexivity.
  - induction 1 as [|p mask Hp _ IH]; [reflexivity|].
    rewrite mask_labels_cons. unfold DataUtils.colorize in *.
    simpl in Hp.
    destruct Hp as [<-|[<-|[<-|[<-|[<-|[<-|[]]]]]]];
      cbn [DataUtils.mask_labels Nat.eqb DataUtils.rgb_to_2D_label]; simpl;
      simpl in IH; rewrite IH; reflexivity.
Qed.

Lemma six_class_palette_inverts_mask_decoding_witness :
  length DataUtils.potsdam_classes = 6%nat /\
  exists legend,
    DataUtils.train_id_to_color DataUtils.potsdam_classes
    = Some ([DataUtils.Impervious; DataUtils.Building; DataUtils.Vegetation;
             DataUtils.Tree; DataUtils.Car; DataUtils.Clutter], legend) /\
    map snd legend = DataUtils.potsdam_classes /\
    DataUtils.colorize (map fst legend) [3; 0; 5]
    = Ok [DataUtils.Tree; DataUtils.Impervious; DataUtils.Clutter].
Proof.
  split; [reflexivity|].
  destruct (six_class_palette_inverts_mask_decoding
              DataUtils.potsdam_classes eq_refl)
    as (legend & Hp & Hf & Hs & _ & Hm).
  exists legend. split; [exact Hp|]. split; [exact Hs|].
  rewrite Hf.
  apply (Hm [DataUtils.Tree; DataUtils.Impervious; DataUtils.Clutter]).
  repeat constructor; simpl; tauto.
Defined.

(** ** Images by name *)

Lemma py_getitem_nonneg {A : Type} (l : list A) (j : nat) (x : A) :
  nth_error l j = Some x -> DataUtils.py_getitem l (Z.of_nat j) = Ok x.
Proof.
  intro H. assert (Hj : (j < length l)%nat).
  { apply nth_error_Some. rewrite H. discriminate. }
  unfold DataUtils.py_getitem.
  destruct (Z.ltb_spec (Z.of_nat j) 0) as [Hn|_]; [lia|].
  destruct (Z.leb_spec 0 (Z.of_nat j)) as [_|Hn]; [|lia].
  destruct (Z.ltb_spec (Z.of_nat j) (Z.of_nat (length l))) as [_|Hn]; [|lia].
  simpl. rewrite Nat2Z.id, H. reflexivity.
Qed.

Lemma py_getitem_range {A : Type} (l : list A) (i : Z) :
  let n := Z.of_nat (length l) in
  (- n <= i < n ->
   exists x, DataUtils.py_getitem l i = Ok x /\
             nth_error l (Z.to_nat (i mod n)) = Some x) /\
  (~ - n <= i < n -> DataUtils.py_getitem l i = Raise IndexError).
Proof.
  cbv zeta. unfold DataUtils.py_getitem. split; intro H.
  - assert (Hm : i mod Z.of_nat (length l)
                 = if i <? 0 then i + Z.of_nat (length l) else i).
    { destruct (Z.ltb_spec i 0).
      - symmetry. apply (Z.mod_unique _ _ (-1)); lia.
      - apply Z.mod_small. lia. }
    rewrite Hm.
    set (j := if i <? 0 then i + Z.of_nat (length l) else i).
    assert (Hj : 0 <= j < Z.of_nat (length l)).
    { unfold j. destruct (Z.ltb_spec i 0); lia. }
    destruct (Z.leb_spec 0 j) as [_|Hn]; [|lia].
    destruct (Z.ltb_spec j (Z.of_nat (length l))) as [_|Hn]; [|lia].
    simpl. destruct (nth_error l (Z.to_nat j)) as [x|] eqn:E.
    + exists x. now split.
    + apply nth_error_None in E. lia.
  - set (j := if i <? 0 then i + Z.of_nat (length l) else i).
    assert (Hj : ~ 0 <= j < Z.of_nat (length l)).
    { unfold j. destruct (Z.ltb_spec i 0); lia. }
    destruct (Z.leb_spec 0 j); destruct (Z.ltb_spec j (Z.of_nat (length l)));
      simpl; try reflexivity. lia.
Qed.

Lemma get_id_from_some i im_ids im_name k :
  DataUtils.get_id_from i im_ids im_name = Some k ->
  exists j : nat, k = i + Z.of_nat j /\ nth_error im_ids j = Some im_name /\
    forall j', (j' < j)%nat -> nth_error im_ids j' <> Some im_name.
Proof.
  revert i. induction im_ids as [|name rest IH]; intros i H; simpl in H;
    [discriminate H|].
  destruct (String.eqb name im_name) eqn:E.
  - apply String.eqb_eq in E. inversion H. subst. exists 0%nat.
    split; [lia|]. split; [reflexivity|]. intros j' Hj'. lia.
  - apply String.eqb_neq in E. destruct (IH _ H) as (j & -> & Hn & Hfirst).
    exists (S j). split; [lia|]. split; [exact Hn|].
    intros [|j'] Hj'; simpl; [congruence|]. apply Hfirst. lia.
Qed.

Lemma get_id_from_none i im_ids im_name :
  DataUtils.get_id_from i im_ids im_name = None <-> ~ In im_name im_ids.
Proof.
  revert i. induction im_ids as [|name rest IH]; intro i; simpl.
  - tauto.
  - destruct (String.eqb name im_name) eqn:E.
    + apply String.eqb_eq in E. split; [discriminate|]. intro H.
      exfalso. apply H. now left.
    + apply String.eqb_neq in E. rewrite IH. tauto.
Qed.

Lemma get_id_from_nodup i im_ids im_name j :
  NoDup im_ids -> nth_error im_ids j = Some im_name ->
  DataUtils.get_id_from i im_ids im_name = Some (i + Z.of_nat j).
Proof.
  intro Hnd. revert i j.
  induction Hnd as [|name rest Hnotin _ IH]; intros i j Hj.
  - destruct j; discriminate Hj.
  - simpl. destruct j as [|j]; simpl in Hj.
    + inversion Hj. subst. rewrite String.eqb_refl. f_equal. lia.
    + destruct (String.eqb name im_name) eqn:E.
      * apply String.eqb_eq in E. subst. exfalso. apply Hnotin.
        eapply nth_error_In. exact Hj.
      * rewrite (IH (i + 1) j Hj). f_equal. lia.
Qed.

(** X18: [get_id_by_name] returns the first index at which the name
    stands, so [get_name] at that index gives the name back and at no
    earlier index does; it returns None exactly for a name that is not in
    the list.  [get_name] raises IndexError exactly for an index outside
    of -len .. len-1. *)
Theorem get_id_by_name_finds_first_index
  (im_ids : list String.string) (im_name : String.string) :
  match DataUtils.get_id_by_name im_ids im_name with
  | Some k =>
      0 <= k < Z.of_nat (length im_ids) /\
      DataUtils.get_name im_ids k = Ok im_name /\
      (forall j, 0 <= j < k -> DataUtils.get_name im_ids j <> Ok im_name)
  | None => ~ In im_name im_ids
  end /\
  (forall i, DataUtils.get_name im_ids i = Raise IndexError <->
             ~ - Z.of_nat (length im_ids) <= i < Z.of_nat (length im_ids)).
Proof.
  split.
  - unfold DataUtils.get_id_by_name, DataUtils.get_name.
    destruct (DataUtils.get_id_from 0 im_ids im_name) as [k|] eqn:E.
    + destruct (get_id_from_some _ _ _ _ E) as (j & -> & Hj & Hfirst).
      assert (Hlt : (j < length im_ids)%nat).
      { apply nth_error_Some. rewrite Hj. discriminate. }
      split; [lia|]. split; [now apply py_getitem_nonneg|].
      intros j' Hj' Hget.
      destruct (nth_error im_ids (Z.to_nat j')) as [x|] eqn:Ex.
      * pose proof (py_getitem_nonneg _ _ _ Ex) as Hx.
        rewrite Z2Nat.id in Hx by lia. rewrite Hx in Hget.
        inversion Hget. subst x. apply (Hfirst (Z.to_nat j')); [lia|exact Ex].
      * apply nth_error_None in Ex. lia.
    + now apply get_id_from_none in E.
  - intro i. unfold DataUtils.get_name.
    destruct (py_getitem_range im_ids i) as [Hin Hout]. split.
    + intros H Hr. destruct (Hin Hr) as (x & Hx & _). congruence.
    + exact Hout.
Qed.

(** X19: in a list of distinct names, the name found at an index of
    -len .. len-1 leads back to that index, counted from the front:
    a negative index [i] comes back as [i + len]. *)
Theorem get_id_by_name_inverts_get_name
  (im_ids : list String.string) (i : Z)
  (Hdistinct : NoDup im_ids)
  (Hrange : - Z.of_nat (length im_ids) <= i < Z.of_nat (length im_ids)) :
  exists im_name,
    DataUtils.get_name im_ids i = Ok im_name /\
    DataUtils.get_id_by_name im_ids im_name
    = Some (if i <? 0 then i + Z.of_nat (length im_ids) else i).
Proof.
  unfold DataUtils.get_name, DataUtils.get_id_by_name.
  destruct (py_getitem_range im_ids i) as [Hin _].
  destruct (Hin Hrange) as (x & Hx & Hn).
  exists x. split; [exact Hx|].
  rewrite (get_id_from_nodup 0 _ _ _ Hdistinct Hn).
  f_equal. rewrite Z2Nat.id by (apply Z.mod_pos_bound; lia).
  destruct (Z.ltb_spec i 0).
  - symmetry. apply (Z.mod_unique _ _ (-1)); lia.
  - apply Z.mod_small. lia.
Qed.

Lemma get_id_by_name_inverts_get_name_witness :
  NoDup DataUtils.potsdam_classes /\
  - Z.of_nat (length DataUtils.potsdam_classes) <= -2
    < Z.of_nat (length DataUtils.potsdam_classes) /\
  exists im_name,
    DataUtils.get_name DataUtils.potsdam_classes (-2) = Ok im_name /\
    DataUtils.get_id_by_name DataUtils.potsdam_classes im_name = Some 4.
Proof.
  assert (Hnd : NoDup DataUtils.potsdam_classes).
  { unfold DataUtils.potsdam_classes.
    repeat (constructor; [simpl; intro H; repeat destruct H as [H|H];
                           try discriminate H; try destruct H|]).
    constructor. }
  assert (Hr : - Z.of_nat (length DataUtils.potsdam_classes) <= -2
               < Z.of_nat (length DataUtils.potsdam_classes)).
  { simpl. lia. }
  split; [exact Hnd|]. split; [exact Hr|].
  exact (get_id_by_name_inverts_get_name DataUtils.potsdam_classes (-2) Hnd Hr).
Defined.

(** ** The random split *)

(** X20: the two lengths handed to the random split of a dataset of [n]
    images add up to [n], as the split requires; neither is negative,
    the validation part gets an image as soon as there is one, the
    training part only from two images on, and the training part is at
    most three times the validation part and at least three times the
    validation part less one. *)
Theorem split_lengths_partition_the_dataset (n : nat) :
  let (train, valid) := DataUtils.split_lengths n in
  train + valid = Z.of_nat n /\ 0 <= train /\ 0 <= valid /\
  (valid = 0 <-> n = 0%nat) /\ (train = 0 <-> (n <= 1)%nat) /\
  3 * (valid - 1) <= train <= 3 * valid.
Proof.
  unfold DataUtils.split_lengths, Qround.Qceiling, Qround.Qfloor.
  unfold Qmult, Qopp, inject_Z. cbn [Qnum Qden].
  change (Z.pos (100 * 1)) with 100.
  set (m := Z.of_nat n). assert (Hm : 0 <= m) by (unfold m; lia).
  assert (H1 : (n <= 1)%nat <-> m <= 1) by (unfold m; lia).
  assert (H0 : n = 0%nat <-> m = 0) by (unfold m; lia).
  rewrite H1, H0. clear H1 H0. clearbody m.
  pose proof (Z.div_mod (75 * m) 100 ltac:(lia)) as E1.
  pose proof (Z.mod_pos_bound (75 * m) 100 ltac:(lia)) as B1.
  pose proof (Z.div_mod (- (25 * m)) 100 ltac:(lia)) as E2.
  pose proof (Z.mod_pos_bound (- (25 * m)) 100 ltac:(lia)) as B2.
  lia.
Qed.
